(** * tldraw-mcp: the storage codec and the shape repository of [src/index.ts]

    A shallow embedding of the document store: the path sandbox, the
    document validator, the three storage layouts (plain, wrapped,
    embedded in a text file) with their decoder and encoder, and the
    in-memory shape operations.  Every definition carries the name of the
    TypeScript function it embeds. *)

From Stdlib Require Import ZArith Ascii String DecimalString DecimalNat
  DecimalFacts.
From stdpp Require Import gmap strings list.

Open Scope Z_scope.
Open Scope nat_scope.

(** ** Strings

    A JavaScript string is a sequence of code units; the model keeps the
    units below 255 and U+FFFD, for which the unit 255 stands, and uses
    the standard library's [string].  The string methods the program
    calls are the library's functions of the same behaviour. *)

Module Str.

(** [s.indexOf(m, from)]; [None] stands for [-1]. *)
Definition indexOf (s m : string) (from : nat) : option nat :=
  String.index from m s.

(** [s.slice(a, b)] and [s.slice(a)] for indices inside the string. *)
Definition slice (s : string) (a b : nat) : string :=
  String.substring a (b - a) s.

Definition slice_from (s : string) (a : nat) : string :=
  String.substring a (String.length s - a) s.

Definition startsWith (s p : string) : bool := String.prefix p s.

(** [s.endsWith(suf)]: a suffix is a prefix of the reversed string. *)
Definition endsWith (s suf : string) : bool :=
  String.prefix (String.rev suf) (String.rev s).

(** White space as [String.prototype.trim] sees it, among the units
    below 256: tab, line feed, vertical tab, form feed, carriage return,
    space and the no-break space. *)
Definition is_ws (c : ascii) : bool :=
  Ascii.is_space c || Ascii.eqb c "160"%char.

Fixpoint trimStart (s : string) : string :=
  match s with
  | EmptyString => EmptyString
  | String c s' => if is_ws c then trimStart s' else s
  end.

Definition trim (s : string) : string :=
  String.rev (trimStart (String.rev (trimStart s))).

(** [s.lastIndexOf(c)] for a single character. *)
Fixpoint lastIndexOf_go (c : ascii) (s : string) (i : nat)
    (acc : option nat) : option nat :=
  match s with
  | EmptyString => acc
  | String a s' =>
      lastIndexOf_go c s' (S i) (if Ascii.eqb a c then Some i else acc)
  end.

Definition lastIndexOf (s : string) (c : ascii) : option nat :=
  lastIndexOf_go c s 0 None.

(** The decimal numeral of a natural number, as a template literal
    prints it. *)
Definition of_nat (n : nat) : string :=
  NilEmpty.string_of_uint (Nat.to_uint n).

(** [m] occurs in [s] at offset [i]. *)
Definition occurs (m s : string) (i : nat) : Prop :=
  String.substring i (String.length m) s = m.

(** Every offset at which [m] occurs in [s], in increasing order. *)
Fixpoint occurrences_go (m s : string) (i : nat) : list nat :=
  (if String.prefix m s then [i] else []) ++
  match s with
  | EmptyString => []
  | String _ s' => occurrences_go m s' (S i)
  end.

Definition occurrences (m s : string) : list nat := occurrences_go m s 0.

End Str.

(** ** JSON values

    The values [JSON.parse] produces.  An object is the list of its own
    properties in insertion order, each key once; numbers are kept as
    integers, the program only copies them and tests them against zero. *)

#[warnings="-register-all"]
Inductive json : Type :=
| JNull
| JBool (b : bool)
| JNum (n : Z)
| JStr (s : string)
| JArr (items : list json)
| JObj (fields : list (string * json)).

Module Js.

(** First binding of [k]. *)
Fixpoint assoc (k : string) (fs : list (string * json)) : option json :=
  match fs with
  | [] => None
  | (k', v) :: rest => if String.eqb k k' then Some v else assoc k rest
  end.

(** [o[k] = v]: an existing key keeps its place, a new one goes last. *)
Fixpoint assoc_set (k : string) (v : json) (fs : list (string * json))
    : list (string * json) :=
  match fs with
  | [] => [(k, v)]
  | (k', v') :: rest =>
      if String.eqb k k' then (k, v) :: rest
      else (k', v') :: assoc_set k v rest
  end.

(** [v.k] on a value other than [null]; [None] is [undefined].  The
    program reads fixed field names only, none of which is a built-in
    property of arrays or strings. *)
Definition get (v : json) (k : string) : option json :=
  match v with
  | JObj fs => assoc k fs
  | _ => None
  end.

(** [k in v] for an object. *)
Definition has (v : json) (k : string) : bool :=
  bool_decide (is_Some (get v k)).

(** [v.k = x]. *)
Definition set (v : json) (k : string) (x : json) : json :=
  match v with
  | JObj fs => JObj (assoc_set k x fs)
  | _ => v
  end.

(** Truthiness; [undefined] is falsy. *)
Definition truthy (v : json) : bool :=
  match v with
  | JNull => false
  | JBool b => b
  | JNum n => negb (Z.eqb n 0)
  | JStr s => negb (String.eqb s "")
  | JArr _ | JObj _ => true
  end.

Definition truthy_opt (o : option json) : bool :=
  match o with Some v => truthy v | None => false end.

(** [typeof o === "object"]: objects, arrays and [null]. *)
Definition typeof_object (o : option json) : bool :=
  match o with
  | Some (JNull | JArr _ | JObj _) => true
  | _ => false
  end.

Definition typeof_number (o : option json) : bool :=
  match o with Some (JNum _) => true | _ => false end.

(** [o === s] for a string [s]. *)
Definition is_str (o : option json) (s : string) : bool :=
  match o with Some (JStr t) => String.eqb t s | _ => false end.

(** Own enumerable properties, as the spread syntax enumerates them:
    the fields of an object, the elements of an array and the units of a
    string under their indices, none for any other value.
    [Object.entries] enumerates the same but throws on [null], which
    [updateShape] tells apart. *)
Fixpoint indexed (i : nat) (l : list json) : list (string * json) :=
  match l with
  | [] => []
  | x :: rest => (Str.of_nat i, x) :: indexed (S i) rest
  end.

Fixpoint chars (s : string) : list json :=
  match s with
  | EmptyString => []
  | String c s' => JStr (String c EmptyString) :: chars s'
  end.

Definition entries (v : json) : list (string * json) :=
  match v with
  | JObj fs => fs
  | JArr l => indexed 0 l
  | JStr s => indexed 0 (chars s)
  | _ => []
  end.

(** [{...acc, ...v}] continued: the properties of [v] assigned in turn. *)
Definition spread_into (acc : list (string * json)) (v : json)
    : list (string * json) :=
  fold_left (fun a kv => assoc_set kv.1 kv.2 a) (entries v) acc.

(** Each key once, as in every object built by the runtime. *)
Definition wf_fields (fs : list (string * json)) : Prop := NoDup fs.*1.

(** Each key once in the value and in every value inside it. *)
Fixpoint wf_json (v : json) : bool :=
  match v with
  | JArr items => forallb wf_json items
  | JObj fields =>
      bool_decide (NoDup fields.*1)
      && forallb (fun kv => let '(_, x) := kv in wf_json x) fields
  | _ => true
  end.

End Js.

(** ** Failures

    The program throws [Error] objects told apart by their message; the
    constructors below are those messages.  [TypeError] is the runtime's
    own failure when a property of [null] is read, [IOError] a failed file
    system call. *)

Inductive invalid_reason :=
| NotAnObject
| MissingFormatVersion
| MissingSchema
| RecordsNotArray
| RecordMissingIdOrTypeName.

Inductive marker := StartMarker | EndMarker.

Inductive error :=
| PathTraversal
| UnsupportedExtension
| NotFound
| MalformedContent
| InvalidDocument (r : invalid_reason)
| InvalidWrappedDocument
| MissingBlock (m : marker)
| DuplicateBlock (m : marker)
| EmptyBlock
| NoPages
| ShapeNotFound
| AlreadyExists
| TypeError
| IOError.

Inductive result (A : Type) : Type :=
| Ok (a : A)
| Err (e : error).
Arguments Ok {A} a.
Arguments Err {A} e.

Global Instance result_ret : MRet result := fun _ a => Ok a.
Global Instance result_bind : MBind result := fun _ _ f m =>
  match m with
  | Ok a => f a
  | Err e => Err e
  end.

(** ** The runtime

    What the program takes from Node: the JSON codec, the [path] module
    and the configured root directory.  [JSON_stringify v] is
    [JSON.stringify(v, null, 2)], the only form the program calls;
    [JSON_parse] answers [None] where [JSON.parse] throws. *)

Class NodeRuntime := {
  JSON_parse : string → option json;
  JSON_stringify : json → string;
  path_resolve : list string → string;
  path_relative : string → string → string;
  path_isAbsolute : string → bool;
  TLDRAW_DIR : string;
}.

Definition MARKDOWN_TLDRAW_START_MARKER : string :=
  "!!!_START_OF_TLDRAW_DATA__DO_NOT_CHANGE_THIS_PHRASE_!!!".
Definition MARKDOWN_TLDRAW_END_MARKER : string :=
  "!!!_END_OF_TLDRAW_DATA__DO_NOT_CHANGE_THIS_PHRASE_!!!".

Record MarkdownTldrawBlock := {
  jsonStart : nat;
  jsonEnd : nat;
  jsonText : string;
}.

Inductive TldrawStorageFormat := PlainJson | WrappedJson | EmbeddedMarkdown.

Record ParsedTldrawContent := {
  file : json;
  storageFormat : TldrawStorageFormat;
  wrappedContainer : option json;
}.

(** ** Pure functions *)

Section Pure.
Context `{NodeRuntime}.

(** [securePath] *)
Definition securePath (inputPath : string) : result string :=
  let baseDir := path_resolve [TLDRAW_DIR] in
  let targetPath :=
    if path_isAbsolute inputPath then path_resolve [inputPath]
    else path_resolve [baseDir; inputPath] in
  if negb (path_isAbsolute inputPath) then
    let relativePath := path_relative baseDir targetPath in
    if Str.startsWith relativePath ".." || path_isAbsolute relativePath
    then Err PathTraversal
    else Ok targetPath
  else Ok targetPath.

(** The loop of [validateTldrawFile] over [file.records]. *)
Fixpoint validateRecords (records : list json) : result unit :=
  match records with
  | [] => Ok tt
  | JNull :: _ => Err TypeError
  | record :: rest =>
      if negb (Js.truthy_opt (Js.get record "id"))
         || negb (Js.truthy_opt (Js.get record "typeName"))
      then Err (InvalidDocument RecordMissingIdOrTypeName)
      else validateRecords rest
  end.

(** [validateTldrawFile] *)
Definition validateTldrawFile (data : json) : result json :=
  if negb (Js.truthy data) || negb (Js.typeof_object (Some data))
  then Err (InvalidDocument NotAnObject)
  else if negb (Js.typeof_number (Js.get data "tldrawFileFormatVersion"))
  then Err (InvalidDocument MissingFormatVersion)
  else if negb (Js.truthy_opt (Js.get data "schema"))
          || negb (Js.typeof_object (Js.get data "schema"))
  then Err (InvalidDocument MissingSchema)
  else match Js.get data "records" with
       | Some (JArr records) =>
           _ ← validateRecords records; Ok data
       | _ => Err (InvalidDocument RecordsNotArray)
       end.

(** [isReadableTldrawPath] *)
Definition isReadableTldrawPath (path : string) : bool :=
  Str.endsWith path ".tldr" || Str.endsWith path ".md".

(** [parseJsonContent] *)
Definition parseJsonContent (content : string) : result json :=
  match JSON_parse content with
  | Some v => Ok v
  | None => Err MalformedContent
  end.

(** [locateMarkdownTldrawBlock] *)
Definition locateMarkdownTldrawBlock (markdown : string)
    : result MarkdownTldrawBlock :=
  match Str.indexOf markdown MARKDOWN_TLDRAW_START_MARKER 0 with
  | None => Err (MissingBlock StartMarker)
  | Some startIndex =>
      let afterStart :=
        startIndex + String.length MARKDOWN_TLDRAW_START_MARKER in
      match Str.indexOf markdown MARKDOWN_TLDRAW_START_MARKER afterStart with
      | Some _ => Err (DuplicateBlock StartMarker)
      | None =>
          match Str.indexOf markdown MARKDOWN_TLDRAW_END_MARKER afterStart with
          | None => Err (MissingBlock EndMarker)
          | Some endIndex =>
              match Str.indexOf markdown MARKDOWN_TLDRAW_END_MARKER
                      (endIndex + String.length MARKDOWN_TLDRAW_END_MARKER) with
              | Some _ => Err (DuplicateBlock EndMarker)
              | None =>
                  let text := Str.trim (Str.slice markdown afterStart endIndex) in
                  if String.eqb text "" then Err EmptyBlock
                  else Ok {| jsonStart := afterStart;
                             jsonEnd := endIndex;
                             jsonText := text |}
              end
          end
      end
  end.

(** [normalizeTldrawPayload]: the document and, for a wrapped payload,
    the container around it. *)
Definition normalizeTldrawPayload (data : json)
    : result (json * option json) :=
  if negb (Js.truthy data) || negb (Js.typeof_object (Some data))
  then Err (InvalidDocument NotAnObject)
  else if Js.has data "raw" then
    if negb (Js.truthy_opt (Js.get data "raw"))
       || negb (Js.typeof_object (Js.get data "raw"))
    then Err InvalidWrappedDocument
    else match Js.get data "raw" with
         | Some raw => f ← validateTldrawFile raw; Ok (f, Some data)
         | None => Err InvalidWrappedDocument
         end
  else f ← validateTldrawFile data; Ok (f, None).

End Pure.

(** ** The file system and the effects

    A file system maps a path to a directory or to a file.  The program
    reads and writes files as UTF-8 text: [File content] is a file whose
    bytes are the UTF-8 encoding of the text [content]; [Garbled before
    after] is a file that is not UTF-8 text, the encoding of [before],
    then the byte FF, which no UTF-8 text contains, then the encoding of
    [after].  In a text, a code unit below 255 stands for itself and the
    unit 255 for U+FFFD, the character a decoder puts in the place of a
    byte it cannot decode; no function of the program tells the two
    readings of the unit 255 apart.

    A path other than a top-level one is in the map only with its
    directory, as on a disk.  An operation threads the file system and
    either returns or throws; what it wrote before throwing stays
    written. *)

Inductive node :=
| File (content : string)
| Dir
| Garbled (before after : string).

Module Utf8.

(** U+FFFD as a text. *)
Definition replacement : string := String "255"%char EmptyString.

Definition byte_of_nat (n : nat) : Byte.byte :=
  Ascii.byte_of_ascii (ascii_of_nat n).

(** The bytes of one unit of a text: one byte up to U+007F, two up to
    U+00FE, and EF BF BD for U+FFFD. *)
Definition encodeUnit (c : ascii) : list Byte.byte :=
  let n := nat_of_ascii c in
  if n <? 128 then [byte_of_nat n]
  else if n =? 255 then [byte_of_nat 239; byte_of_nat 191; byte_of_nat 189]
  else [byte_of_nat (192 + n / 64); byte_of_nat (128 + n mod 64)].

Fixpoint encode (s : string) : list Byte.byte :=
  match s with
  | EmptyString => []
  | String c s' => encodeUnit c ++ encode s'
  end.

End Utf8.

(** The bytes of a file. *)
Definition bytesOf (n : node) : option (list Byte.byte) :=
  match n with
  | File content => Some (Utf8.encode content)
  | Garbled before after =>
      Some (Utf8.encode before ++ [Utf8.byte_of_nat 255] ++ Utf8.encode after)
  | Dir => None
  end.

(** A file, and not a directory, is at the path. *)
Definition isFile (o : option node) : bool :=
  match o with
  | Some (File _) | Some (Garbled _ _) => true
  | _ => false
  end.

(** The directory a path lies in: what comes before its last slash.  A
    path whose only slash is the first, or that has none, lies in the
    root or in the working directory, which are always there. *)
Definition parentOf (p : string) : option string :=
  match Str.lastIndexOf p "/"%char with
  | Some (S i) => Some (String.substring 0 (S i) p)
  | _ => None
  end.

(** A path after the directories above it, outermost first. *)
Fixpoint pathChain_go (fuel : nat) (p : string) : list string :=
  match fuel with
  | 0 => [p]
  | S fuel' =>
      match parentOf p with
      | Some d => pathChain_go fuel' d ++ [p]
      | None => [p]
      end
  end.

Definition pathChain (p : string) : list string :=
  pathChain_go (String.length p) p.

(** Each path of the list made a directory unless something is there. *)
Definition makeDirs (ps : list string) (σ : gmap string node)
    : gmap string node :=
  fold_left (fun τ q => match τ !! q with
                        | None => <[q := Dir]> τ
                        | Some _ => τ
                        end) ps σ.

Definition IO (A : Type) : Type :=
  gmap string node → gmap string node * result A.

Global Instance IO_ret : MRet IO := fun _ a σ => (σ, Ok a).
Global Instance IO_bind : MBind IO := fun _ _ f m σ =>
  match m σ with
  | (σ', Ok a) => f a σ'
  | (σ', Err e) => (σ', Err e)
  end.

Definition throw {A} (e : error) : IO A := fun σ => (σ, Err e).

Definition liftR {A} (r : result A) : IO A := fun σ => (σ, r).

(** [try { m } catch { h }] *)
Definition try_catch {A} (m h : IO A) : IO A := fun σ =>
  match m σ with
  | (σ', Ok a) => (σ', Ok a)
  | (σ', Err _) => h σ'
  end.

Definition existsSync (p : string) : IO bool := fun σ =>
  (σ, Ok (bool_decide (is_Some (σ !! p)))).

(** [readFile(p, "utf-8")]: the bytes of the file decoded; a byte that
    is not UTF-8 is read as U+FFFD. *)
Definition readFile (p : string) : IO string := fun σ =>
  match σ !! p with
  | Some (File c) => (σ, Ok c)
  | Some (Garbled before after) =>
      (σ, Ok (before +:+ Utf8.replacement +:+ after))
  | _ => (σ, Err IOError)
  end.

(** [writeFile(p, c, "utf-8")]: the file holds the encoding of [c]
    afterwards.  The call throws on a directory, on the empty path, and
    for a new file whose directory is missing or is a file. *)
Definition writeFile (p c : string) : IO unit := fun σ =>
  match σ !! p with
  | Some Dir => (σ, Err IOError)
  | Some _ => (<[p := File c]> σ, Ok tt)
  | None =>
      if String.eqb p "" then (σ, Err IOError)
      else
        match parentOf p with
        | None => (<[p := File c]> σ, Ok tt)
        | Some d =>
            match σ !! d with
            | Some Dir => (<[p := File c]> σ, Ok tt)
            | _ => (σ, Err IOError)
            end
        end
  end.

(** [mkdir(p, { recursive: true })]: the directory and every missing
    directory above it are made.  The call throws on the empty path and
    when a file is at the path or above it, and makes nothing then. *)
Definition mkdir (p : string) : IO unit := fun σ =>
  if String.eqb p "" then (σ, Err IOError)
  else if forallb (fun q => negb (isFile (σ !! q))) (pathChain p)
  then (makeDirs (pathChain p) σ, Ok tt)
  else (σ, Err IOError).

Definition nl : string := String "010"%char EmptyString.

Section Store.
Context `{NodeRuntime}.

(** [ensureDir] *)
Definition ensureDir (dirPath : string) : IO unit :=
  ex ← existsSync dirPath;
  if negb ex then mkdir dirPath else mret tt.

(** [parseTldrawContent] *)
Definition parseTldrawContent (path : string) : IO ParsedTldrawContent :=
  filepath ← liftR (securePath path);
  if negb (isReadableTldrawPath filepath) then throw UnsupportedExtension
  else
    ex ← existsSync filepath;
    if negb ex then throw NotFound
    else
      content ← readFile filepath;
      if Str.endsWith filepath ".md" then
        block ← liftR (locateMarkdownTldrawBlock content);
        data ← liftR (parseJsonContent (jsonText block));
        '(f, w) ← liftR (normalizeTldrawPayload data);
        mret {| file := f;
                storageFormat := EmbeddedMarkdown;
                wrappedContainer := w |}
      else
        data ← liftR (parseJsonContent content);
        '(f, w) ← liftR (normalizeTldrawPayload data);
        mret {| file := f;
                storageFormat :=
                  match w with
                  | Some _ => WrappedJson
                  | None => PlainJson
                  end;
                wrappedContainer := w |}.

(** The test of [getWrappedContainerForTldraw] on the parsed content. *)
Definition isWrappedContainer (existingData : json) : bool :=
  Js.truthy existingData
  && Js.typeof_object (Some existingData)
  && Js.has existingData "raw"
  && Js.typeof_object (Js.get existingData "raw").

(** [getWrappedContainerForTldraw] *)
Definition getWrappedContainerForTldraw (filepath : string)
    : IO (option json) :=
  ex ← existsSync filepath;
  if negb ex then mret None
  else
    try_catch
      (existingContent ← readFile filepath;
       existingData ← liftR (parseJsonContent existingContent);
       if isWrappedContainer existingData then mret (Some existingData)
       else mret None)
      (mret None).

(** [wrappedContainer ? { ...wrappedContainer, raw: file } : file] with
    [wrappedContainer = existing || input]. *)
Definition outputContent (existing input : option json) (f : json) : json :=
  match (match existing with Some _ => existing | None => input end) with
  | Some c => JObj (Js.assoc_set "raw" f (Js.spread_into [] c))
  | None => f
  end.

(** [tldrawRead] *)
Definition tldrawRead (path : string) : IO json :=
  parsed ← parseTldrawContent path;
  mret (file parsed).

(** [tldrawWrite]; a string [content] is parsed first. *)
Definition tldrawWrite (path : string) (content : json) : IO string :=
  filepath ← liftR (securePath path);
  if negb (isReadableTldrawPath filepath) then throw UnsupportedExtension
  else
    parsedInput ← liftR (match content with
                         | JStr s => parseJsonContent s
                         | _ => Ok content
                         end);
    '(f, inputWrappedContainer) ← liftR (normalizeTldrawPayload parsedInput);
    if Str.endsWith filepath ".md" then
      ex ← existsSync filepath;
      if negb ex then throw NotFound
      else
        markdownContent ← readFile filepath;
        block ← liftR (locateMarkdownTldrawBlock markdownContent);
        existingData ← liftR (parseJsonContent (jsonText block));
        '(_, existingWrappedContainer) ←
          liftR (normalizeTldrawPayload existingData);
        let updatedMarkdown :=
          Str.slice markdownContent 0 (jsonStart block) +:+ nl
          +:+ JSON_stringify
                (outputContent existingWrappedContainer
                   inputWrappedContainer f)
          +:+ nl
          +:+ Str.slice_from markdownContent (jsonEnd block) in
        _ ← writeFile filepath updatedMarkdown;
        mret ("Successfully wrote: " +:+ path)
    else
      let dir :=
        String.substring 0
          (default 0 (Str.lastIndexOf filepath "/"%char)) filepath in
      _ ← ensureDir dir;
      existingWrappedContainer ← getWrappedContainerForTldraw filepath;
      _ ← writeFile filepath
            (JSON_stringify
               (outputContent existingWrappedContainer
                  inputWrappedContainer f));
      mret ("Successfully wrote: " +:+ path).

End Store.

(** ** The shape repository

    Each tool reads the document, changes it in memory and writes it
    back.  The in-memory step is a function of its own ([getShapes],
    [addShape], [updateShape], [deleteShape]); the tool wraps it between
    [tldrawRead] and [tldrawWrite].  Records reaching these functions have
    passed the validator, so none of them is [null]. *)

(** [file.records] of a document. *)
Definition withRecords {A} (f : json) (k : list json → result A) : result A :=
  match Js.get f "records" with
  | Some (JArr records) => k records
  | _ => Err TypeError
  end.

Definition isShape (r : json) : bool := Js.is_str (Js.get r "typeName") "shape".
Definition isPage (r : json) : bool := Js.is_str (Js.get r "typeName") "page".
Definition hasId (shapeId : string) (r : json) : bool :=
  Js.is_str (Js.get r "id") shapeId.

(** [a || d] on a property that may be absent. *)
Definition orDefault (o : option json) (d : json) : json :=
  match o with
  | Some v => if Js.truthy v then v else d
  | None => d
  end.

(** [records.findIndex(p)]; [None] stands for [-1]. *)
Fixpoint findIndex (p : json → bool) (records : list json) : option nat :=
  match records with
  | [] => None
  | r :: rest => if p r then Some 0 else S <$> findIndex p rest
  end.

(** An optional string argument as the test [if (pageId)] sees it: given
    when it is a non-empty string. *)
Definition pageGiven (pageId : option string) : option string :=
  match pageId with
  | Some p => if String.eqb p "" then None else Some p
  | None => None
  end.

(** [getShapes]: lines 517-523 of [tldrawGetShapes]. *)
Definition getShapes (f : json) (pageId : option string) : result (list json) :=
  withRecords f (fun records =>
    let shapes := filter (fun r => isShape r) records in
    match pageGiven pageId with
    | Some p => Ok (filter (fun r => Js.is_str (Js.get r "parentId") p) shapes)
    | None => Ok shapes
    end).

(** The property set a new shape gets when the caller gives none. *)
Definition defaultProps : json :=
  JObj [("w", JNum 100); ("h", JNum 100); ("geo", JStr "rectangle");
        ("color", JStr "black"); ("labelColor", JStr "black");
        ("fill", JStr "none"); ("dash", JStr "draw"); ("size", JStr "m");
        ("font", JStr "draw"); ("align", JStr "middle");
        ("verticalAlign", JStr "middle"); ("growY", JNum 0);
        ("url", JStr ""); ("scale", JNum 1);
        ("richText", JObj [("type", JStr "doc"); ("content", JArr [])])].

(** The record literal [newShape] of [tldrawAddShape]; a [targetPageId]
    that is [undefined] leaves no [parentId] property. *)
Definition newShape (shape : json) (shapeId : json)
    (targetPageId : option json) (shapeCount : nat) : json :=
  JObj ([("id", shapeId);
         ("typeName", JStr "shape");
         ("type", orDefault (Js.get shape "type") (JStr "geo"));
         ("x", orDefault (Js.get shape "x") (JNum 0));
         ("y", orDefault (Js.get shape "y") (JNum 0));
         ("rotation", orDefault (Js.get shape "rotation") (JNum 0));
         ("isLocked", JBool false);
         ("opacity", JNum 1)]
        ++ match targetPageId with
           | Some p => [("parentId", p)]
           | None => []
           end
        ++ [("index", JStr ("a" +:+ Str.of_nat (shapeCount + 1)));
            ("meta", JObj []);
            ("props", orDefault (Js.get shape "props") defaultProps)]).

(** The page a new shape goes to: the caller's [pageId] when given, else
    the identity of the first page record. *)
Definition targetPage (records : list json) (pageId : option string)
    : result (option json) :=
  match pageGiven pageId with
  | Some p => Ok (Some (JStr p))
  | None =>
      match List.find isPage records with
      | Some firstPage => Ok (Js.get firstPage "id")
      | None => Err NoPages
      end
  end.

(** [addShape]: lines 533-578 of [tldrawAddShape]; [uuid] is the value
    of [crypto.randomUUID()].  Returns the document and the identity. *)
Definition addShape (uuid : string) (f : json) (shape : json)
    (pageId : option string) : result (json * json) :=
  withRecords f (fun records =>
    targetPageId ← targetPage records pageId;
    let shapeId :=
      orDefault (Js.get shape "id")
        (JStr ("shape:" +:+ Str.slice uuid 0 8)) in
    let record :=
      newShape shape shapeId targetPageId
        (length (filter (fun r => isShape r) records)) in
    Ok (Js.set f "records" (JArr (records ++ [record])), shapeId)).

(** What the record inherits from while [tldrawUpdateShape] loops:
    [Object.prototype], as every parsed record does; another value, once
    a turn has assigned an object or an array to [__proto__]; nothing,
    once a turn has assigned [null] to it. *)
Inductive prototype :=
| ObjectPrototype
| Inherits (p : json)
| NoPrototype.

(** [shape.props]: the record's own property, else the own property of
    the value it inherits from. *)
Definition readProps (shape : json) (proto : prototype) : option json :=
  match Js.get shape "props" with
  | Some v => Some v
  | None =>
      match proto with
      | Inherits p => Js.get p "props"
      | _ => None
      end
  end.

(** Whether [shape.__proto__ = value] reaches the accessor of
    [Object.prototype]: neither the record nor the value it inherits
    from has a property of that name of its own, and the chain ends in
    [Object.prototype]. *)
Definition reachesSetter (shape : json) (proto : prototype) : bool :=
  negb (Js.has shape "__proto__")
  && match proto with
     | ObjectPrototype => true
     | Inherits p => negb (Js.has p "__proto__")
     | NoPrototype => false
     end.

(** One turn of the loop of [tldrawUpdateShape] over
    [Object.entries(updates)].  The assignment [shape[key] = value]
    writes a property of the record, except under the key [__proto__]
    when it reaches the accessor: then it writes no property, an object,
    an array or [null] replaces what the record inherits from, and any
    other value is dropped. *)
Definition updateStep (st : json * prototype) (kv : string * json)
    : json * prototype :=
  let '(shape, proto) := st in
  if String.eqb kv.1 "props"
     && Js.typeof_object (Some kv.2)
     && Js.truthy_opt (readProps shape proto)
  then
    match readProps shape proto with
    | Some props =>
        (Js.set shape "props"
           (JObj (Js.spread_into (Js.spread_into [] props) kv.2)), proto)
    | None => st
    end
  else if String.eqb kv.1 "__proto__" && reachesSetter shape proto then
    match kv.2 with
    | JObj _ | JArr _ => (shape, Inherits kv.2)
    | JNull => (shape, NoPrototype)
    | _ => st
    end
  else (Js.set shape kv.1 kv.2, proto).

(** The loop, lines 598-605: the own properties of the record after
    it. *)
Definition updateLoop (updates : json) (shape : json) : json :=
  (fold_left updateStep (Js.entries updates) (shape, ObjectPrototype)).1.

(** [updateShape]: lines 592-605 of [tldrawUpdateShape];
    [Object.entries(null)] throws. *)
Definition updateShape (f : json) (shapeId : string) (updates : json)
    : result json :=
  withRecords f (fun records =>
    match findIndex (hasId shapeId) records with
    | None => Err ShapeNotFound
    | Some shapeIndex =>
        match records !! shapeIndex with
        | Some shape =>
            match updates with
            | JNull => Err TypeError
            | _ =>
                Ok (Js.set f "records"
                      (JArr (<[shapeIndex := updateLoop updates shape]>
                               records)))
            end
        | None => Err TypeError
        end
    end).

(** [deleteShape]: lines 615-620 of [tldrawDeleteShape]. *)
Definition deleteShape (f : json) (shapeId : string) : result json :=
  withRecords f (fun records =>
    let initialLength := length records in
    let records' := filter (fun r => negb (hasId shapeId r)) records in
    if Nat.eqb (length records') initialLength then Err ShapeNotFound
    else Ok (Js.set f "records" (JArr records'))).

Section Tools.
Context `{NodeRuntime}.

(** [tldrawGetShapes] *)
Definition tldrawGetShapes (path : string) (pageId : option string)
    : IO (list json) :=
  f ← tldrawRead path;
  liftR (getShapes f pageId).

(** [tldrawAddShape] *)
Definition tldrawAddShape (uuid : string) (path : string) (shape : json)
    (pageId : option string) : IO json :=
  f ← tldrawRead path;
  '(f', shapeId) ← liftR (addShape uuid f shape pageId);
  _ ← tldrawWrite path f';
  mret shapeId.

(** [tldrawUpdateShape] *)
Definition tldrawUpdateShape (path shapeId : string) (updates : json)
    : IO string :=
  f ← tldrawRead path;
  f' ← liftR (updateShape f shapeId updates);
  _ ← tldrawWrite path f';
  mret ("Updated shape: " +:+ shapeId).

(** [tldrawDeleteShape] *)
Definition tldrawDeleteShape (path shapeId : string) : IO string :=
  f ← tldrawRead path;
  f' ← liftR (deleteShape f shapeId);
  _ ← tldrawWrite path f';
  mret ("Deleted shape: " +:+ shapeId).

End Tools.

(** ** A runtime to run the program on

    The POSIX [path] functions and a JSON printer and parser, enough to
    evaluate the program on concrete files.  The theorems below hold for
    every runtime; this one supplies the examples. *)

Module Posix.

Definition isAbsolute (p : string) : bool := String.prefix "/" p.

(** The segments of a path between its slashes. *)
Fixpoint split_go (s cur : string) : list string :=
  match s with
  | EmptyString => [String.rev cur]
  | String c s' =>
      if Ascii.eqb c "/"%char then String.rev cur :: split_go s' ""
      else split_go s' (String c cur)
  end.

Definition split (s : string) : list string := split_go s "".

(** Segments of an absolute path with [.], [..] and empty segments
    resolved; the stack is kept reversed. *)
Fixpoint normalize_go (segs stack : list string) : list string :=
  match segs with
  | [] => rev stack
  | seg :: rest =>
      if String.eqb seg "" || String.eqb seg "." then normalize_go rest stack
      else if String.eqb seg ".." then normalize_go rest (tail stack)
      else normalize_go rest (seg :: stack)
  end.

Definition segments (p : string) : list string := normalize_go (split p) [].

Definition join (segs : list string) : string :=
  match segs with
  | [] => ""
  | seg :: rest => fold_left (fun acc x => acc +:+ "/" +:+ x) rest seg
  end.

(** [path.resolve(...paths)]: from the right, up to the first absolute
    path, then the working directory. *)
Fixpoint resolve_go (cwd : string) (paths_rev : list string) (acc : string)
    : string :=
  match paths_rev with
  | [] => cwd +:+ "/" +:+ acc
  | p :: rest =>
      if String.eqb p "" then resolve_go cwd rest acc
      else if isAbsolute p then p +:+ "/" +:+ acc
      else resolve_go cwd rest (p +:+ "/" +:+ acc)
  end.

Definition resolve (cwd : string) (paths : list string) : string :=
  "/" +:+ join (segments (resolve_go cwd (rev paths) "")).

Fixpoint strip_common (a b : list string) : list string * list string :=
  match a, b with
  | x :: a', y :: b' => if String.eqb x y then strip_common a' b' else (a, b)
  | _, _ => (a, b)
  end.

(** [path.relative(from, to)] *)
Definition relative (cwd from to : string) : string :=
  let '(up, down) :=
    strip_common (segments (resolve cwd [from])) (segments (resolve cwd [to])) in
  join (replicate (length up) ".." ++ down).

End Posix.

Module Json.

Definition hex_digit (n : nat) : ascii :=
  ascii_of_nat (if n <? 10 then 48 + n else 87 + n).

Definition dquote : string := String "034"%char EmptyString.
Definition backslash : string := String "092"%char EmptyString.

(** The body of a string literal with the escapes [JSON.stringify]
    writes. *)
Fixpoint escape (s : string) : string :=
  match s with
  | EmptyString => EmptyString
  | String c s' =>
      let n := nat_of_ascii c in
      (if n =? 34 then backslash +:+ dquote
       else if n =? 92 then backslash +:+ backslash
       else if n =? 8 then backslash +:+ "b"
       else if n =? 9 then backslash +:+ "t"
       else if n =? 10 then backslash +:+ "n"
       else if n =? 12 then backslash +:+ "f"
       else if n =? 13 then backslash +:+ "r"
       else if n <? 32 then
         backslash +:+ "u00"
         +:+ String (hex_digit (n / 16))
               (String (hex_digit (n mod 16)) EmptyString)
       else String c EmptyString) +:+ escape s'
  end.

Definition quote (s : string) : string := dquote +:+ escape s +:+ dquote.

Definition of_Z (n : Z) : string :=
  match n with
  | Z0 => "0"
  | Zpos p => Str.of_nat (Pos.to_nat p)
  | Zneg p => "-" +:+ Str.of_nat (Pos.to_nat p)
  end.

Definition sep_lines (ind : string) (items : list string) : string :=
  match items with
  | [] => EmptyString
  | x :: rest =>
      fold_left (fun acc y => acc +:+ "," +:+ nl +:+ ind +:+ y) rest x
  end.

(** [JSON.stringify(v, null, 2)] at indentation [ind]. *)
Fixpoint print (ind : string) (v : json) : string :=
  let ind' := ind +:+ "  " in
  match v with
  | JNull => "null"
  | JBool true => "true"
  | JBool false => "false"
  | JNum n => of_Z n
  | JStr s => quote s
  | JArr [] => "[]"
  | JArr items =>
      "[" +:+ nl +:+ ind' +:+ sep_lines ind' (map (print ind') items)
      +:+ nl +:+ ind +:+ "]"
  | JObj [] => "{}"
  | JObj fields =>
      "{" +:+ nl +:+ ind'
      +:+ sep_lines ind'
            (map (fun kv => let '(k, x) := kv in
                            quote k +:+ ": " +:+ print ind' x) fields)
      +:+ nl +:+ ind +:+ "}"
  end.

Definition stringify (v : json) : string := print "" v.

(** *** Parsing *)

Definition is_json_ws (c : ascii) : bool :=
  let n := nat_of_ascii c in
  (n =? 32) || (n =? 9) || (n =? 10) || (n =? 13).

Fixpoint skip_ws (s : string) : string :=
  match s with
  | String c s' => if is_json_ws c then skip_ws s' else s
  | EmptyString => EmptyString
  end.

Definition expect (word : string) (s : string) : option string :=
  if String.prefix word s
  then Some (String.substring (String.length word)
               (String.length s - String.length word) s)
  else None.

Definition hex_value (c : ascii) : option nat :=
  let n := nat_of_ascii c in
  if (48 <=? n) && (n <=? 57) then Some (n - 48)
  else if (97 <=? n) && (n <=? 102) then Some (n - 87)
  else if (65 <=? n) && (n <=? 70) then Some (n - 55)
  else None.

Definition simple_escape (m : nat) : option ascii :=
  if m =? 34 then Some "034"%char
  else if m =? 92 then Some "092"%char
  else if m =? 47 then Some "/"%char
  else if m =? 98 then Some "008"%char
  else if m =? 102 then Some "012"%char
  else if m =? 110 then Some "010"%char
  else if m =? 114 then Some "013"%char
  else if m =? 116 then Some "009"%char
  else None.

(** The rest of a string literal after its opening quote; [acc] holds
    the characters read so far, reversed. *)
Fixpoint parse_chars (fuel : nat) (s acc : string)
    : option (string * string) :=
  match fuel, s with
  | S fuel', String c s' =>
      let n := nat_of_ascii c in
      if n =? 34 then Some (String.rev acc, s')
      else if n <? 32 then None
      else if n =? 92 then
        match s' with
        | String e t =>
            if nat_of_ascii e =? 117 then
              match t with
              | String a (String b (String h (String l t'))) =>
                  match hex_value a, hex_value b, hex_value h, hex_value l with
                  | Some 0, Some 0, Some x, Some y =>
                      parse_chars fuel' t'
                        (String (ascii_of_nat (16 * x + y)) acc)
                  | _, _, _, _ => None
                  end
              | _ => None
              end
            else
              match simple_escape (nat_of_ascii e) with
              | Some ch => parse_chars fuel' t (String ch acc)
              | None => None
              end
        | EmptyString => None
        end
      else parse_chars fuel' s' (String c acc)
  | _, _ => None
  end.

Definition parse_string (s : string) : option (string * string) :=
  parse_chars (String.length s) s EmptyString.

Definition is_digit (c : ascii) : bool :=
  let n := nat_of_ascii c in (48 <=? n) && (n <=? 57).

Fixpoint parse_digits (s : string) (acc : nat) : nat * string :=
  match s with
  | String c s' =>
      if is_digit c then parse_digits s' (10 * acc + (nat_of_ascii c - 48))
      else (acc, s)
  | EmptyString => (acc, s)
  end.

(** An integer literal: no leading zero, no fraction, no exponent. *)
Definition parse_number (s : string) : option (Z * string) :=
  let '(neg, body) :=
    match s with
    | String c s' => if Ascii.eqb c "-"%char then (true, s') else (false, s)
    | EmptyString => (false, s)
    end in
  match body with
  | String c rest =>
      if is_digit c then
        let '(n, rest') := parse_digits body 0 in
        let leading_zero :=
          Ascii.eqb c "0"%char
          && match rest with String d _ => is_digit d | _ => false end in
        let more :=
          match rest' with
          | String d _ =>
              Ascii.eqb d "."%char || Ascii.eqb d "e"%char
              || Ascii.eqb d "E"%char
          | EmptyString => false
          end in
        if leading_zero || more then None
        else Some (if neg then (- Z.of_nat n)%Z else Z.of_nat n, rest')
      else None
  | EmptyString => None
  end.

Definition head_is (c : ascii) (s : string) : bool :=
  match s with String d _ => Ascii.eqb c d | EmptyString => false end.

Definition tail_of (s : string) : string :=
  match s with String _ s' => s' | EmptyString => EmptyString end.

(** A value, then the members of an array or of an object after their
    first; each call spends fuel. *)
Fixpoint parse_value (fuel : nat) (s : string) : option (json * string) :=
  match fuel with
  | 0 => None
  | S fuel' =>
      let s := skip_ws s in
      match s with
      | EmptyString => None
      | String c rest =>
          if Ascii.eqb c "n"%char then
            r ← expect "null" s; Some (JNull, r)
          else if Ascii.eqb c "t"%char then
            r ← expect "true" s; Some (JBool true, r)
          else if Ascii.eqb c "f"%char then
            r ← expect "false" s; Some (JBool false, r)
          else if Ascii.eqb c "034"%char then
            '(str, r) ← parse_string rest; Some (JStr str, r)
          else if Ascii.eqb c "["%char then
            let rest := skip_ws rest in
            if head_is "]"%char rest then Some (JArr [], tail_of rest)
            else '(items, r) ← parse_items fuel' rest; Some (JArr items, r)
          else if Ascii.eqb c "{"%char then
            let rest := skip_ws rest in
            if head_is "}"%char rest then Some (JObj [], tail_of rest)
            else
              '(fields, r) ← parse_members fuel' rest;
              Some (JObj (fold_left (fun a kv => Js.assoc_set kv.1 kv.2 a)
                            fields []), r)
          else '(n, r) ← parse_number s; Some (JNum n, r)
      end
  end
with parse_items (fuel : nat) (s : string) : option (list json * string) :=
  match fuel with
  | 0 => None
  | S fuel' =>
      '(v, r) ← parse_value fuel' s;
      let r := skip_ws r in
      if head_is ","%char r then
        '(vs, r') ← parse_items fuel' (tail_of r); Some (v :: vs, r')
      else if head_is "]"%char r then Some ([v], tail_of r)
      else None
  end
with parse_members (fuel : nat) (s : string)
    : option (list (string * json) * string) :=
  match fuel with
  | 0 => None
  | S fuel' =>
      let s := skip_ws s in
      if head_is "034"%char s then
        '(k, r) ← parse_string (tail_of s);
        let r := skip_ws r in
        if head_is ":"%char r then
          '(v, r) ← parse_value fuel' (tail_of r);
          let r := skip_ws r in
          if head_is ","%char r then
            '(kvs, r') ← parse_members fuel' (tail_of r);
            Some ((k, v) :: kvs, r')
          else if head_is "}"%char r then Some ([(k, v)], tail_of r)
          else None
        else None
      else None
  end.

(** [JSON.parse]: one value and nothing but white space after it. *)
Definition parse (s : string) : option json :=
  '(v, r) ← parse_value (2 * String.length s + 2) s;
  if String.eqb (skip_ws r) EmptyString then Some v else None.

(** *** Vocabulary of the round trip *)

(** Nothing but JSON white space. *)
Fixpoint blank (s : string) : bool :=
  match s with
  | EmptyString => true
  | String c s' => is_json_ws c && blank s'
  end.

(** The fuel that reading [v] takes. *)
Fixpoint size (v : json) : nat :=
  match v with
  | JArr items => S (list_sum (map (fun x => S (size x)) items))
  | JObj fields =>
      S (list_sum (map (fun kv => let '(_, x) := kv in S (size x)) fields))
  | _ => 1
  end.

(** What may follow a value in a printed text. *)
Definition follows (rest : string) : bool :=
  match rest with
  | EmptyString => true
  | String c _ => Ascii.eqb c ","%char || Ascii.eqb c "010"%char
  end.

(** Printing [v] and reading the text back gives [v], after white space
    and before a separator. *)
Definition reads_back (v : json) : Prop :=
  ∀ fuel ind pre rest,
    size v ≤ fuel → blank pre = true → blank ind = true →
    Js.wf_json v = true → follows rest = true →
    parse_value fuel (pre +:+ print ind v +:+ rest) = Some (v, rest).

End Json.

(** The runtime on a POSIX system with working directory [cwd] and root
    directory [root]. *)
Definition posix_runtime (cwd root : string) : NodeRuntime := {|
  JSON_parse := Json.parse;
  JSON_stringify := Json.stringify;
  path_resolve := Posix.resolve cwd;
  path_relative := Posix.relative cwd;
  path_isAbsolute := Posix.isAbsolute;
  TLDRAW_DIR := root;
|}.

(** ** The document factory, the text extractor and the search *)

Module Text.

(** [s.toLowerCase()] on one code unit below 256: the letters [A]-[Z]
    and the capital letters of the Latin-1 range. *)
Definition toLowerUnit (c : ascii) : ascii :=
  let n := nat_of_ascii c in
  if ((65 <=? n) && (n <=? 90))
     || ((192 <=? n) && (n <=? 222) && negb (n =? 215))
  then ascii_of_nat (n + 32)
  else c.

Fixpoint toLowerCase (s : string) : string :=
  match s with
  | EmptyString => EmptyString
  | String c s' => String (toLowerUnit c) (toLowerCase s')
  end.

(** [s.includes(m)] *)
Definition includes (s m : string) : bool :=
  match Str.indexOf s m 0 with
  | Some _ => true
  | None => false
  end.

(** [s.replace(pat, rep)] with a string pattern: the first occurrence. *)
Definition replaceFirst (s pat rep : string) : string :=
  match Str.indexOf s pat 0 with
  | Some i =>
      Str.slice s 0 i +:+ rep +:+ Str.slice_from s (i + String.length pat)
  | None => s
  end.

(** [texts.join(sep)] *)
Definition join (sep : string) (texts : list string) : string :=
  match texts with
  | [] => EmptyString
  | t :: rest => fold_left (fun acc x => acc +:+ sep +:+ x) rest t
  end.

End Text.

(** [createEmptyTldrawFile]; [uuid] is the value of
    [crypto.randomUUID()]. *)
Definition createEmptyTldrawFile (name uuid : string) : json :=
  let pageId := "page:" +:+ Str.slice uuid 0 8 in
  JObj [("tldrawFileFormatVersion", JNum 1);
        ("schema",
         JObj [("schemaVersion", JNum 2);
               ("sequences",
                JObj [("com.tldraw.store", JNum 4);
                      ("com.tldraw.asset", JNum 1);
                      ("com.tldraw.camera", JNum 1);
                      ("com.tldraw.document", JNum 2);
                      ("com.tldraw.instance", JNum 25);
                      ("com.tldraw.instance_page_state", JNum 5);
                      ("com.tldraw.page", JNum 1);
                      ("com.tldraw.pointer", JNum 1);
                      ("com.tldraw.shape", JNum 4);
                      ("com.tldraw.shape.geo", JNum 10);
                      ("com.tldraw.shape.text", JNum 3);
                      ("com.tldraw.shape.note", JNum 9);
                      ("com.tldraw.shape.arrow", JNum 6)])]);
        ("records",
         JArr [JObj [("id", JStr "document:document");
                     ("typeName", JStr "document");
                     ("gridSize", JNum 10);
                     ("name", JStr name);
                     ("meta", JObj [])];
               JObj [("id", JStr pageId);
                     ("typeName", JStr "page");
                     ("name", JStr "Page 1");
                     ("index", JStr "a1");
                     ("meta", JObj [])];
               JObj [("id", JStr ("instance_page_state:" +:+ pageId));
                     ("typeName", JStr "instance_page_state");
                     ("pageId", JStr pageId);
                     ("selectedShapeIds", JArr []);
                     ("hintingShapeIds", JArr []);
                     ("erasingShapeIds", JArr []);
                     ("hoveredShapeId", JNull);
                     ("editingShapeId", JNull);
                     ("croppingShapeId", JNull);
                     ("focusedGroupId", JNull);
                     ("meta", JObj [])];
               JObj [("id", JStr ("camera:" +:+ pageId));
                     ("typeName", JStr "camera");
                     ("x", JNum 0);
                     ("y", JNum 0);
                     ("z", JNum 1);
                     ("meta", JObj [])]])].

(** The texts one inline node of [extractText] contributes. *)
Definition inlineTexts (inline : json) : list string :=
  if Js.truthy inline && Js.typeof_object (Some inline) then
    match Js.get inline "text" with
    | Some (JStr t) => [t]
    | _ => []
    end
  else [].

(** The texts one block of [extractText] contributes. *)
Definition blockTexts (block : json) : list string :=
  if Js.truthy block && Js.typeof_object (Some block) then
    match Js.get block "content" with
    | Some (JArr inlines) => flat_map inlineTexts inlines
    | _ => []
    end
  else [].

(** [extractText] *)
Definition extractText (richText : json) : string :=
  if negb (Js.truthy richText) || negb (Js.typeof_object (Some richText))
  then EmptyString
  else match Js.get richText "content" with
       | Some (JArr blocks) => Text.join " " (flat_map blockTexts blocks)
       | _ => EmptyString
       end.

Module Search.

(** [SearchMatch]; a field that may be [undefined] is an option. *)
Record SearchMatch := {
  file : string;
  pageId : option json;
  pageName : option json;
  shapeId : option json;
  shapeType : option json;
  matchedText : string;
  context : string;
}.

Inductive scope := TextOnly | All.

(** [a === b] on two values read from the document: strings, numbers
    and booleans by value, [null] with [null]; two objects or arrays of
    the document are never the same object. *)
Definition sameValue (a b : json) : bool :=
  match a, b with
  | JNull, JNull => true
  | JBool x, JBool y => Bool.eqb x y
  | JNum x, JNum y => Z.eqb x y
  | JStr x, JStr y => String.eqb x y
  | _, _ => false
  end.

(** The map [pageNames] after the first loop, over the records of a
    document that passed the validator (each one an object with an
    [id]): the pages in document order with their names. *)
Definition pageNames (records : list json) : list (json * json) :=
  flat_map (fun record =>
              if isPage record then
                match Js.get record "id" with
                | Some id => [(id, orDefault (Js.get record "name")
                                     (JStr "Untitled"))]
                | None => []
                end
              else []) records.

(** [pageNames.get(key)]: the last page set under the key. *)
Fixpoint lookupPage (names : list (json * json)) (key : json) : option json :=
  match names with
  | [] => None
  | (k, v) :: rest =>
      match lookupPage rest key with
      | Some v' => Some v'
      | None => if sameValue k key then Some v else None
      end
  end.

(** [matchedText] of one shape record, lines 468-490: the empty string
    when nothing matches.  [toLowerCase] is missing on a value that is
    not a string, and calling it throws. *)
Definition matchText (record : json) (searchLower : string) (searchIn : scope)
    : result string :=
  let richText :=
    match Js.get record "props" with
    | Some props => Js.get props "richText"
    | None => None
    end in
  let byText :=
    match richText with
    | Some rt =>
        if Js.truthy rt then
          let text := extractText rt in
          if Text.includes (Text.toLowerCase text) searchLower
          then text else EmptyString
        else EmptyString
    | None => EmptyString
    end in
  if String.eqb byText "" then
    match searchIn with
    | TextOnly => Ok byText
    | All =>
        byType ←
          match Js.get record "type" with
          | None | Some JNull => Ok EmptyString
          | Some (JStr t) =>
              Ok (if Text.includes (Text.toLowerCase t) searchLower
                  then "Shape type: " +:+ t else EmptyString)
          | Some _ => Err TypeError
          end;
        if String.eqb byType "" then
          match Js.get record "id" with
          | Some (JStr i) =>
              Ok (if Text.includes (Text.toLowerCase i) searchLower
                  then "Shape ID: " +:+ i else EmptyString)
          | _ => Err TypeError
          end
        else Ok byType
    end
  else Ok byText.

(** The object pushed for a shape whose [matchedText] is not empty,
    lines 493-502. *)
Definition makeMatch (path : string) (names : list (json * json))
    (record : json) (text : string) : result SearchMatch :=
  let parentId := Js.get record "parentId" in
  page ←
    match parentId with
    | None | Some JNull => Ok None
    | Some (JStr p) =>
        Ok (if Str.startsWith p "page:" then Some (JStr p) else None)
    | Some _ => Err TypeError
    end;
  Ok {| file := path;
        pageId := page;
        pageName :=
          match parentId with
          | Some p => if Js.truthy p then lookupPage names p else None
          | None => None
          end;
        shapeId := Js.get record "id";
        shapeType := Js.get record "type";
        matchedText := text;
        context := String.substring 0 100 text |}.

Definition isNull (v : json) : bool :=
  match v with JNull => true | _ => false end.

(** The second loop, lines 466-505: the matches pushed before the loop
    ends or throws.  Reading [typeName] off a record that is [null]
    throws. *)
Fixpoint searchRecords (path : string) (names : list (json * json))
    (searchLower : string) (searchIn : scope) (records : list json)
    : list SearchMatch :=
  match records with
  | [] => []
  | record :: rest =>
      if isNull record then []
      else if isShape record then
        match matchText record searchLower searchIn with
        | Err _ => []
        | Ok text =>
            if String.eqb text ""
            then searchRecords path names searchLower searchIn rest
            else
              match makeMatch path names record text with
              | Err _ => []
              | Ok m => m :: searchRecords path names searchLower searchIn rest
              end
        end
      else searchRecords path names searchLower searchIn rest
  end.

End Search.

Section MoreTools.
Context `{NodeRuntime}.

(** [tldrawCreateFile]; [name] is [None] when the caller gives none. *)
Definition tldrawCreateFile (uuid : string) (path : string)
    (name : option string) : IO string :=
  filepath ← liftR (securePath path);
  ex ← existsSync filepath;
  if negb ex then
    let docName :=
      match pageGiven name with
      | Some n => n
      | None => Text.replaceFirst path ".tldr" ""
      end in
    _ ← tldrawWrite path (createEmptyTldrawFile docName uuid);
    mret ("Created new tldraw file: " +:+ path)
  else throw AlreadyExists.

(** The body of the loop of [tldrawSearch] for one listed file, lines
    454-508: a file that cannot be read, or a loop that throws, ends the
    turn without an error. *)
Definition searchFile (path : string) (query : string)
    (searchIn : Search.scope) : IO (list Search.SearchMatch) :=
  try_catch
    (f ← tldrawRead path;
     records ← liftR (withRecords f (fun records => Ok records));
     mret (Search.searchRecords path (Search.pageNames records)
             (Text.toLowerCase query) searchIn records))
    (mret []).

End MoreTools.

(** ** The vocabulary of the statements *)

(** A path whose first segment is the parent directory. *)
Definition beginsWithParentSegment (p : string) : Prop :=
  p = ".." ∨ String.prefix "../" p = true.

(** What the validator asks of one record. *)
Definition recordOk (record : json) : bool :=
  Js.truthy_opt (Js.get record "id")
  && Js.truthy_opt (Js.get record "typeName").

(** What the validator asks of a value, as the contract words it. *)
Definition documentOk (data : json) : bool :=
  Js.truthy data
  && Js.typeof_object (Some data)
  && Js.typeof_number (Js.get data "tldrawFileFormatVersion")
  && Js.truthy_opt (Js.get data "schema")
  && Js.typeof_object (Js.get data "schema")
  && match Js.get data "records" with
     | Some (JArr records) => forallb recordOk records
     | _ => false
     end.

(** The directory [tldrawWrite] makes sure of before it writes. *)
Definition dirOf (filepath : string) : string :=
  String.substring 0 (default 0 (Str.lastIndexOf filepath "/"%char)) filepath.

(** [mkdir] can make the directory: the path is not empty, and no file
    is at it or above it. *)
Definition mkdirOk (σ : gmap string node) (dir : string) : bool :=
  negb (String.eqb dir "")
  && forallb (fun q => negb (isFile (σ !! q))) (pathChain dir).

(** The directory is there, or is missing and can be made. *)
Definition dirReady (σ : gmap string node) (dir : string) : bool :=
  match σ !! dir with
  | Some Dir => true
  | Some _ => false
  | None => mkdirOk σ dir
  end.

(** The file system after an [ensureDir] that does not throw. *)
Definition afterEnsureDir (dir : string) (σ : gmap string node)
    : gmap string node :=
  if bool_decide (is_Some (σ !! dir)) then σ else makeDirs (pathChain dir) σ.

(** The text [readFile] returns for what is at a path. *)
Definition textOf (n : node) : option string :=
  match n with
  | File content => Some content
  | Garbled before after => Some (before +:+ Utf8.replacement +:+ after)
  | Dir => None
  end.

Section Vocabulary.
Context `{NodeRuntime}.
Implicit Types (σ : gmap string node) (filepath : string).

(** The container a [.tldr] file on disk carries, if it is there, can
    be read, parses, and is an object with an object under [raw]. *)
Definition containerOnDisk σ filepath : option json :=
  match σ !! filepath ≫= textOf with
  | Some c =>
      match JSON_parse c with
      | Some v => if isWrappedContainer v then Some v else None
      | None => None
      end
  | None => None
  end.

(** [JSON.parse] reads back what [JSON.stringify] printed. *)
Definition jsonFaithful : Prop :=
  ∀ v, Js.wf_json v = true → JSON_parse (JSON_stringify v) = Some v.

(** [parsedInput] of [tldrawWrite]: a string content parsed, any other
    content as it is. *)
Definition parsedInputOf (content : json) : result json :=
  match content with
  | JStr s => parseJsonContent s
  | _ => Ok content
  end.

(** What the embedded block of a text holds: its place and the
    container of the payload in it. *)
Definition existingBlock (markdown : string)
    : result (MarkdownTldrawBlock * option json) :=
  block ← locateMarkdownTldrawBlock markdown;
  existingData ← parseJsonContent (jsonText block);
  fw ← normalizeTldrawPayload existingData;
  Ok (block, fw.2).

End Vocabulary.

(** ** Sample values

    The program is run below on the POSIX runtime with root
    [/home/u/.tldraw]. *)

Definition rt0 : NodeRuntime := posix_runtime "/" "/home/u/.tldraw".

Definition page1 : json :=
  JObj [("id", JStr "page:p1"); ("typeName", JStr "page")].

Definition shape1 : json :=
  JObj [("id", JStr "shape:s1"); ("typeName", JStr "shape");
        ("props", JObj [("color", JStr "black"); ("fill", JStr "none")])].

Definition shape1_red : json :=
  JObj [("id", JStr "shape:s1"); ("typeName", JStr "shape");
        ("props", JObj [("color", JStr "red"); ("fill", JStr "none")])].

Definition document_of (records : list json) : json :=
  JObj [("tldrawFileFormatVersion", JNum 1);
        ("schema", JObj [("schemaVersion", JNum 2)]);
        ("records", JArr records)].

Definition doc1 : json := document_of [page1; shape1].

Definition empty_v2 : json :=
  JObj [("tldrawFileFormatVersion", JNum 2);
        ("schema", JObj []);
        ("records", JArr [])].

(** A value the validator accepts that has a [raw] field of its own. *)
Definition doc_with_raw : json :=
  JObj [("tldrawFileFormatVersion", JNum 1);
        ("schema", JObj []);
        ("records", JArr []);
        ("raw", empty_v2)].

Definition wrapped_fields : list (string * json) :=
  [("raw", empty_v2); ("meta", JStr "keep")].

Definition color_red : json := JObj [("props", JObj [("color", JStr "red")])].



Definition rename_fields : list (string * json) :=
  [("name", JStr "Renamed"); ("props", JObj [("color", JStr "red")])].

Definition note_text (mid : string) : string :=
  "# t" +:+ MARKDOWN_TLDRAW_START_MARKER +:+ mid
  +:+ MARKDOWN_TLDRAW_END_MARKER +:+ "tail".

(** The root directory with nothing in it. *)
Definition home : gmap string node :=
  {[ "/home" := Dir; "/home/u" := Dir; "/home/u/.tldraw" := Dir ]}.

Definition wrapped_store : gmap string node :=
  <[ "/home/u/.tldraw/a.tldr" :=
       File (Json.stringify (JObj wrapped_fields)) ]> home.

Definition note_store (text : string) : gmap string node :=
  <[ "/home/u/.tldraw/n.md" := File text ]> home.

(** A text file with one byte that is not UTF-8 before its block. *)
Definition garbled_store : gmap string node :=
  <[ "/home/u/.tldraw/n.md" :=
       Garbled "# t"
         (MARKDOWN_TLDRAW_START_MARKER +:+ Json.stringify empty_v2
          +:+ MARKDOWN_TLDRAW_END_MARKER +:+ "tail") ]> home.

(** A [.tldr] file whose bytes are not UTF-8 text. *)
Definition unreadable_store : gmap string node :=
  <[ "/home/u/.tldraw/a.tldr" := Garbled "{" "}" ]> home.

(** A wrapped file directly under the root of the file system. *)
Definition root_wrapped_store : gmap string node :=
  {[ "/a.tldr" := File (Json.stringify (JObj wrapped_fields)) ]}.

(** A directory where a file is to be written. *)
Definition dir_store : gmap string node :=
  <[ "/home/u/.tldraw/a.tldr" := Dir ]> home.

(** A store where a file is in the way of the directory [sub]. *)
Definition blocked_store : gmap string node :=
  <[ "/home/u/.tldraw/sub" := File "in the way" ]> home.

(** The rich text of paragraphs of plain text nodes. *)
Definition textNode (t : string) : json :=
  JObj [("type", JStr "text"); ("text", JStr t)].

Definition paragraph (texts : list string) : json :=
  JObj [("type", JStr "paragraph"); ("content", JArr (map textNode texts))].

Definition richTextOf (blocks : list (list string)) : json :=
  JObj [("type", JStr "doc"); ("content", JArr (map paragraph blocks))].

(** A shape record whose fields the search can read: [type] a string or
    missing, [id] a string, [parentId] a string or missing. *)
Definition searchable (record : json) : bool :=
  match Js.get record "type" with
  | None | Some JNull | Some (JStr _) => true
  | _ => false
  end
  && match Js.get record "id" with Some (JStr _) => true | _ => false end
  && match Js.get record "parentId" with
     | None | Some JNull | Some (JStr _) => true
     | _ => false
     end.

Definition hello_shape : json :=
  JObj [("id", JStr "shape:h1"); ("typeName", JStr "shape");
        ("type", JStr "text"); ("parentId", JStr "page:p1");
        ("props", JObj [("richText", richTextOf [["Hello"; "World"]])])].

Definition plain_store : gmap string node :=
  <[ "/home/u/.tldraw/a.tldr" := File (Json.stringify doc1) ]> home.

(** A stored document without a page. *)
Definition pageless_store : gmap string node :=
  <[ "/home/u/.tldraw/a.tldr" := File (Json.stringify empty_v2) ]> home.

(** A document that quotes the end delimiter in the name of its page,
    and what its serialisation has before and after the quote. *)
Definition quoting_doc : json :=
  document_of [JObj [("id", JStr "page:p1"); ("typeName", JStr "page");
                     ("name", JStr MARKDOWN_TLDRAW_END_MARKER)]].

Definition quoting_at : nat :=
  default 0 (String.index 0 MARKDOWN_TLDRAW_END_MARKER
               (Json.stringify quoting_doc)).

Definition quoting_before : string :=
  String.substring 0 quoting_at (Json.stringify quoting_doc).

Definition quoting_after : string :=
  Str.slice_from (Json.stringify quoting_doc)
    (quoting_at + String.length MARKDOWN_TLDRAW_END_MARKER).

(** * Properties *)

(** ** Strings and searches *)

Section StringFacts.
Implicit Types (s m a b : string) (i j n k : nat).

Lemma append_cons c a b : String c a +:+ b = String c (a +:+ b).
Proof. reflexivity. Qed.

Lemma append_nil_l s : "" +:+ s = s.
Proof. reflexivity. Qed.

Lemma append_nil_r s : s +:+ "" = s.
Proof.
  induction s as [|c s IH]; [done | by rewrite append_cons, IH].
Qed.

Lemma append_assoc a b s : (a +:+ b) +:+ s = a +:+ (b +:+ s).
Proof.
  induction a as [|c a IH]; [done | by rewrite !append_cons, IH].
Qed.

Lemma length_append a b :
  String.length (a +:+ b) = String.length a + String.length b.
Proof.
  induction a as [|c a IH]; [done | rewrite append_cons; simpl; by rewrite IH].
Qed.

Lemma substring_all s : String.substring 0 (String.length s) s = s.
Proof. induction s as [|c s IH]; simpl; [done | by rewrite IH]. Qed.

Lemma substring_nil i n : String.substring i n "" = "".
Proof. by destruct i, n. Qed.

Lemma substring_app_l a b :
  String.substring 0 (String.length a) (a +:+ b) = a.
Proof.
  induction a as [|c a IH].
  - rewrite append_nil_l. by destruct b.
  - rewrite append_cons. simpl. by rewrite IH.
Qed.

Lemma substring_app_r a b i n :
  String.substring (String.length a + i) n (a +:+ b) = String.substring i n b.
Proof.
  induction a as [|c a IH]; [done | rewrite append_cons; simpl; by rewrite IH].
Qed.

Lemma substring_app_mid a b s :
  String.substring (String.length a) (String.length b) (a +:+ b +:+ s) = b.
Proof.
  rewrite <- (Nat.add_0_r (String.length a)), substring_app_r.
  apply substring_app_l.
Qed.

Lemma substring_length_le i n s :
  String.length (String.substring i n s) ≤ n.
Proof.
  revert i n. induction s as [|c s IH]; intros [|i] [|n]; simpl; try lia.
  - specialize (IH 0 n). lia.
  - apply (IH i 0).
  - apply (IH i (S n)).
Qed.

Lemma length_substring s i n :
  String.length (String.substring i n s) = Nat.min n (String.length s - i).
Proof.
  revert i n. induction s as [|c s IH]; intros [|i] [|n]; simpl;
    rewrite ?IH, ?Nat.sub_0_r; done.
Qed.

Lemma index_ge n m s i : String.index n m s = Some i → n ≤ i.
Proof.
  revert n i. induction s as [|c s IH]; intros n i; simpl.
  - destruct n; [lia | done].
  - destruct n as [|n]; [lia |].
    destruct (String.index n m s) as [j|] eqn:E; [|done].
    intros [= <-]. apply IH in E. lia.
Qed.

Lemma index_Some n m s i :
  String.index n m s = Some i →
  n ≤ i ∧ Str.occurs m s i ∧ ∀ p, n ≤ p → p < i → ¬ Str.occurs m s p.
Proof.
  intros E. split; [by eapply index_ge |]. split.
  - by eapply String.index_correct1.
  - intros p ??. by eapply String.index_correct2.
Qed.

Lemma index_None n m s :
  m ≠ "" → String.index n m s = None → ∀ p, n ≤ p → ¬ Str.occurs m s p.
Proof. intros ? E p ?. by eapply String.index_correct3. Qed.

(** An occurrence at or after [n] makes the search from [n] succeed, at
    the first such occurrence. *)
Lemma index_finds n m s i :
  m ≠ "" → n ≤ i → Str.occurs m s i →
  ∃ j, String.index n m s = Some j ∧ n ≤ j ∧ j ≤ i.
Proof.
  intros Hm Hn Ho. destruct (String.index n m s) as [j|] eqn:E.
  - exists j. split; [done |]. apply index_Some in E as (? & _ & Hmin).
    split; [done |]. destruct (decide (j ≤ i)); [done |].
    exfalso. apply (Hmin i); [done | lia | done].
  - exfalso. by eapply index_None.
Qed.

Lemma occurrences_go_spec m s k i :
  m ≠ "" →
  i ∈ Str.occurrences_go m s k ↔ ∃ j, i = k + j ∧ Str.occurs m s j.
Proof.
  intros Hm. revert k. induction s as [|c s IH]; intros k.
  - simpl. destruct m as [|d m]; [done |]. simpl. split.
    + intros Hin. by apply elem_of_nil in Hin.
    + intros (j & _ & Ho). unfold Str.occurs in Ho.
      by rewrite substring_nil in Ho.
  - cbn [Str.occurrences_go]. rewrite elem_of_app, IH. split.
    + intros [Hin | (j & -> & Ho)].
      * destruct (String.prefix m (String c s)) eqn:Ep;
          [| by apply elem_of_nil in Hin].
        apply list_elem_of_singleton in Hin as ->. exists 0.
        split; [lia |]. by apply String.prefix_correct.
      * exists (S j). split; [lia | done].
    + intros ([|j] & -> & Ho).
      * left. apply String.prefix_correct in Ho. rewrite Ho.
        apply list_elem_of_singleton. lia.
      * right. exists j. split; [lia | done].
Qed.

Lemma occurrences_spec m s i :
  m ≠ "" → i ∈ Str.occurrences m s ↔ Str.occurs m s i.
Proof.
  intros Hm. unfold Str.occurrences. rewrite occurrences_go_spec by done.
  split; [by intros (j & -> & ?) | intros ?; by exists i].
Qed.

End StringFacts.

(** ** The embedded block *)

Section Locate.
Local Abbreviation START := MARKDOWN_TLDRAW_START_MARKER.
Local Abbreviation END_ := MARKDOWN_TLDRAW_END_MARKER.

Lemma START_nonempty : START ≠ "".
Proof. done. Qed.

Lemma END_nonempty : END_ ≠ "".
Proof. done. Qed.

(** The search from [n] lands on [i] when [i] is the first occurrence
    at or after [n]. *)
Lemma index_first n m s i :
  m ≠ "" → n ≤ i → Str.occurs m s i →
  (∀ p, n ≤ p → p < i → ¬ Str.occurs m s p) →
  String.index n m s = Some i.
Proof.
  intros Hm Hn Ho Hmin.
  destruct (index_finds n m s i Hm Hn Ho) as (j & E & Hj & Hji).
  rewrite E. f_equal. apply index_Some in E as (_ & Hoj & _).
  destruct (decide (j = i)) as [|Hne]; [done |].
  exfalso. apply (Hmin j); [done | lia | done].
Qed.

Lemma index_absent n m s :
  m ≠ "" → (∀ p, n ≤ p → ¬ Str.occurs m s p) → String.index n m s = None.
Proof.
  intros Hm Hno. destruct (String.index n m s) as [j|] eqn:E; [|done].
  apply index_Some in E as (? & ? & _). exfalso. by eapply Hno.
Qed.

Lemma index_present n m s j :
  m ≠ "" → n ≤ j → Str.occurs m s j → is_Some (String.index n m s).
Proof.
  intros Hm Hn Ho. destruct (index_finds n m s j Hm Hn Ho) as (k & -> & _).
  by eexists.
Qed.

End Locate.

(** C5 (as amended): the decoder of the embedded layout looks for the
    first start delimiter, then for an end delimiter after it.  It fails
    with [MissingBlock] when no start delimiter occurs, or when no end
    delimiter occurs after the first start delimiter; with
    [DuplicateBlock] when a start delimiter occurs again past the first
    one, or an end delimiter occurs again past the first end delimiter
    that follows the start; with [EmptyBlock] when the text between the
    two is empty after trimming; otherwise the block is that trimmed text
    with the offsets of the untrimmed one.  End delimiters before the
    start delimiter are not looked at. *)
Theorem locateMarkdownTldrawBlock_cases (markdown : string) :
  let S := MARKDOWN_TLDRAW_START_MARKER in
  let E := MARKDOWN_TLDRAW_END_MARKER in
  ((∀ i, ¬ Str.occurs S markdown i) →
     locateMarkdownTldrawBlock markdown = Err (MissingBlock StartMarker))
  ∧ (∀ i, Str.occurs S markdown i → (∀ p, p < i → ¬ Str.occurs S markdown p) →
     let a := i + String.length S in
     ((∃ j, a ≤ j ∧ Str.occurs S markdown j) →
        locateMarkdownTldrawBlock markdown = Err (DuplicateBlock StartMarker))
     ∧ ((∀ j, a ≤ j → ¬ Str.occurs S markdown j) →
        ((∀ j, a ≤ j → ¬ Str.occurs E markdown j) →
           locateMarkdownTldrawBlock markdown = Err (MissingBlock EndMarker))
        ∧ (∀ e, a ≤ e → Str.occurs E markdown e →
           (∀ p, a ≤ p → p < e → ¬ Str.occurs E markdown p) →
           ((∃ j, e + String.length E ≤ j ∧ Str.occurs E markdown j) →
              locateMarkdownTldrawBlock markdown = Err (DuplicateBlock EndMarker))
           ∧ ((∀ j, e + String.length E ≤ j → ¬ Str.occurs E markdown j) →
              let text := Str.trim (Str.slice markdown a e) in
              (text = "" → locateMarkdownTldrawBlock markdown = Err EmptyBlock)
              ∧ (text ≠ "" →
                 locateMarkdownTldrawBlock markdown =
                   Ok {| jsonStart := a; jsonEnd := e; jsonText := text |}))))).
Proof.
  intros S E. unfold locateMarkdownTldrawBlock, Str.indexOf. fold S E.
  pose proof START_nonempty as HS. pose proof END_nonempty as HE.
  fold S in HS. fold E in HE. clearbody S E.
  split.
  - intros Hno. rewrite index_absent; [done | done |]. intros p _. apply Hno.
  - intros i Hi Hfirst. set (a := i + String.length S).
    assert (String.index 0 S markdown = Some i) as ->.
    { apply index_first; [done | lia | done |]. intros p _. apply Hfirst. }
    fold a. split.
    + intros (j & Hj & Ho).
      by destruct (index_present a S markdown j HS Hj Ho) as [k ->].
    + intros Hnodup. rewrite (index_absent a S) by done. split.
      * intros Hnoend. by rewrite (index_absent a E).
      * intros e He Hoe Hefirst. rewrite (index_first a E markdown e) by done.
        split.
        -- intros (j & Hj & Ho).
           by destruct (index_present _ E markdown j HE Hj Ho) as [k ->].
        -- intros Hnodup'. rewrite (index_absent _ E) by done.
           split.
           ++ intros ->. done.
           ++ intros Hne. by apply String.eqb_neq in Hne as ->.
Qed.

(** A file where the end delimiter occurs twice, once before the start
    delimiter, decodes; a file with two start delimiters and no end
    delimiter is reported as a duplicate, not as a missing block. *)
Lemma locateMarkdownTldrawBlock_end_before_start :
  let S := MARKDOWN_TLDRAW_START_MARKER in
  let E := MARKDOWN_TLDRAW_END_MARKER in
  Str.occurrences E (E +:+ S +:+ "{}" +:+ E) = [0; 110]
  ∧ locateMarkdownTldrawBlock (E +:+ S +:+ "{}" +:+ E)
    = Ok {| jsonStart := 108; jsonEnd := 110; jsonText := "{}" |}
  ∧ Str.occurrences E (S +:+ S) = []
  ∧ locateMarkdownTldrawBlock (S +:+ S) = Err (DuplicateBlock StartMarker).
Proof. vm_compute. done. Qed.

(** ** The path sandbox *)

Lemma prefix_app_l a b s :
  String.prefix (a +:+ b) s = true → String.prefix a s = true.
Proof.
  revert s. induction a as [|c a IH]; intros s; [by destruct s |].
  rewrite append_cons. destruct s as [|d s]; simpl; [intros; discriminate |].
  destruct (ascii_dec c d); [apply IH | intros; discriminate].
Qed.

Lemma beginsWithParentSegment_startsWith p :
  beginsWithParentSegment p → Str.startsWith p ".." = true.
Proof.
  unfold Str.startsWith. intros [-> | Hp]; [reflexivity |].
  by apply (prefix_app_l ".." "/").
Qed.

Section Sandbox.
Context `{NodeRuntime}.

Lemma securePath_relative inputPath :
  path_isAbsolute inputPath = false →
  securePath inputPath =
    let target := path_resolve [path_resolve [TLDRAW_DIR]; inputPath] in
    let rel := path_relative (path_resolve [TLDRAW_DIR]) target in
    if Str.startsWith rel ".." || path_isAbsolute rel
    then Err PathTraversal else Ok target.
Proof. intros Habs. unfold securePath. by rewrite Habs. Qed.

(** C8: a relative path whose resolution, taken relative to the root,
    begins with a parent-directory segment or is absolute is refused
    with [PathTraversal]; an absolute path is resolved and accepted
    without any check against the root. *)
Theorem securePath_sandbox (inputPath : string) :
  (path_isAbsolute inputPath = false →
   let baseDir := path_resolve [TLDRAW_DIR] in
   let relativePath :=
     path_relative baseDir (path_resolve [baseDir; inputPath]) in
   beginsWithParentSegment relativePath
   ∨ path_isAbsolute relativePath = true →
   securePath inputPath = Err PathTraversal)
  ∧ (path_isAbsolute inputPath = true →
     securePath inputPath = Ok (path_resolve [inputPath])).
Proof.
  split.
  - intros Habs baseDir relativePath Hbad.
    rewrite securePath_relative by done. cbv zeta.
    fold baseDir. fold relativePath.
    destruct Hbad as [Hseg | Hrel].
    + by rewrite (beginsWithParentSegment_startsWith _ Hseg).
    + rewrite Hrel. by rewrite orb_true_r.
  - intros Habs. unfold securePath. by rewrite Habs.
Qed.

End Sandbox.

(** ** The document validator *)

Lemma recordOk_not_null record : recordOk record = true → record ≠ JNull.
Proof. by intros ? ->. Qed.

Lemma validateRecords_ok records :
  validateRecords records = Ok tt ↔ forallb recordOk records = true.
Proof.
  induction records as [|r rs IH]; [done |]. simpl. unfold recordOk at 1.
  destruct r; simpl; try done;
    destruct (Js.truthy_opt _); simpl; try done;
    destruct (Js.truthy_opt _); simpl; done.
Qed.

(** Without a [null] record the loop either passes or reports the
    record. *)
Lemma validateRecords_no_null records :
  JNull ∉ records →
  validateRecords records = Ok tt
  ∨ validateRecords records = Err (InvalidDocument RecordMissingIdOrTypeName).
Proof.
  induction records as [|r rs IH]; [by left |]. intros Hnull.
  apply not_elem_of_cons in Hnull as [Hr Hrs]. simpl.
  destruct r; try done;
    destruct (negb _ || negb _); auto.
Qed.

(** The validator accepts exactly the values of the contract and returns
    them unchanged. *)
Lemma validateTldrawFile_ok data f :
  validateTldrawFile data = Ok f ↔ documentOk data = true ∧ f = data.
Proof.
  assert (∀ r, @Err json (InvalidDocument r) = Ok f ↔ false = true ∧ f = data)
    as Hbad by (intros; split; [intros ? | intros [? _]]; discriminate).
  unfold validateTldrawFile, documentOk.
  generalize (Js.truthy data) (Js.typeof_object (Some data))
    (Js.typeof_number (Js.get data "tldrawFileFormatVersion"))
    (Js.truthy_opt (Js.get data "schema"))
    (Js.typeof_object (Js.get data "schema")).
  intros [] [] [] [] []; simpl; try apply Hbad.
  destruct (Js.get data "records") as [[]|]; simpl; try apply Hbad.
  pose proof (validateRecords_ok items) as Hrec.
  destruct (validateRecords items) as [[]|e]; simpl.
  - split; [intros [= <-]; split; [by apply Hrec | done] | by intros [_ ->]].
  - split; [intros ?; discriminate |]. intros [Hall _].
    apply Hrec in Hall. discriminate.
Qed.

(** Every failure of the validator on a document without a [null] record
    is an [InvalidDocument]. *)
Lemma validateTldrawFile_no_null data :
  (∀ records, Js.get data "records" = Some (JArr records) → JNull ∉ records) →
  validateTldrawFile data = Ok data
  ∨ ∃ r, validateTldrawFile data = Err (InvalidDocument r).
Proof.
  intros Hnull. unfold validateTldrawFile.
  generalize (Js.truthy data) (Js.typeof_object (Some data))
    (Js.typeof_number (Js.get data "tldrawFileFormatVersion"))
    (Js.truthy_opt (Js.get data "schema"))
    (Js.typeof_object (Js.get data "schema")).
  intros [] [] [] [] []; simpl; try (right; by eexists).
  destruct (Js.get data "records") as [[]|]; try (right; by eexists).
  destruct (validateRecords_no_null items) as [-> | ->]; [by apply Hnull | ..].
  - by left.
  - right. by eexists.
Qed.

(** C9: on a document whose record list holds [null] the validator does
    not fail with [InvalidDocument]: reading [record.id] throws the
    runtime's own [TypeError]. *)
Theorem validateTldrawFile_null_record :
  validateTldrawFile
    (JObj [("tldrawFileFormatVersion", JNum 1);
           ("schema", JObj []);
           ("records", JArr [JNull])])
  = Err TypeError.
Proof. reflexivity. Qed.

(** ** Objects *)

Section ObjectFacts.
Implicit Types (k : string) (v : json) (fs es acc : list (string * json)).

Lemma assoc_set_eq k v fs : Js.assoc k (Js.assoc_set k v fs) = Some v.
Proof.
  induction fs as [|[k' v'] fs IH]; simpl.
  - by rewrite String.eqb_refl.
  - destruct (String.eqb_spec k k') as [->|Hne]; simpl.
    + by rewrite String.eqb_refl.
    + by apply String.eqb_neq in Hne as ->.
Qed.

Lemma assoc_set_ne k k' v fs :
  k ≠ k' → Js.assoc k' (Js.assoc_set k v fs) = Js.assoc k' fs.
Proof.
  intros Hne. induction fs as [|[k2 v2] fs IH]; simpl.
  - destruct (String.eqb_spec k' k); [congruence | done].
  - destruct (String.eqb_spec k k2) as [->|Hne2]; simpl.
    + destruct (String.eqb_spec k' k2); [congruence | done].
    + by rewrite IH.
Qed.

Lemma assoc_None_notin k fs : Js.assoc k fs = None ↔ k ∉ fs.*1.
Proof.
  induction fs as [|[k' v'] fs IH]; simpl.
  - split; [intros _; apply not_elem_of_nil | done].
  - rewrite not_elem_of_cons.
    destruct (String.eqb_spec k k') as [->|Hne]; [| by rewrite IH; intuition].
    split; [done | by intros [? _]].
Qed.

(** Assigning the properties [es] in turn: a key of [es] gets its last
    value, any other key keeps the one it had. *)
Lemma assoc_fold_set k es acc :
  Js.assoc k (fold_left (fun a kv => Js.assoc_set kv.1 kv.2 a) es acc) =
    match Js.assoc k (rev es) with
    | Some v => Some v
    | None => Js.assoc k acc
    end.
Proof.
  revert acc. induction es as [|[k' v'] es IH] using rev_ind; intros acc.
  - done.
  - rewrite fold_left_app, rev_app_distr. simpl.
    destruct (String.eqb_spec k k') as [->|Hne].
    + apply assoc_set_eq.
    + by rewrite assoc_set_ne, IH.
Qed.

Lemma assoc_app k es fs :
  Js.assoc k (es ++ fs) =
    match Js.assoc k es with Some v => Some v | None => Js.assoc k fs end.
Proof.
  induction es as [|[k' v'] es IH]; simpl; [done |].
  by destruct (String.eqb k k').
Qed.

(** With each key once, the order of the properties does not matter
    to a lookup. *)
Lemma assoc_rev k es : Js.wf_fields es → Js.assoc k (rev es) = Js.assoc k es.
Proof.
  unfold Js.wf_fields. induction es as [|[k' v'] es IH]; [done |].
  rewrite fmap_cons, NoDup_cons. intros [Hnotin Hnd]. simpl in *.
  rewrite assoc_app, IH by done. simpl.
  destruct (String.eqb_spec k k') as [->|Hne].
  - by apply assoc_None_notin in Hnotin as ->.
  - by destruct (Js.assoc k es).
Qed.

Lemma assoc_spread k acc v :
  Js.wf_fields (Js.entries v) →
  Js.assoc k (Js.spread_into acc v) =
    match Js.assoc k (Js.entries v) with
    | Some x => Some x
    | None => Js.assoc k acc
    end.
Proof.
  intros Hwf. unfold Js.spread_into. by rewrite assoc_fold_set, assoc_rev.
Qed.

Lemma get_set_eq fs k v : Js.get (Js.set (JObj fs) k v) k = Some v.
Proof. apply assoc_set_eq. Qed.

Lemma get_set_ne fs k k' v :
  k ≠ k' → Js.get (Js.set (JObj fs) k v) k' = Js.get (JObj fs) k'.
Proof. apply assoc_set_ne. Qed.

Lemma truthy_get_obj v k : Js.truthy_opt (Js.get v k) = true → ∃ fs, v = JObj fs.
Proof. destruct v; try done. by eexists. Qed.

End ObjectFacts.

(** ** Searching the records *)

Section RecordFacts.
Implicit Types (p : json → bool) (records : list json).

Lemma findIndex_Some p records i :
  findIndex p records = Some i →
  ∃ r, records !! i = Some r ∧ p r = true
       ∧ ∀ j r', j < i → records !! j = Some r' → p r' = false.
Proof.
  revert i. induction records as [|r rs IH]; intros i; simpl; [done |].
  destruct (p r) eqn:Hp.
  - intros [= <-]. exists r. split; [done |]. split; [done |]. lia.
  - destruct (findIndex p rs) as [j|]; [|done]. intros [= <-].
    destruct (IH j eq_refl) as (r0 & Hl & Hp0 & Hmin).
    exists r0. split; [done |]. split; [done |].
    intros [|j'] r' Hlt Hr'; simpl in Hr'.
    + by injection Hr' as <-.
    + apply (Hmin j'); [lia | done].
Qed.

Lemma findIndex_None p records :
  findIndex p records = None ↔ ∀ r, r ∈ records → p r = false.
Proof.
  induction records as [|r rs IH]; simpl.
  - split; [| done]. intros _ r Hin. by apply elem_of_nil in Hin.
  - destruct (p r) eqn:Hp.
    + split; [done |]. intros Hall.
      rewrite Hall in Hp; [done | by left].
    + destruct (findIndex p rs); simpl.
      * split; [done |]. intros Hall.
        assert (Some n = None) by (apply IH; intros; apply Hall; by right).
        done.
      * split; [| done]. intros _ r' Hin.
        apply elem_of_cons in Hin as [-> | Hin]; [done |].
        by apply IH.
Qed.

Lemma findIndex_first p records i r :
  records !! i = Some r → p r = true →
  (∀ j r', j < i → records !! j = Some r' → p r' = false) →
  findIndex p records = Some i.
Proof.
  intros Hl Hp Hmin. destruct (findIndex p records) as [j|] eqn:E.
  - apply findIndex_Some in E as (r0 & Hl0 & Hp0 & Hmin0). f_equal.
    destruct (Nat.lt_trichotomy j i) as [Hlt | [-> | Hgt]]; [| done |].
    + rewrite (Hmin j r0) in Hp0; done.
    + rewrite (Hmin0 i r) in Hp; done.
  - rewrite findIndex_None in E. rewrite E in Hp; [done |].
    by eapply list_elem_of_lookup_2.
Qed.

Lemma filter_length_eq p records :
  length (filter (fun r => p r) records) = length records ↔
  ∀ r, r ∈ records → p r = true.
Proof.
  induction records as [|r rs IH]; simpl.
  - split; [| done]. intros _ r Hin. by apply elem_of_nil in Hin.
  - rewrite filter_cons. pose proof (length_filter (fun r => p r) rs).
    destruct (decide (p r)) as [Hp | Hp]; simpl.
    + split.
      * intros Hlen r' Hin. apply elem_of_cons in Hin as [-> | Hin].
        -- by apply Is_true_true.
        -- apply IH; [lia | done].
      * intros Hall. f_equal. apply IH. intros; apply Hall. by right.
    + split; [lia |]. intros Hall. exfalso. apply Hp.
      apply Is_true_true, Hall. by left.
Qed.

End RecordFacts.

(** ** Updating a record *)

Section UpdateFacts.
Implicit Types (k : string) (v s : json) (es : list (string * json)).

Lemma get_set_other s k k' v :
  k ≠ k' → Js.get (Js.set s k v) k' = Js.get s k'.
Proof. intros Hne. destruct s; try done. by apply assoc_set_ne. Qed.

Lemma updateStep_obj fs pr kv :
  ∃ fs' pr', updateStep (JObj fs, pr) kv = (JObj fs', pr').
Proof.
  unfold updateStep. destruct (_ && _ && _).
  { destruct (readProps (JObj fs) pr); by eexists _, _. }
  destruct (String.eqb kv.1 "__proto__" && reachesSetter (JObj fs) pr);
    [| by eexists _, _].
  destruct kv.2; by eexists _, _.
Qed.

Lemma updateStep_other s pr kv k :
  kv.1 ≠ k → Js.get (updateStep (s, pr) kv).1 k = Js.get s k.
Proof.
  intros Hne. unfold updateStep.
  destruct (_ && _ && _) eqn:Hprops.
  { destruct (readProps s pr); [| done]. cbn [fst].
    apply get_set_other.
    apply andb_prop in Hprops as [[Hk%String.eqb_eq _]%andb_prop _].
    congruence. }
  destruct (String.eqb kv.1 "__proto__" && reachesSetter s pr).
  { by destruct kv.2. }
  by apply get_set_other.
Qed.

(** Only a turn under [__proto__] changes what the record inherits
    from. *)
Lemma updateStep_prototype s pr kv :
  kv.1 ≠ "__proto__" → (updateStep (s, pr) kv).2 = pr.
Proof.
  intros Hne. unfold updateStep.
  destruct (_ && _ && _); [by destruct (readProps s pr) |].
  apply String.eqb_neq in Hne as ->. done.
Qed.

Lemma fold_updateStep_obj es fs pr :
  ∃ fs' pr', fold_left updateStep es (JObj fs, pr) = (JObj fs', pr').
Proof.
  revert fs pr.
  induction es as [|kv es IH]; intros fs pr; cbn [fold_left];
    [by eexists _, _ |].
  destruct (updateStep_obj fs pr kv) as (fs' & pr' & ->). by apply IH.
Qed.

Lemma fold_updateStep_other es s pr k :
  k ∉ es.*1 → Js.get (fold_left updateStep es (s, pr)).1 k = Js.get s k.
Proof.
  revert s pr.
  induction es as [|kv es IH]; intros s pr; cbn [fold_left]; [done |].
  rewrite fmap_cons, not_elem_of_cons. intros [Hne Hnotin].
  destruct (updateStep (s, pr) kv) as [s1 pr1] eqn:Hstep.
  rewrite IH by done.
  change s1 with (s1, pr1).1. rewrite <- Hstep. by apply updateStep_other.
Qed.

Lemma fold_updateStep_prototype es s pr :
  "__proto__" ∉ es.*1 → (fold_left updateStep es (s, pr)).2 = pr.
Proof.
  revert s pr.
  induction es as [|kv es IH]; intros s pr; cbn [fold_left]; [done |].
  rewrite fmap_cons, not_elem_of_cons. intros [Hne Hnotin].
  destruct (updateStep (s, pr) kv) as [s1 pr1] eqn:Hstep.
  rewrite IH by done.
  change pr1 with (s1, pr1).2. rewrite <- Hstep. by apply updateStep_prototype.
Qed.

Lemma assoc_split k v es :
  Js.wf_fields es → Js.assoc k es = Some v →
  ∃ es1 es2, es = es1 ++ (k, v) :: es2 ∧ (k ∉ es1.*1) ∧ (k ∉ es2.*1).
Proof.
  unfold Js.wf_fields. induction es as [|[k' v'] es IH]; simpl; [done |].
  rewrite NoDup_cons. intros [Hnotin Hnd].
  destruct (String.eqb_spec k k') as [->|Hne].
  - intros [= ->]. exists [], es. split; [done |].
    split; [apply not_elem_of_nil | done].
  - intros Hk. destruct (IH Hnd Hk) as (es1 & es2 & -> & H1 & H2).
    exists ((k', v') :: es1), es2. split; [done |]. split; [| done].
    rewrite fmap_cons. by apply not_elem_of_cons.
Qed.

(** The loop leaves a key of [updates] with what its own turn wrote;
    that turn sees the value the record had under the key before the
    loop and, when no earlier turn was under [__proto__], a record that
    still inherits from [Object.prototype]. *)
Lemma fold_updateStep_at es fs k v :
  Js.wf_fields es → Js.assoc k es = Some v →
  ∃ fs0 pr0,
    Js.get (JObj fs0) k = Js.get (JObj fs) k
    ∧ (k = "__proto__" ∨ Js.assoc "__proto__" es = None →
       pr0 = ObjectPrototype)
    ∧ Js.get (fold_left updateStep es (JObj fs, ObjectPrototype)).1 k
      = Js.get (updateStep (JObj fs0, pr0) (k, v)).1 k.
Proof.
  intros Hwf Hk.
  destruct (assoc_split k v es Hwf Hk) as (es1 & es2 & -> & H1 & H2).
  destruct (fold_updateStep_obj es1 fs ObjectPrototype)
    as (fs0 & pr0 & Hbefore).
  exists fs0, pr0. split_and!.
  - change (JObj fs0) with (JObj fs0, pr0).1. rewrite <- Hbefore.
    by apply fold_updateStep_other.
  - intros Hproto. change pr0 with (JObj fs0, pr0).2. rewrite <- Hbefore.
    apply fold_updateStep_prototype.
    destruct Hproto as [-> | Hnone]; [done |].
    apply assoc_None_notin in Hnone.
    rewrite fmap_app in Hnone. by apply not_elem_of_app in Hnone as [? _].
  - rewrite fold_left_app, Hbefore. cbn [fold_left].
    destruct (updateStep (JObj fs0, pr0) (k, v)) as [s1 pr1].
    by apply fold_updateStep_other.
Qed.

(** What the loop makes of a record, key by key. *)
Lemma updateLoop_spec fs updates :
  Js.wf_fields (Js.entries updates) →
  let shape := JObj fs in
  let shape' := updateLoop updates shape in
  (∃ fs', shape' = JObj fs')
  ∧ (∀ k v, k ≠ "props" → k ≠ "__proto__" →
       Js.assoc k (Js.entries updates) = Some v → Js.get shape' k = Some v)
  ∧ (∀ k, Js.assoc k (Js.entries updates) = None →
       Js.get shape' k = Js.get shape k)
  ∧ (∀ v, Js.assoc "__proto__" (Js.entries updates) = Some v →
       Js.get shape "__proto__" = None → Js.get shape' "__proto__" = None)
  ∧ (∀ up, Js.assoc "props" (Js.entries updates) = Some up →
       (Js.typeof_object (Some up) = false →
        Js.get shape' "props" = Some up)
       ∧ (∀ p, Js.get shape "props" = Some p → Js.truthy p = false →
            Js.get shape' "props" = Some up)
       ∧ (Js.get shape "props" = None →
          Js.assoc "__proto__" (Js.entries updates) = None →
          Js.get shape' "props" = Some up)
       ∧ (∀ p, Js.typeof_object (Some up) = true →
            Js.get shape "props" = Some p → Js.truthy p = true →
            Js.wf_fields (Js.entries up) → Js.wf_fields (Js.entries p) →
            ∃ merged,
              Js.get shape' "props" = Some (JObj merged)
              ∧ ∀ k, Js.assoc k merged =
                       match Js.assoc k (Js.entries up) with
                       | Some v => Some v
                       | None => Js.assoc k (Js.entries p)
                       end)).
Proof.
  intros Hwf shape shape'. unfold shape', updateLoop, shape. split_and!.
  - destruct (fold_updateStep_obj (Js.entries updates) fs ObjectPrototype)
      as (fs' & pr' & ->). by exists fs'.
  - intros k v Hprops Hproto Hk.
    destruct (fold_updateStep_at _ fs k v Hwf Hk) as (fs0 & pr0 & _ & _ & ->).
    unfold updateStep. cbn [fst snd].
    apply String.eqb_neq in Hprops as ->.
    apply String.eqb_neq in Hproto as ->. cbn [andb fst].
    apply assoc_set_eq.
  - intros k Hk. apply fold_updateStep_other. by apply assoc_None_notin.
  - intros v Hk Hown.
    destruct (fold_updateStep_at _ fs "__proto__" v Hwf Hk)
      as (fs0 & pr0 & Hsame & Hpr & ->).
    rewrite (Hpr (or_introl eq_refl)). rewrite <- Hown, <- Hsame.
    unfold updateStep, reachesSetter, Js.has. cbn [fst snd].
    rewrite Hsame, Hown. cbn [String.eqb Ascii.eqb Bool.eqb andb].
    rewrite bool_decide_false by (by intros [? ?]). cbn [negb andb].
    rewrite <- Hown, <- Hsame. by destruct v.
  - intros up Hup.
    destruct (fold_updateStep_at _ fs "props" up Hwf Hup)
      as (fs0 & pr0 & Hsame & Hpr & ->).
    unfold updateStep, readProps. cbn [fst snd].
    rewrite String.eqb_refl, Hsame. cbn [andb].
    change (String.eqb "props" "__proto__") with false. cbn [andb].
    split_and!.
    + intros ->. cbn [andb fst]. apply assoc_set_eq.
    + intros p -> Hp. cbn [Js.truthy_opt]. rewrite Hp.
      rewrite andb_false_r. cbn [fst]. apply assoc_set_eq.
    + intros -> Hnone. rewrite (Hpr (or_intror Hnone)).
      cbn [Js.truthy_opt]. rewrite andb_false_r. cbn [fst].
      apply assoc_set_eq.
    + intros p -> -> Hp Hwfu Hwfp. cbn [Js.truthy_opt]. rewrite Hp.
      cbn [andb fst].
      eexists. split; [apply assoc_set_eq |].
      intros k. rewrite assoc_spread by done. rewrite assoc_spread by done.
      destruct (Js.assoc k (Js.entries up)); [done |].
      by destruct (Js.assoc k (Js.entries p)).
Qed.

End UpdateFacts.

(** ** Decoded documents *)

Lemma recordOk_obj r : recordOk r = true → ∃ fs, r = JObj fs.
Proof.
  unfold recordOk. intros [Hid _]%andb_prop. by eapply truthy_get_obj.
Qed.

Lemma documentOk_records f records :
  documentOk f = true → Js.get f "records" = Some (JArr records) →
  (∃ fs, f = JObj fs) ∧ ∀ r, r ∈ records → recordOk r = true.
Proof.
  unfold documentOk. intros Hok Hrec. rewrite Hrec in Hok.
  repeat (apply andb_prop in Hok as [Hok ?]). split.
  - destruct f; try done. by eexists.
  - intros r Hin. rewrite forallb_forall in H. by apply H, list_elem_of_In.
Qed.

(** The record [updateShape] rewrites is the first with the identity. *)
Lemma updateShape_first f records shapeId updates i shape :
  Js.get f "records" = Some (JArr records) →
  updates ≠ JNull →
  records !! i = Some shape → hasId shapeId shape = true →
  (∀ j r, j < i → records !! j = Some r → hasId shapeId r = false) →
  updateShape f shapeId updates
  = Ok (Js.set f "records"
          (JArr (<[i := updateLoop updates shape]> records))).
Proof.
  intros Hrec Hnull Hi Hid Hfirst. unfold updateShape, withRecords.
  rewrite Hrec, (findIndex_first _ _ i shape Hi Hid Hfirst), Hi.
  by destruct updates.
Qed.


(** ** Deleting a record *)

Lemma deleteShape_found f records shapeId r :
  Js.get f "records" = Some (JArr records) →
  r ∈ records → hasId shapeId r = true →
  deleteShape f shapeId
    = Ok (Js.set f "records"
            (JArr (filter (fun r => negb (hasId shapeId r)) records))).
Proof.
  intros Hrec Hin Hid. unfold deleteShape, withRecords. rewrite Hrec.
  destruct (Nat.eqb_spec
              (length (filter (fun r => negb (hasId shapeId r)) records))
              (length records)) as [Hlen|_]; [| done].
  pose proof (proj1 (filter_length_eq (fun r => negb (hasId shapeId r)) _)
                Hlen r Hin) as Hr.
  cbv beta in Hr. by rewrite Hid in Hr.
Qed.

Lemma deleteShape_absent f records shapeId :
  Js.get f "records" = Some (JArr records) →
  (∀ r, r ∈ records → hasId shapeId r = false) →
  deleteShape f shapeId = Err ShapeNotFound.
Proof.
  intros Hrec Hnone. unfold deleteShape, withRecords. rewrite Hrec.
  destruct (Nat.eqb_spec
              (length (filter (fun r => negb (hasId shapeId r)) records))
              (length records)) as [_|Hlen]; [done |].
  exfalso. apply Hlen.
  apply (proj2 (filter_length_eq (fun r => negb (hasId shapeId r)) _)).
  intros r Hin. by rewrite Hnone.
Qed.

Lemma updateShape_found f records shapeId updates r :
  Js.get f "records" = Some (JArr records) →
  updates ≠ JNull →
  r ∈ records → hasId shapeId r = true →
  ∃ i shape,
    records !! i = Some shape ∧ hasId shapeId shape = true
    ∧ (∀ j r', j < i → records !! j = Some r' → hasId shapeId r' = false)
    ∧ updateShape f shapeId updates
      = Ok (Js.set f "records"
              (JArr (<[i := updateLoop updates shape]> records))).
Proof.
  intros Hrec Hnull Hin Hid.
  destruct (findIndex (hasId shapeId) records) as [i|] eqn:E.
  - destruct (findIndex_Some _ _ _ E) as (shape & Hi & Hs & Hfirst).
    exists i, shape. split_and!; try done.
    by apply updateShape_first.
  - rewrite findIndex_None in E. by rewrite (E r Hin) in Hid.
Qed.

(** C10: the target of [deleteShape] and [updateShape] is looked up by
    identity among all records, whatever their type.  With a record of
    identity [rid] that is not a shape in the document, [deleteShape]
    succeeds and leaves the records whose identity differs, that record
    not among them; [updateShape] succeeds and rewrites the first record
    of that identity, the record itself when no other record has its
    identity, which then holds the value of every key of
    [updates] other than [props] and [__proto__], holds what it held
    under the keys [updates] lacks, and, having had no [props], holds
    the [props] of [updates].  On any identity each operation fails with
    [ShapeNotFound] exactly when no record of the document has it. *)
Theorem shape_operations_by_identity (f : json) (records : list json)
    (rid : string) (fields : list (string * json)) (r : json) :
  documentOk f = true →
  Js.get f "records" = Some (JArr records) →
  Js.wf_fields fields →
  r ∈ records → isShape r = false → hasId rid r = true →
  (∃ records',
     deleteShape f rid = Ok (Js.set f "records" (JArr records'))
     ∧ Js.get (Js.set f "records" (JArr records')) "records"
       = Some (JArr records')
     ∧ (r ∉ records')
     ∧ ∀ r', r' ∈ records' ↔ r' ∈ records ∧ hasId rid r' = false)
  ∧ (∃ i target target',
       records !! i = Some target ∧ hasId rid target = true
       ∧ (∀ j r', j < i → records !! j = Some r' → hasId rid r' = false)
       ∧ ((∀ r', r' ∈ records → hasId rid r' = true → r' = r) → target = r)
       ∧ updateShape f rid (JObj fields)
         = Ok (Js.set f "records" (JArr (<[i := target']> records)))
       ∧ (∀ k v, k ≠ "props" → k ≠ "__proto__" →
            Js.assoc k fields = Some v → Js.get target' k = Some v)
       ∧ (∀ k, Js.assoc k fields = None →
            Js.get target' k = Js.get target k)
       ∧ (∀ up, Js.assoc "props" fields = Some up →
            Js.get target "props" = None →
            Js.assoc "__proto__" fields = None →
            Js.get target' "props" = Some up))
  ∧ (∀ other,
       (deleteShape f other = Err ShapeNotFound
        ↔ ∀ r', r' ∈ records → hasId other r' = false)
       ∧ (updateShape f other (JObj fields) = Err ShapeNotFound
          ↔ ∀ r', r' ∈ records → hasId other r' = false)).
Proof.
  intros Hok Hrec Hwf Hin _ Hid.
  destruct (documentOk_records f records Hok Hrec) as [[fs ->] Hall].
  split; [| split].
  - eexists. split; [by eapply deleteShape_found |].
    split; [apply get_set_eq |].
    assert (∀ r', r' ∈ filter (fun r => negb (hasId rid r)) records
                  ↔ r' ∈ records ∧ hasId rid r' = false) as Hfilter.
    { intros r'. rewrite list_elem_of_filter.
      destruct (hasId rid r'); simpl; split; intros [? ?];
        (done || discriminate || by split). }
    split; [| done]. intros [_ Hr]%Hfilter. congruence.
  - destruct (updateShape_found (JObj fs) records rid (JObj fields) r
                Hrec ltac:(done) Hin Hid)
      as (i & target & Hi & Htarget & Hfirst & Hupd).
    exists i, target, (updateLoop (JObj fields) target).
    destruct (recordOk_obj target) as [tfs ->];
      [by eapply Hall, list_elem_of_lookup_2 |].
    destruct (updateLoop_spec tfs (JObj fields) Hwf)
      as (_ & Hkeys & Hkept & _ & Hprops).
    split_and!; try done.
    + intros Honly. apply Honly; [| done].
      by eapply list_elem_of_lookup_2.
    + intros up Hup Hnone Hproto.
      by destruct (Hprops up Hup) as (_ & _ & Hset & _); apply Hset.
  - intros other. split.
    + split; [| by apply deleteShape_absent].
      intros Herr r' Hin'. destruct (hasId other r') eqn:Hid'; [| done].
      by rewrite (deleteShape_found (JObj fs) records other r') in Herr.
    + split.
      * intros Herr r' Hin'. destruct (hasId other r') eqn:Hid'; [| done].
        destruct (updateShape_found (JObj fs) records other (JObj fields) r'
                    Hrec ltac:(done) Hin' Hid') as (? & ? & _ & _ & _ & Hupd).
        by rewrite Hupd in Herr.
      * intros Hnone. unfold updateShape, withRecords. rewrite Hrec.
        by apply findIndex_None in Hnone as ->.
Qed.

(** ** Adding a shape *)

Lemma find_first (p : json → bool) (records : list json) i r :
  records !! i = Some r → p r = true →
  (∀ j r', j < i → records !! j = Some r' → p r' = false) →
  List.find p records = Some r.
Proof.
  revert i. induction records as [|r0 rs IH]; intros i Hi Hp Hmin; [done |].
  simpl. destruct i as [|i]; simpl in Hi.
  - injection Hi as ->. by rewrite Hp.
  - rewrite (Hmin 0 r0) by (done || lia).
    apply (IH i); [done | done |].
    intros j r' Hj Hr'. apply (Hmin (S j)); [lia | done].
Qed.

Lemma find_absent (p : json → bool) (records : list json) :
  (∀ r, r ∈ records → p r = false) → List.find p records = None.
Proof.
  induction records as [|r0 rs IH]; intros Hall; [done |]. simpl.
  rewrite Hall by (by left). apply IH. intros r Hin. apply Hall. by right.
Qed.

Lemma targetPage_given records pageId p :
  pageGiven pageId = Some p → targetPage records pageId = Ok (Some (JStr p)).
Proof. unfold targetPage. by intros ->. Qed.

Lemma targetPage_default records pageId :
  pageGiven pageId = None →
  targetPage records pageId =
    match List.find isPage records with
    | Some firstPage => Ok (Js.get firstPage "id")
    | None => Err NoPages
    end.
Proof. unfold targetPage. by intros ->. Qed.

Lemma pageGiven_named p : p ≠ "" → pageGiven (Some p) = Some p.
Proof. intros Hp. unfold pageGiven. by apply String.eqb_neq in Hp as ->. Qed.

Lemma pageGiven_unnamed pageId :
  pageId = None ∨ pageId = Some "" → pageGiven pageId = None.
Proof. by intros [-> | ->]. Qed.

(** [addShape] succeeds when a page is named or the document has one. *)
Lemma addShape_succeeds uuid f records shape pageId :
  Js.get f "records" = Some (JArr records) →
  (∃ p, pageId = Some p ∧ p ≠ "") ∨ (∃ r, r ∈ records ∧ isPage r = true) →
  ∃ f' shapeId, addShape uuid f shape pageId = Ok (f', shapeId).
Proof.
  intros Hrec Hpage. unfold addShape, withRecords. rewrite Hrec.
  unfold targetPage.
  destruct (pageGiven pageId) as [p|] eqn:Hgiven; [by eexists _, _ |].
  destruct (List.find isPage records) as [page|] eqn:Hfind;
    [by eexists _, _ |].
  destruct Hpage as [(p & -> & Hp) | (r & Hin & Hr)].
  - by rewrite pageGiven_named in Hgiven.
  - apply list_elem_of_In in Hin.
    by rewrite (List.find_none _ _ Hfind r Hin) in Hr.
Qed.

Lemma addShape_no_pages uuid f records shape pageId :
  Js.get f "records" = Some (JArr records) →
  pageId = None ∨ pageId = Some "" →
  (∀ r, r ∈ records → isPage r = false) →
  addShape uuid f shape pageId = Err NoPages.
Proof.
  intros Hrec Hgiven%pageGiven_unnamed Hnone.
  unfold addShape, withRecords. rewrite Hrec.
  by rewrite targetPage_default, find_absent.
Qed.

(** C7: [addShape] puts the new shape on the page the caller names, for
    every name but the empty string, else on the first page record of
    the document, and fails with [NoPages] when there is neither.  The
    new record goes last in the record
    sequence and its identity is returned: the identity of the spec, or
    a synthesized one when the spec has none.  Position and rotation are
    0 where the spec omits them, the record is unlocked with opacity 1,
    and its ordering key is ["a"] followed by one more than the number of
    shape records before the append. *)
Theorem addShape_defaults (uuid : string) (f : json) (records : list json)
    (shape : json) (pageId : option string) :
  documentOk f = true →
  Js.get f "records" = Some (JArr records) →
  (pageId = None ∨ pageId = Some "" →
   (∀ r, r ∈ records → isPage r = false) →
   addShape uuid f shape pageId = Err NoPages)
  ∧ (∀ target,
       pageId = Some target ∧ target ≠ ""
       ∨ (pageId = None ∨ pageId = Some "")
         ∧ (∃ i page,
              records !! i = Some page ∧ isPage page = true
              ∧ (∀ j r, j < i → records !! j = Some r → isPage r = false)
              ∧ Js.get page "id" = Some (JStr target)) →
       ∃ record shapeId,
         addShape uuid f shape pageId
           = Ok (Js.set f "records" (JArr (records ++ [record])), shapeId)
         ∧ Js.get (Js.set f "records" (JArr (records ++ [record]))) "records"
           = Some (JArr (records ++ [record]))
         ∧ Js.get record "id" = Some shapeId
         ∧ (Js.get shape "id" = None →
            shapeId = JStr ("shape:" +:+ Str.slice uuid 0 8))
         ∧ (∀ v, Js.get shape "id" = Some v → Js.truthy v = true →
            shapeId = v)
         ∧ Js.get record "typeName" = Some (JStr "shape")
         ∧ Js.get record "parentId" = Some (JStr target)
         ∧ (Js.get shape "x" = None → Js.get record "x" = Some (JNum 0))
         ∧ (Js.get shape "y" = None → Js.get record "y" = Some (JNum 0))
         ∧ (Js.get shape "rotation" = None →
            Js.get record "rotation" = Some (JNum 0))
         ∧ Js.get record "isLocked" = Some (JBool false)
         ∧ Js.get record "opacity" = Some (JNum 1)
         ∧ Js.get record "index"
           = Some (JStr ("a" +:+ Str.of_nat
                           (length (filter (fun r => isShape r) records) + 1)))).
Proof.
  intros Hok Hrec. unfold addShape, withRecords. rewrite Hrec. split.
  - intros Hgiven%pageGiven_unnamed Hnone.
    by rewrite targetPage_default, find_absent.
  - intros target Htarget.
    assert (targetPage records pageId = Ok (Some (JStr target))) as ->.
    { destruct Htarget
        as [[-> Hne] | (Hgiven%pageGiven_unnamed & i & page & Hi & Hp & Hmin
                        & Hid)].
      - by apply targetPage_given, pageGiven_named.
      - rewrite targetPage_default by done.
        by rewrite (find_first _ _ i page Hi Hp Hmin), Hid. }
    destruct (documentOk_records f records Hok Hrec) as [[fs ->] _].
    eexists _, _. split; [reflexivity |].
    split; [apply get_set_eq |].
    repeat split; try reflexivity.
    + intros E. unfold orDefault. by rewrite E.
    + intros v E Hv. unfold orDefault. by rewrite E, Hv.
    + intros E. unfold newShape, orDefault. rewrite E. reflexivity.
    + intros E. unfold newShape, orDefault. rewrite E. reflexivity.
    + intros E. unfold newShape, orDefault. rewrite E. reflexivity.
Qed.

(** ** Running the effects *)

Section IOFacts.
Context {A B : Type}.
Implicit Types (σ : gmap string node) (k : A → IO B).

Lemma bind_run (m : IO A) k σ :
  (m ≫= k) σ =
    match m σ with
    | (σ', Ok a) => k a σ'
    | (σ', Err e) => (σ', Err e)
    end.
Proof. reflexivity. Qed.

Lemma bind_liftR_Ok (a : A) k σ : (liftR (Ok a) ≫= k) σ = k a σ.
Proof. reflexivity. Qed.

Lemma bind_liftR_Err (e : error) k σ : (liftR (Err e) ≫= k) σ = (σ, Err e).
Proof. reflexivity. Qed.

End IOFacts.

Lemma lastIndexOf_go_lt c s i acc n :
  (∀ a, acc = Some a → a < i) →
  Str.lastIndexOf_go c s i acc = Some n → n < i + String.length s.
Proof.
  revert i acc. induction s as [|a s IH]; intros i acc Hacc; simpl.
  - intros ->. specialize (Hacc n eq_refl). lia.
  - intros Hgo. apply IH in Hgo; [lia |].
    intros b. destruct (Ascii.eqb a c); [intros [= <-]; lia |].
    intros Hb. specialize (Hacc b Hb). lia.
Qed.

(** The directory part of a path is a proper prefix of it. *)
Lemma dir_neq filepath :
  filepath ≠ "" →
  String.substring 0 (default 0 (Str.lastIndexOf filepath "/"%char)) filepath
  ≠ filepath.
Proof.
  intros Hne Heq.
  assert (default 0 (Str.lastIndexOf filepath "/"%char)
          < String.length filepath) as Hlt.
  { destruct (Str.lastIndexOf filepath "/"%char) as [n|] eqn:E; simpl.
    - apply (lastIndexOf_go_lt _ _ 0 None) in E; [lia | done].
    - destruct filepath; [done | simpl; lia]. }
  pose proof (substring_length_le 0
                (default 0 (Str.lastIndexOf filepath "/"%char)) filepath).
  rewrite Heq in H. lia.
Qed.

Lemma endsWith_tldr_nonempty s : Str.endsWith s ".tldr" = true → s ≠ "".
Proof. by intros He ->. Qed.

(** A path has one extension: [.tldr] files are not [.md] files. *)
Lemma endsWith_tldr_not_md s :
  Str.endsWith s ".tldr" = true → Str.endsWith s ".md" = false.
Proof.
  unfold Str.endsWith.
  change (String.rev ".tldr") with "rdlt.".
  change (String.rev ".md") with "dm.".
  destruct (String.rev s) as [|c t]; [done |].
  change (String.prefix "rdlt." (String c t))
    with (if ascii_dec "r" c then String.prefix "dlt." t else false).
  destruct (ascii_dec "r" c) as [<-|]; [| intros; discriminate].
  intros _. reflexivity.
Qed.

(** ** The JSON printer and parser *)

Section JsonFacts.
Import Json.
Implicit Types (s rest ind : string) (v : json).

Lemma skip_ws_blank a s : blank a = true → skip_ws (a +:+ s) = skip_ws s.
Proof.
  induction a as [|c a IH]; [by rewrite append_nil_l |].
  rewrite append_cons. cbn [blank skip_ws].
  intros [-> Ha]%andb_prop. by apply IH.
Qed.

Lemma skip_ws_nl s : skip_ws (nl +:+ s) = skip_ws s.
Proof. by apply skip_ws_blank. Qed.

Lemma blank_app a b : blank a = true → blank b = true → blank (a +:+ b) = true.
Proof.
  induction a as [|c a IH]; [by rewrite append_nil_l |].
  rewrite append_cons. cbn [blank].
  intros [-> Ha]%andb_prop Hb. by apply IH.
Qed.

Lemma parse_digits_uint d rest acc :
  match rest with String c _ => is_digit c = false | EmptyString => True end →
  parse_digits (NilEmpty.string_of_uint d +:+ rest) acc
  = (Nat.of_uint_acc d acc, rest).
Proof.
  intros Hrest. revert acc.
  induction d as [|d IH|d IH|d IH|d IH|d IH|d IH|d IH|d IH|d IH|d IH];
    intros acc; cbn [NilEmpty.string_of_uint Nat.of_uint_acc];
    rewrite ?append_cons, ?append_nil_l.
  { destruct rest as [|c t]; [done |]. cbn [parse_digits]. by rewrite Hrest. }
  all: cbn [parse_digits]; change (is_digit _) with true; cbv iota;
    rewrite IH, Nat.tail_mul_spec; do 2 f_equal; simpl; lia.
Qed.


Lemma follows_not_digit rest :
  follows rest = true →
  match rest with String c _ => is_digit c = false | EmptyString => True end.
Proof.
  destruct rest as [|c t]; [done |]. unfold follows.
  intros [->%Ascii.eqb_eq | ->%Ascii.eqb_eq]%orb_prop; reflexivity.
Qed.

Lemma follows_not_more rest :
  follows rest = true →
  match rest with
  | String d _ =>
      Ascii.eqb d "."%char || Ascii.eqb d "e"%char || Ascii.eqb d "E"%char
  | EmptyString => false
  end = false.
Proof.
  destruct rest as [|c t]; [done |]. unfold follows.
  intros [->%Ascii.eqb_eq | ->%Ascii.eqb_eq]%orb_prop; reflexivity.
Qed.

Lemma of_nat_head n :
  ∃ c t, Str.of_nat n = String c t ∧ is_digit c = true
         ∧ (Ascii.eqb c "0"%char = true → t = "").
Proof.
  unfold Str.of_nat.
  pose proof (DecimalNat.Unsigned.to_of (Nat.to_uint n)) as Hnorm.
  rewrite DecimalNat.Unsigned.of_to in Hnorm. rewrite Hnorm.
  unfold Decimal.unorm.
  pose proof (DecimalFacts.nzhead_nonzero (Nat.to_uint n)) as Hnz.
  destruct (Decimal.nzhead (Nat.to_uint n)) as [|d|d|d|d|d|d|d|d|d|d];
    cbn [NilEmpty.string_of_uint]; try (by eexists _, _).
  by specialize (Hnz d).
Qed.

Lemma digit_not_minus c : is_digit c = true → Ascii.eqb c "-"%char = false.
Proof.
  intros Hc. destruct (Ascii.eqb_spec c "-"%char) as [-> |]; [| done].
  discriminate.
Qed.

Lemma parse_number_of_nat n rest :
  follows rest = true →
  parse_number (Str.of_nat n +:+ rest) = Some (Z.of_nat n, rest)
  ∧ parse_number ("-" +:+ Str.of_nat n +:+ rest) = Some ((- Z.of_nat n)%Z, rest).
Proof.
  intros Hrest.
  assert (parse_digits (Str.of_nat n +:+ rest) 0 = (n, rest)) as Hdigits.
  { unfold Str.of_nat.
    rewrite parse_digits_uint by (by apply follows_not_digit).
    f_equal. apply DecimalNat.Unsigned.of_to. }
  destruct (of_nat_head n) as (c & t & Heq & Hdigit & Hzero).
  rewrite Heq in *. rewrite append_cons in *.
  assert (Ascii.eqb c "0"%char
          && match t +:+ rest with
             | String d _ => is_digit d
             | EmptyString => false
             end = false) as Hlead.
  { destruct (Ascii.eqb c "0"%char) eqn:Hc; [| done].
    rewrite (Hzero eq_refl), append_nil_l. cbn [andb].
    pose proof (follows_not_digit rest Hrest). by destruct rest. }
  split.
  - unfold parse_number. rewrite (digit_not_minus c Hdigit).
    rewrite Hdigit, Hdigits, Hlead. cbn [orb].
    by rewrite (follows_not_more rest Hrest).
  - unfold parse_number. rewrite append_cons, append_nil_l.
    change (Ascii.eqb "-" "-") with true. cbv iota.
    rewrite Hdigit, Hdigits, Hlead. cbn [orb].
    by rewrite (follows_not_more rest Hrest).
Qed.

Lemma parse_number_of_Z z rest :
  follows rest = true →
  parse_number (of_Z z +:+ rest) = Some (z, rest).
Proof.
  intros Hrest. destruct z as [|p|p]; unfold of_Z.
  - apply (parse_number_of_nat 0 rest Hrest).
  - destruct (parse_number_of_nat (Pos.to_nat p) rest Hrest) as [-> _].
    by rewrite positive_nat_Z.
  - rewrite append_assoc.
    destruct (parse_number_of_nat (Pos.to_nat p) rest Hrest) as [_ ->].
    by rewrite positive_nat_Z.
Qed.


Lemma rev_app_append s t : String.rev_app s t = String.rev s +:+ t.
Proof.
  unfold String.rev. revert t. induction s as [|c s IH]; intros t; [done |].
  cbn [String.rev_app]. rewrite IH, (IH (String c "")).
  by rewrite append_assoc.
Qed.

Lemma rev_String c acc : String.rev (String c acc) = String.rev acc +:+ String c "".
Proof. unfold String.rev at 1. cbn [String.rev_app]. apply rev_app_append. Qed.

Lemma parse_chars_escape s fuel acc rest :
  String.length (escape s) < fuel →
  parse_chars fuel (escape s +:+ dquote +:+ rest) acc
  = Some (String.rev acc +:+ s, rest).
Proof.
  revert fuel acc. induction s as [|c s IH]; intros fuel acc Hfuel.
  - destruct fuel as [|fuel]; [simpl in Hfuel; lia |].
    cbn [escape]. rewrite append_nil_l. unfold dquote. rewrite append_cons.
    cbn. by rewrite append_nil_r.
  - destruct fuel as [|fuel]; [simpl in Hfuel; lia |].
    assert (String.length (escape s) < fuel) as Hless.
    { cbn [escape] in Hfuel. rewrite length_append in Hfuel.
      revert Hfuel.
      repeat match goal with
             | |- context [if ?b then _ else _] => destruct b
             end; rewrite ?length_append; cbn [String.length backslash dquote]; lia. }
    specialize (IH fuel (String c acc) Hless).
    rewrite rev_String, append_assoc in IH.
    change (String c "" +:+ s) with (String c s) in IH.
    destruct ((nat_of_ascii c <? 32) || (nat_of_ascii c =? 34)
              || (nat_of_ascii c =? 92)) eqn:Hspecial.
    + assert (∃ n, c = ascii_of_nat n ∧ (n < 32 ∨ n = 34 ∨ n = 92))
        as (n & -> & Hn).
      { exists (nat_of_ascii c). split; [by rewrite ascii_nat_embedding |].
        apply orb_true_iff in Hspecial as [Hspecial|Hspecial];
          [apply orb_true_iff in Hspecial as [Hspecial|Hspecial] |].
        * left. by apply Nat.ltb_lt.
        * right; left. by apply Nat.eqb_eq.
        * right; right. by apply Nat.eqb_eq. }
      clear Hspecial Hfuel Hless.
      assert (n < 32 ∨ n = 34 ∨ n = 92) as Hn' by done.
      do 32 (destruct n as [|n];
             [cbn; unfold backslash, dquote;
              rewrite ?append_cons, ?append_nil_l; cbn; exact IH |]).
      assert (n = 2 ∨ n = 60) as [-> | ->] by lia;
        cbn; unfold backslash, dquote;
        rewrite ?append_cons, ?append_nil_l; cbn; exact IH.
    + apply orb_false_iff in Hspecial as [Hspecial H92].
      apply orb_false_iff in Hspecial as [Hlow H34].
      assert (32 ≤ nat_of_ascii c) as Hge by by apply Nat.ltb_ge.
      cbn [escape parse_chars].
      rewrite H34, H92, Hlow.
      assert ((nat_of_ascii c =? 8) = false) as -> by (apply Nat.eqb_neq; lia).
      assert ((nat_of_ascii c =? 9) = false) as -> by (apply Nat.eqb_neq; lia).
      assert ((nat_of_ascii c =? 10) = false) as -> by (apply Nat.eqb_neq; lia).
      assert ((nat_of_ascii c =? 12) = false) as -> by (apply Nat.eqb_neq; lia).
      assert ((nat_of_ascii c =? 13) = false) as -> by (apply Nat.eqb_neq; lia).
      rewrite !append_cons, append_nil_l. cbn [parse_chars].
      rewrite H34, H92, Hlow. exact IH.
Qed.


Lemma parse_string_quote k rest :
  parse_string (escape k +:+ dquote +:+ rest) = Some (k, rest).
Proof.
  unfold parse_string. rewrite parse_chars_escape; [done |].
  rewrite length_append. unfold dquote. rewrite append_cons. simpl. lia.
Qed.

Lemma expect_app w rest : expect w (w +:+ rest) = Some rest.
Proof.
  unfold expect.
  assert (String.prefix w (w +:+ rest) = true) as ->.
  { induction w as [|c w IH]; [by destruct rest |].
    rewrite append_cons. simpl. by destruct (ascii_dec c c). }
  rewrite length_append.
  replace (String.length w + String.length rest - String.length w)
    with (String.length rest) by lia.
  rewrite <- (Nat.add_0_r (String.length w)).
  by rewrite substring_app_r, substring_all.
Qed.

Lemma json_ind' (P : json → Prop) :
  P JNull → (∀ b, P (JBool b)) → (∀ n, P (JNum n)) → (∀ s, P (JStr s)) →
  (∀ items, Forall P items → P (JArr items)) →
  (∀ fields, Forall (λ kv, P kv.2) fields → P (JObj fields)) →
  ∀ v, P v.
Proof.
  intros Hnull Hbool Hnum Hstr Harr Hobj.
  fix IH 1. intros [| b | n | s | items | fields].
  - apply Hnull.
  - apply Hbool.
  - apply Hnum.
  - apply Hstr.
  - apply Harr. induction items as [|x items IHitems]; constructor;
      [apply IH | done].
  - apply Hobj. induction fields as [|[k x] fields IHfields]; constructor;
      [apply IH | done].
Qed.

Lemma sep_lines_fold ind l p x :
  fold_left (λ acc y, acc +:+ "," +:+ nl +:+ ind +:+ y) l (p +:+ x)
  = p +:+ fold_left (λ acc y, acc +:+ "," +:+ nl +:+ ind +:+ y) l x.
Proof.
  revert x. induction l as [|y l IH]; intros x; [done |].
  cbn [fold_left]. by rewrite append_assoc, IH.
Qed.

Lemma sep_lines_cons ind a b l :
  sep_lines ind (a :: b :: l)
  = a +:+ "," +:+ nl +:+ ind +:+ sep_lines ind (b :: l).
Proof.
  unfold sep_lines. cbn [fold_left].
  by rewrite !sep_lines_fold.
Qed.

Lemma digit_facts c :
  is_digit c = true ∨ c = "-"%char →
  is_json_ws c = false
  ∧ Ascii.eqb "]" c = false ∧ Ascii.eqb "}" c = false
  ∧ Ascii.eqb c "n" = false ∧ Ascii.eqb c "t" = false
  ∧ Ascii.eqb c "f" = false ∧ Ascii.eqb c "034" = false
  ∧ Ascii.eqb c "[" = false ∧ Ascii.eqb c "{" = false.
Proof.
  intros [Hc | ->]; [| by vm_compute].
  revert Hc. destruct c as [[] [] [] [] [] [] [] []]; vm_compute;
    intros; (discriminate || done).
Qed.

Lemma of_Z_head z :
  ∃ c t, of_Z z = String c t ∧ (is_digit c = true ∨ c = "-"%char).
Proof.
  destruct z as [|p|p]; unfold of_Z.
  - exists "0"%char, "". by split; [| left].
  - destruct (of_nat_head (Pos.to_nat p)) as (c & t & -> & Hc & _).
    exists c, t. by split; [| left].
  - exists "-"%char, (Str.of_nat (Pos.to_nat p)). by split; [| right].
Qed.

Lemma print_head ind v :
  ∃ c t, print ind v = String c t ∧ is_json_ws c = false
         ∧ Ascii.eqb "]" c = false ∧ Ascii.eqb "}" c = false.
Proof.
  destruct v as [| [] | n | s | [|x items] | [|kv fields]];
    cbn [print]; unfold quote, dquote;
    rewrite ?append_cons, ?append_nil_l; try (by eexists _, _).
  destruct (of_Z_head n) as (c & t & -> & Hc).
  exists c, t. split; [done |]. apply digit_facts in Hc. tauto.
Qed.

Lemma skip_ws_print pre ind v rest :
  blank pre = true →
  skip_ws (pre +:+ print ind v +:+ rest) = print ind v +:+ rest.
Proof.
  intros Hpre. rewrite skip_ws_blank by done.
  destruct (print_head ind v) as (c & t & -> & Hws & _).
  rewrite append_cons. cbn [skip_ws]. by rewrite Hws.
Qed.

Lemma head_is_print c ind v rest :
  c = "]"%char ∨ c = "}"%char →
  head_is c (print ind v +:+ rest) = false.
Proof.
  destruct (print_head ind v) as (d & t & -> & _ & H1 & H2).
  rewrite append_cons. by intros [-> | ->].
Qed.

Lemma skip_ws_closing c a b rest :
  is_json_ws c = false → blank a = true → blank b = true →
  skip_ws (a +:+ b +:+ String c "" +:+ rest) = String c rest.
Proof.
  intros Hc Ha Hb. rewrite !skip_ws_blank by done.
  rewrite append_cons, append_nil_l. cbn [skip_ws]. by rewrite Hc.
Qed.

Lemma follows_comma rest : follows ("," +:+ rest) = true.
Proof. done. Qed.

Lemma follows_nl rest : follows (nl +:+ rest) = true.
Proof. done. Qed.

Lemma parse_items_print items :
  Forall reads_back items → items ≠ [] →
  ∀ fuel ind ind0 pre rest,
    list_sum (map (λ x, S (size x)) items) ≤ fuel →
    blank pre = true → blank ind = true → blank ind0 = true →
    forallb Js.wf_json items = true →
    parse_items fuel
      (pre +:+ sep_lines ind (map (print ind) items)
       +:+ nl +:+ ind0 +:+ "]" +:+ rest)
    = Some (items, rest).
Proof.
  induction 1 as [|x items Hx Hitems IH]; [done |].
  intros _ fuel ind ind0 pre rest Hfuel Hpre Hind Hind0 Hwf.
  simpl in Hfuel. destruct fuel as [|fuel]; [lia |].
  cbn [forallb] in Hwf. apply andb_prop in Hwf as [Hwfx Hwf].
  destruct items as [|y items].
  - cbn [map sep_lines fold_left]. cbn [parse_items].
    rewrite (Hx fuel ind pre (nl +:+ ind0 +:+ "]" +:+ rest)); [| lia | done..].
    cbn [mbind option_bind].
    by rewrite (skip_ws_closing "]" nl ind0).
  - cbn [map]. rewrite sep_lines_cons, !append_assoc. cbn [parse_items].
    rewrite (Hx fuel ind pre); [| lia | done..].
    cbn [mbind option_bind]. rewrite append_cons, append_nil_l.
    cbn [skip_ws is_json_ws]. change (is_json_ws ",") with false.
    cbn [head_is tail_of]. change (Ascii.eqb "," ",") with true. cbv iota.
    rewrite <- (append_assoc nl ind).
    change (print ind y :: map (print ind) items)
      with (map (print ind) (y :: items)).
    rewrite (IH ltac:(done) fuel ind ind0 (nl +:+ ind) rest);
      [done | simpl; simpl in Hfuel; lia | by apply blank_app | done..].
Qed.

Lemma parse_members_step k x fuel ind pre tail :
  reads_back x → size x ≤ fuel → blank pre = true → blank ind = true →
  Js.wf_json x = true → follows tail = true →
  parse_members (S fuel) (pre +:+ (quote k +:+ ": " +:+ print ind x) +:+ tail)
  = if head_is "," (skip_ws tail) then
      '(kvs, r') ← parse_members fuel (tail_of (skip_ws tail));
      Some ((k, x) :: kvs, r')
    else if head_is "}" (skip_ws tail) then Some ([(k, x)], tail_of (skip_ws tail))
    else None.
Proof.
  intros Hx Hfuel Hpre Hind Hwf Htail.
  cbn [parse_members].
  rewrite skip_ws_blank by done. unfold quote, dquote.
  rewrite !append_assoc, append_cons, append_nil_l.
  cbn [skip_ws]. change (is_json_ws "034") with false. cbv iota.
  cbn [head_is tail_of]. change (Ascii.eqb "034" "034") with true. cbv iota.
  fold dquote. rewrite parse_string_quote. cbn [mbind option_bind].
  rewrite !append_cons, append_nil_l.
  cbn [skip_ws]. change (is_json_ws ":") with false. cbv iota.
  cbn [head_is tail_of]. change (Ascii.eqb ":" ":") with true. cbv iota.
  change (String " " (print ind x +:+ tail))
    with (" " +:+ print ind x +:+ tail).
  by rewrite (Hx fuel ind " " tail).
Qed.

Lemma parse_members_print fields :
  Forall (λ kv, reads_back kv.2) fields → fields ≠ [] →
  ∀ fuel ind ind0 pre rest,
    list_sum (map (λ kv, let '(_, x) := kv in S (size x)) fields) ≤ fuel →
    blank pre = true → blank ind = true → blank ind0 = true →
    forallb (λ kv, let '(_, x) := kv in Js.wf_json x) fields = true →
    parse_members fuel
      (pre +:+ sep_lines ind
                 (map (λ kv, let '(k, x) := kv in
                             quote k +:+ ": " +:+ print ind x) fields)
       +:+ nl +:+ ind0 +:+ "}" +:+ rest)
    = Some (fields, rest).
Proof.
  induction 1 as [|[k x] fields Hx Hfields IH]; [done |].
  intros _ fuel ind ind0 pre rest Hfuel Hpre Hind Hind0 Hwf.
  simpl in Hfuel. destruct fuel as [|fuel]; [lia |].
  cbn [forallb] in Hwf. apply andb_prop in Hwf as [Hwfx Hwf].
  cbn [snd] in Hx.
  destruct fields as [|kv fields].
  - cbn [map sep_lines fold_left].
    rewrite parse_members_step; [| done | lia | done..].
    by rewrite (skip_ws_closing "}" nl ind0).
  - set (item := λ kv : string * json,
                   let '(k, x) := kv in quote k +:+ ": " +:+ print ind x).
    cbn [map]. rewrite sep_lines_cons.
    change (item (k, x)) with (quote k +:+ ": " +:+ print ind x).
    rewrite (append_assoc (quote k +:+ ": " +:+ print ind x)).
    rewrite parse_members_step; [| done | lia | done..].
    rewrite !append_assoc, append_cons, append_nil_l.
    cbn [skip_ws is_json_ws]. change (is_json_ws ",") with false.
    cbn [head_is tail_of]. change (Ascii.eqb "," ",") with true. cbv iota.
    rewrite <- (append_assoc nl ind).
    change (item kv :: map item fields) with (map item (kv :: fields)).
    subst item.
    rewrite (IH ltac:(done) fuel ind ind0 (nl +:+ ind) rest);
      [done | simpl; simpl in Hfuel; lia | by apply blank_app | done..].
Qed.


Lemma assoc_set_fresh k x acc :
  k ∉ acc.*1 → Js.assoc_set k x acc = acc ++ [(k, x)].
Proof.
  induction acc as [|[k' x'] acc IH]; [done |].
  rewrite fmap_cons, not_elem_of_cons. cbn [fst]. intros [Hne Hnotin].
  cbn [Js.assoc_set]. apply String.eqb_neq in Hne. rewrite Hne.
  by rewrite IH.
Qed.

Lemma fold_assoc_set fields acc :
  NoDup (acc.*1 ++ fields.*1) →
  fold_left (λ a kv, Js.assoc_set kv.1 kv.2 a) fields acc = acc ++ fields.
Proof.
  revert acc. induction fields as [|[k x] fields IH]; intros acc Hnodup.
  - by rewrite app_nil_r.
  - cbn [fold_left fst snd]. rewrite fmap_cons in Hnodup. cbn [fst] in Hnodup.
    rewrite assoc_set_fresh.
    + rewrite IH; [by rewrite <- app_assoc |].
      by rewrite fmap_app, <- app_assoc.
    + apply NoDup_app in Hnodup as (_ & Hdisj & _).
      intros Hin. apply (Hdisj k Hin). by left.
Qed.

Lemma sep_lines_head ind c t l :
  ∃ t', sep_lines ind (String c t :: l) = String c t'.
Proof.
  unfold sep_lines. change (String c t) with (String c "" +:+ t).
  rewrite sep_lines_fold, append_cons, append_nil_l. by eexists.
Qed.

Lemma parse_value_print v : reads_back v.
Proof.
  induction v as [| b | n | str | items IH | fields IH] using json_ind';
    intros fuel ind pre rest Hfuel Hpre Hind Hwf Hrest;
    (destruct fuel as [|fuel]; [simpl in Hfuel; lia |]);
    cbn [parse_value]; rewrite skip_ws_print by done.
  - cbn [print]. rewrite append_cons. 
    change (Ascii.eqb "n" "n") with true. cbv iota.
    change (String "n" ("ull" +:+ rest)) with ("null" +:+ rest).
    by rewrite expect_app.
  - destruct b; cbn [print]; rewrite append_cons.
    + change (String "t" ("rue" +:+ rest)) with ("true" +:+ rest).
      by rewrite expect_app.
    + change (String "f" ("alse" +:+ rest)) with ("false" +:+ rest).
      by rewrite expect_app.
  - cbn [print]. destruct (of_Z_head n) as (c & t & Heq & Hc).
    apply digit_facts in Hc as (_ & _ & _ & Hn & Ht & Hf & Hq & Ha & Ho).
    rewrite Heq, append_cons, Hn, Ht, Hf, Hq, Ha, Ho.
    rewrite <- append_cons, <- Heq.
    by rewrite parse_number_of_Z.
  - cbn [print]. unfold quote, dquote. rewrite !append_assoc, append_cons, append_nil_l.
    change (Ascii.eqb "034" "n") with false.
    change (Ascii.eqb "034" "t") with false.
    change (Ascii.eqb "034" "f") with false.
    change (Ascii.eqb "034" "034") with true. cbv iota.
    fold dquote. by rewrite parse_string_quote.
  - destruct items as [|x items]; [by cbn |].
    cbn [print]. set (ind' := ind +:+ "  ").
    set (S := sep_lines ind' (map (print ind') (x :: items))).
    assert (∃ c t', S = String c t' ∧ is_json_ws c = false
                    ∧ Ascii.eqb "]" c = false) as (c & t' & HS & Hc & Hb).
    { subst S. cbn [map].
      destruct (print_head ind' x) as (c & t & -> & Hc & Hb & _).
      destruct (sep_lines_head ind' c t (map (print ind') items)) as [t' ->].
      by exists c, t'. }
    rewrite !append_assoc, append_cons, append_nil_l.
    change (Ascii.eqb "[" "n") with false.
    change (Ascii.eqb "[" "t") with false.
    change (Ascii.eqb "[" "f") with false.
    change (Ascii.eqb "[" "034") with false.
    change (Ascii.eqb "[" "[") with true. cbv iota.
    rewrite skip_ws_nl, (skip_ws_blank ind') by (by apply blank_app).
    rewrite HS, append_cons. cbn [skip_ws]. rewrite Hc.
    cbn [head_is]. rewrite Hb. rewrite <- append_cons, <- HS.
    pose proof (parse_items_print (x :: items) IH ltac:(done)
                  fuel ind' ind "" rest) as Hitems.
    rewrite append_nil_l in Hitems. fold S in Hitems.
    rewrite Hitems; [done | simpl in Hfuel; simpl; lia | done
                     | by apply blank_app | done | done].
  - destruct fields as [|[k x] fields]; [by cbn |].
    cbn [print]. set (ind' := ind +:+ "  ").
    set (item := λ kv : string * json,
                   let '(k, x) := kv in quote k +:+ ": " +:+ print ind' x).
    set (S := sep_lines ind' (map item ((k, x) :: fields))).
    assert (∃ c t', S = String c t' ∧ is_json_ws c = false
                    ∧ Ascii.eqb "}" c = false) as (c & t' & HS & Hc & Hb).
    { subst S. cbn [map].
      assert (∃ t, item (k, x) = String "034" t) as [t ->].
      { unfold item, quote, dquote. rewrite !append_cons. by eexists. }
      destruct (sep_lines_head ind' "034" t (map item fields)) as [t' ->].
      by exists "034"%char, t'. }
    rewrite !append_assoc, append_cons, append_nil_l.
    change (Ascii.eqb "{" "n") with false.
    change (Ascii.eqb "{" "t") with false.
    change (Ascii.eqb "{" "f") with false.
    change (Ascii.eqb "{" "034") with false.
    change (Ascii.eqb "{" "[") with false.
    change (Ascii.eqb "{" "{") with true. cbv iota.
    rewrite skip_ws_nl, (skip_ws_blank ind') by (by apply blank_app).
    rewrite HS, append_cons. cbn [skip_ws]. rewrite Hc.
    cbn [head_is]. rewrite Hb. rewrite <- append_cons, <- HS.
    cbn [Js.wf_json] in Hwf. apply andb_prop in Hwf as [Hnodup Hwf].
    apply bool_decide_eq_true in Hnodup.
    pose proof (parse_members_print ((k, x) :: fields) IH ltac:(done)
                  fuel ind' ind "" rest) as Hmembers.
    rewrite append_nil_l in Hmembers. fold item S in Hmembers.
    rewrite Hmembers; [| simpl in Hfuel; simpl; lia | done
                       | by apply blank_app | done | done].
    cbn [mbind option_bind]. by rewrite fold_assoc_set.
Qed.

Lemma length_sep_fold ind l x :
  String.length x + list_sum (map (λ y, S (String.length y)) l)
  ≤ String.length
      (fold_left (λ acc y, acc +:+ "," +:+ nl +:+ ind +:+ y) l x).
Proof.
  revert x. induction l as [|y l IH]; intros x; [simpl; lia |].
  cbn [fold_left]. etrans; [| apply IH].
  rewrite !length_append. simpl. lia.
Qed.

Lemma length_sep_lines ind l :
  list_sum (map (λ y, S (String.length y)) l)
  ≤ S (String.length (sep_lines ind l)).
Proof.
  destruct l as [|x l]; [simpl; lia |].
  unfold sep_lines. pose proof (length_sep_fold ind l x). simpl. lia.
Qed.

Lemma size_print v ind : size v ≤ String.length (print ind v).
Proof.
  revert ind.
  induction v as [| b | n | str | items IH | fields IH] using json_ind';
    intros ind.
  - simpl. lia.
  - destruct b; simpl; lia.
  - cbn [size print]. destruct (of_Z_head n) as (c & t & -> & _). simpl. lia.
  - cbn [size print]. unfold quote, dquote. rewrite append_cons. simpl. lia.
  - destruct items as [|x items]; [simpl; lia |].
    cbn [print]. set (ind' := ind +:+ "  ").
    pose proof (length_sep_lines ind' (map (print ind') (x :: items))) as Hsep.
    assert (list_sum (map (λ x, S (size x)) (x :: items))
            ≤ list_sum (map (λ y, S (String.length y))
                          (map (print ind') (x :: items)))) as Hsum.
    { clear Hsep. induction IH as [|y l Hy _ IHl]; [done |].
      specialize (Hy ind'). simpl. simpl in IHl. lia. }
    cbn [size]. rewrite !length_append.
    set (L := String.length (sep_lines _ _)) in *. simpl String.length. lia.
  - destruct fields as [|kv fields]; [simpl; lia |].
    cbn [print]. set (ind' := ind +:+ "  ").
    set (item := λ kv : string * json,
                   let '(k, x) := kv in quote k +:+ ": " +:+ print ind' x).
    pose proof (length_sep_lines ind' (map item (kv :: fields))) as Hsep.
    assert (list_sum (map (λ kv, let '(_, x) := kv in S (size x))
                        (kv :: fields))
            ≤ list_sum (map (λ y, S (String.length y))
                          (map item (kv :: fields)))) as Hsum.
    { clear Hsep. induction IH as [|[k y] l Hy _ IHl]; [done |].
      specialize (Hy ind'). cbn [snd] in Hy.
      simpl. simpl in IHl. rewrite !length_append. lia. }
    cbn [size]. rewrite !length_append.
    set (L := String.length (sep_lines _ _)) in *. simpl String.length. lia.
Qed.

Lemma parse_stringify v : Js.wf_json v = true → parse (stringify v) = Some v.
Proof.
  intros Hwf. unfold parse, stringify.
  pose proof (parse_value_print v (2 * String.length (print "" v) + 2)
                "" "" "") as Hparse.
  rewrite append_nil_l, append_nil_r in Hparse.
  rewrite Hparse; [done | | done..].
  pose proof (size_print v ""). lia.
Qed.

End JsonFacts.

Lemma posix_jsonFaithful cwd root : @jsonFaithful (posix_runtime cwd root).
Proof. intros v Hwf. by apply parse_stringify. Qed.

(** ** Bytes *)

Lemma encode_app a b : Utf8.encode (a +:+ b) = Utf8.encode a ++ Utf8.encode b.
Proof.
  induction a as [|c a IH]; [done |].
  rewrite append_cons. cbn [Utf8.encode]. by rewrite IH, app_assoc.
Qed.

(** ** Paths and directories *)

Lemma parentOf_length p d :
  parentOf p = Some d → String.length d < String.length p.
Proof.
  unfold parentOf.
  destruct (Str.lastIndexOf p "/"%char) as [[|i]|] eqn:E; try done.
  intros [= <-]. apply (lastIndexOf_go_lt _ _ 0 None) in E; [| done].
  rewrite length_substring. lia.
Qed.

Lemma parentOf_dirOf filepath :
  dirOf filepath ≠ "" → parentOf filepath = Some (dirOf filepath).
Proof.
  unfold dirOf, parentOf.
  destruct (Str.lastIndexOf filepath "/"%char) as [[|i]|]; try done;
    simpl; intros Hne; exfalso; apply Hne; by destruct filepath.
Qed.

Lemma parentOf_dirOf_empty filepath :
  dirOf filepath = "" → filepath ≠ "" → parentOf filepath = None.
Proof.
  unfold dirOf, parentOf.
  destruct (Str.lastIndexOf filepath "/"%char) as [[|i]|]; try done.
  destruct filepath; [done |]. simpl. discriminate.
Qed.

Lemma dirOf_length filepath :
  filepath ≠ "" → String.length (dirOf filepath) < String.length filepath.
Proof.
  intros Hne. unfold dirOf.
  assert (default 0 (Str.lastIndexOf filepath "/"%char)
          < String.length filepath) as Hlt.
  { destruct (Str.lastIndexOf filepath "/"%char) as [n|] eqn:E; simpl.
    - apply (lastIndexOf_go_lt _ _ 0 None) in E; [lia | done].
    - destruct filepath; [done | simpl; lia]. }
  rewrite length_substring. lia.
Qed.

Lemma pathChain_go_length fuel p q :
  q ∈ pathChain_go fuel p → String.length q ≤ String.length p.
Proof.
  revert p. induction fuel as [|fuel IH]; intros p; simpl.
  - intros ->%list_elem_of_singleton. lia.
  - destruct (parentOf p) as [d|] eqn:E.
    + intros [Hin | ->%list_elem_of_singleton]%elem_of_app; [| lia].
      apply IH in Hin. apply parentOf_length in E. lia.
    + intros ->%list_elem_of_singleton. lia.
Qed.

Lemma pathChain_length p q :
  q ∈ pathChain p → String.length q ≤ String.length p.
Proof. apply pathChain_go_length. Qed.

Lemma pathChain_self p : p ∈ pathChain p.
Proof.
  unfold pathChain. destruct (String.length p) as [|n]; simpl.
  - by left.
  - destruct (parentOf p); [apply elem_of_app; right |]; by left.
Qed.

Section MakeDirs.
Implicit Types (σ : gmap string node) (ps : list string).

Lemma makeDirs_notin ps σ q : q ∉ ps → makeDirs ps σ !! q = σ !! q.
Proof.
  unfold makeDirs. revert σ. induction ps as [|x ps IH]; intros σ; [done |].
  rewrite not_elem_of_cons. intros [Hne Hnotin]. cbn [fold_left].
  rewrite IH by done. destruct (σ !! x); [done |].
  by rewrite lookup_insert_ne.
Qed.

Lemma makeDirs_keeps ps σ q n : σ !! q = Some n → makeDirs ps σ !! q = Some n.
Proof.
  unfold makeDirs. revert σ. induction ps as [|x ps IH]; intros σ Hq; [done |].
  cbn [fold_left]. apply IH. destruct (σ !! x) eqn:Hx; [done |].
  rewrite lookup_insert_ne; [done |]. congruence.
Qed.

Lemma makeDirs_in ps σ q :
  q ∈ ps → σ !! q = None → makeDirs ps σ !! q = Some Dir.
Proof.
  revert σ. induction ps as [|x ps IH]; intros σ Hin Hq;
    [by apply elem_of_nil in Hin |].
  change (makeDirs (x :: ps) σ)
    with (makeDirs ps match σ !! x with
                      | None => <[x := Dir]> σ
                      | Some _ => σ
                      end).
  destruct (decide (q = x)) as [-> | Hne].
  - rewrite Hq. apply makeDirs_keeps. apply lookup_insert_eq.
  - apply elem_of_cons in Hin as [? | Hin]; [done |].
    apply IH; [done |]. destruct (σ !! x); [done |].
    by rewrite lookup_insert_ne.
Qed.

Lemma makeDirs_new ps σ q :
  σ !! q = None → is_Some (makeDirs ps σ !! q) →
  q ∈ ps ∧ makeDirs ps σ !! q = Some Dir.
Proof.
  intros Hq Hsome. destruct (decide (q ∈ ps)) as [Hin | Hnotin].
  - split; [done |]. by apply makeDirs_in.
  - rewrite makeDirs_notin in Hsome by done. rewrite Hq in Hsome.
    by destruct Hsome.
Qed.

End MakeDirs.

(** ** The store *)

Section StoreFacts.
Context `{NodeRuntime}.
Implicit Types (σ : gmap string node) (path filepath : string).

Lemma ensureDir_run dir σ :
  ensureDir dir σ
  = if bool_decide (is_Some (σ !! dir)) then (σ, Ok tt)
    else if mkdirOk σ dir then (afterEnsureDir dir σ, Ok tt)
    else (σ, Err IOError).
Proof.
  unfold ensureDir, afterEnsureDir, mkdirOk. rewrite bind_run.
  unfold existsSync.
  destruct (bool_decide (is_Some (σ !! dir))); [done |]. cbn [negb].
  unfold mkdir. destruct (String.eqb dir ""); cbn [negb andb]; [done |].
  by destruct (forallb _ _).
Qed.

Lemma ensureDir_ready dir σ :
  dirReady σ dir = true →
  ensureDir dir σ = (afterEnsureDir dir σ, Ok tt)
  ∧ (dir ≠ "" → afterEnsureDir dir σ !! dir = Some Dir).
Proof.
  unfold dirReady. intros Hready. rewrite ensureDir_run.
  unfold afterEnsureDir.
  destruct (σ !! dir) as [[c| |b a]|] eqn:E; try done.
  rewrite bool_decide_false by (by intros [? ?]). rewrite Hready.
  split; [done |]. intros _.
  apply makeDirs_in; [apply pathChain_self | done].
Qed.

(** [ensureDir] throws, and makes nothing, when the directory is missing
    and cannot be made. *)
Lemma ensureDir_fails dir σ :
  σ !! dir = None → mkdirOk σ dir = false →
  ensureDir dir σ = (σ, Err IOError).
Proof.
  intros Hnone Hno. rewrite ensureDir_run.
  rewrite bool_decide_false by (rewrite Hnone; by intros [? ?]).
  by rewrite Hno.
Qed.

Lemma afterEnsureDir_lookup dir σ p :
  String.length dir < String.length p →
  afterEnsureDir dir σ !! p = σ !! p.
Proof.
  intros Hlen. unfold afterEnsureDir.
  destruct (bool_decide (is_Some (σ !! dir))); [done |].
  apply makeDirs_notin. intros Hin%pathChain_length. lia.
Qed.

Lemma afterEnsureDir_keeps dir σ p n :
  σ !! p = Some n → afterEnsureDir dir σ !! p = Some n.
Proof.
  intros Hp. unfold afterEnsureDir.
  destruct (bool_decide (is_Some (σ !! dir))); [done |].
  by apply makeDirs_keeps.
Qed.

Lemma afterEnsureDir_new dir σ p :
  σ !! p = None → is_Some (afterEnsureDir dir σ !! p) →
  p ∈ pathChain dir ∧ afterEnsureDir dir σ !! p = Some Dir.
Proof.
  intros Hp. unfold afterEnsureDir.
  destruct (bool_decide (is_Some (σ !! dir))).
  - rewrite Hp. by intros [? ?].
  - by apply makeDirs_new.
Qed.

(** The best-effort read never throws. *)
Lemma getWrappedContainerForTldraw_run filepath σ :
  getWrappedContainerForTldraw filepath σ
  = (σ, Ok (containerOnDisk σ filepath)).
Proof.
  unfold getWrappedContainerForTldraw, containerOnDisk.
  rewrite bind_run. unfold existsSync.
  destruct (σ !! filepath) as [[c| |before after]|] eqn:E; cbn [mbind option_bind textOf].
  - rewrite bool_decide_true by (by eexists). simpl.
    unfold try_catch. rewrite bind_run. unfold readFile. rewrite E.
    rewrite bind_run. unfold liftR, parseJsonContent.
    destruct (JSON_parse c) as [v|]; [| done].
    by destruct (isWrappedContainer v).
  - rewrite bool_decide_true by (by eexists). simpl.
    unfold try_catch. rewrite bind_run. unfold readFile. by rewrite E.
  - rewrite bool_decide_true by (by eexists). simpl.
    unfold try_catch. rewrite bind_run. unfold readFile. rewrite E.
    rewrite bind_run. unfold liftR, parseJsonContent.
    destruct (JSON_parse _) as [v|]; [| done].
    by destruct (isWrappedContainer v).
  - rewrite bool_decide_false by (by intros [? ?]). done.
Qed.

Lemma normalizeTldrawPayload_not_string content fw :
  normalizeTldrawPayload content = Ok fw →
  parsedInputOf content = Ok content.
Proof.
  destruct content; try done. unfold normalizeTldrawPayload. simpl.
  rewrite orb_true_r. intros; discriminate.
Qed.

Lemma isReadable_tldr filepath :
  Str.endsWith filepath ".tldr" = true → isReadableTldrawPath filepath = true.
Proof. unfold isReadableTldrawPath. by intros ->. Qed.

Lemma isReadable_md filepath :
  Str.endsWith filepath ".md" = true → isReadableTldrawPath filepath = true.
Proof. unfold isReadableTldrawPath. intros ->. apply orb_true_r. Qed.

(** [tldrawWrite] up to the test of the extension. *)
Lemma tldrawWrite_start σ path filepath content input f ic :
  securePath path = Ok filepath →
  isReadableTldrawPath filepath = true →
  parsedInputOf content = Ok input →
  normalizeTldrawPayload input = Ok (f, ic) →
  tldrawWrite path content σ
  = if Str.endsWith filepath ".md" then
      (ex ← existsSync filepath;
       if negb ex then throw NotFound
       else
         markdownContent ← readFile filepath;
         block ← liftR (locateMarkdownTldrawBlock markdownContent);
         existingData ← liftR (parseJsonContent (jsonText block));
         '(_, existingWrappedContainer) ←
           liftR (normalizeTldrawPayload existingData);
         _ ← writeFile filepath
               (Str.slice markdownContent 0 (jsonStart block) +:+ nl
                +:+ JSON_stringify
                      (outputContent existingWrappedContainer ic f)
                +:+ nl
                +:+ Str.slice_from markdownContent (jsonEnd block));
         mret ("Successfully wrote: " +:+ path)) σ
    else
      (_ ← ensureDir (dirOf filepath);
       existingWrappedContainer ← getWrappedContainerForTldraw filepath;
       _ ← writeFile filepath
             (JSON_stringify (outputContent existingWrappedContainer ic f));
       mret ("Successfully wrote: " +:+ path)) σ.
Proof.
  intros Hpath Hread Hinput Hnorm. unfold tldrawWrite.
  rewrite Hpath, bind_liftR_Ok, Hread. cbn [negb].
  fold (parsedInputOf content). rewrite Hinput, bind_liftR_Ok.
  rewrite Hnorm, bind_liftR_Ok.
  by destruct (Str.endsWith filepath ".md").
Qed.

(** What [tldrawWrite] does on a [.tldr] path whose directory is there or
    can be made. *)
Lemma tldrawWrite_tldr σ path filepath content input f ic :
  securePath path = Ok filepath →
  Str.endsWith filepath ".tldr" = true →
  parsedInputOf content = Ok input →
  normalizeTldrawPayload input = Ok (f, ic) →
  dirReady σ (dirOf filepath) = true →
  σ !! filepath ≠ Some Dir →
  tldrawWrite path content σ
  = (<[filepath :=
         File (JSON_stringify
                 (outputContent (containerOnDisk σ filepath) ic f))]>
       (afterEnsureDir (dirOf filepath) σ),
     Ok ("Successfully wrote: " +:+ path)).
Proof.
  intros Hpath Hext Hinput Hnorm Hready Hdir.
  rewrite (tldrawWrite_start σ path filepath content input f ic)
    by (done || by apply isReadable_tldr).
  rewrite (endsWith_tldr_not_md _ Hext).
  destruct (ensureDir_ready _ _ Hready) as [Hensure Hmade].
  rewrite bind_run, Hensure.
  rewrite bind_run, getWrappedContainerForTldraw_run.
  assert (afterEnsureDir (dirOf filepath) σ !! filepath = σ !! filepath)
    as Hsame.
  { apply afterEnsureDir_lookup, dirOf_length.
    by apply endsWith_tldr_nonempty. }
  unfold containerOnDisk at 1. rewrite Hsame.
  fold (containerOnDisk σ filepath).
  rewrite bind_run. unfold writeFile. rewrite Hsame.
  destruct (σ !! filepath) as [[c| |before after]|]; try done.
  rewrite (proj2 (String.eqb_neq _ _) (endsWith_tldr_nonempty _ Hext)).
  destruct (String.eqb_spec (dirOf filepath) "") as [Hroot | Hsub].
  - by rewrite (parentOf_dirOf_empty _ Hroot (endsWith_tldr_nonempty _ Hext)).
  - by rewrite (parentOf_dirOf _ Hsub), (Hmade Hsub).
Qed.

(** On a [.tldr] path whose directory is missing and cannot be made,
    [tldrawWrite] throws and the file system stays as it was. *)
Lemma tldrawWrite_tldr_no_dir σ path filepath content input f ic :
  securePath path = Ok filepath →
  Str.endsWith filepath ".tldr" = true →
  parsedInputOf content = Ok input →
  normalizeTldrawPayload input = Ok (f, ic) →
  σ !! dirOf filepath = None →
  mkdirOk σ (dirOf filepath) = false →
  tldrawWrite path content σ = (σ, Err IOError).
Proof.
  intros Hpath Hext Hinput Hnorm Hnone Hno.
  rewrite (tldrawWrite_start σ path filepath content input f ic)
    by (done || by apply isReadable_tldr).
  rewrite (endsWith_tldr_not_md _ Hext).
  by rewrite bind_run, (ensureDir_fails _ _ Hnone Hno).
Qed.

(** Over a directory the write throws, in [ensureDir] or in
    [writeFile]. *)
Lemma tldrawWrite_tldr_on_dir σ path filepath content input f ic :
  securePath path = Ok filepath →
  Str.endsWith filepath ".tldr" = true →
  parsedInputOf content = Ok input →
  normalizeTldrawPayload input = Ok (f, ic) →
  σ !! filepath = Some Dir →
  (tldrawWrite path content σ).2 = Err IOError.
Proof.
  intros Hpath Hext Hinput Hnorm Hdir.
  rewrite (tldrawWrite_start σ path filepath content input f ic)
    by (done || by apply isReadable_tldr).
  rewrite (endsWith_tldr_not_md _ Hext).
  rewrite bind_run, ensureDir_run.
  assert (∀ τ, τ !! filepath = Some Dir →
            ((getWrappedContainerForTldraw filepath
              ≫= λ existingWrappedContainer,
                   writeFile filepath
                     (JSON_stringify
                        (outputContent existingWrappedContainer ic f))
                   ≫= λ _ : (), mret ("Successfully wrote: " +:+ path)) τ).2
            = Err IOError) as Hrest.
  { intros τ Hτ. rewrite bind_run, getWrappedContainerForTldraw_run.
    rewrite bind_run. unfold writeFile. by rewrite Hτ. }
  destruct (bool_decide (is_Some (σ !! dirOf filepath))); [by apply Hrest |].
  destruct (mkdirOk σ (dirOf filepath)); [| done].
  apply Hrest. by apply afterEnsureDir_keeps.
Qed.

(** A new file cannot be written where a file is in the place of its
    directory. *)
Lemma tldrawWrite_tldr_blocked σ path filepath content input f ic :
  securePath path = Ok filepath →
  Str.endsWith filepath ".tldr" = true →
  parsedInputOf content = Ok input →
  normalizeTldrawPayload input = Ok (f, ic) →
  σ !! filepath = None →
  isFile (σ !! dirOf filepath) = true →
  dirOf filepath ≠ "" →
  tldrawWrite path content σ = (σ, Err IOError).
Proof.
  intros Hpath Hext Hinput Hnorm Hnone Hfile Hne.
  rewrite (tldrawWrite_start σ path filepath content input f ic)
    by (done || by apply isReadable_tldr).
  rewrite (endsWith_tldr_not_md _ Hext).
  rewrite bind_run, ensureDir_run.
  rewrite bool_decide_true
    by (destruct (σ !! dirOf filepath); [by eexists | done]).
  rewrite bind_run, getWrappedContainerForTldraw_run.
  rewrite bind_run. unfold writeFile. rewrite Hnone.
  pose proof (endsWith_tldr_nonempty _ Hext) as Hfp.
  apply String.eqb_neq in Hfp as ->.
  rewrite (parentOf_dirOf _ Hne).
  by destruct (σ !! dirOf filepath) as [[c| |before after]|].
Qed.

(** Every way [tldrawWrite] ends on a [.tldr] path, for a content that
    normalises. *)
Lemma tldrawWrite_tldr_cases σ path filepath content input f ic :
  securePath path = Ok filepath →
  Str.endsWith filepath ".tldr" = true →
  parsedInputOf content = Ok input →
  normalizeTldrawPayload input = Ok (f, ic) →
  tldrawWrite path content σ = (σ, Err IOError)
  ∨ tldrawWrite path content σ
    = (afterEnsureDir (dirOf filepath) σ, Err IOError)
  ∨ tldrawWrite path content σ
    = (<[filepath :=
           File (JSON_stringify
                   (outputContent (containerOnDisk σ filepath) ic f))]>
         (afterEnsureDir (dirOf filepath) σ),
       Ok ("Successfully wrote: " +:+ path)).
Proof.
  intros Hpath Hext Hinput Hnorm.
  rewrite (tldrawWrite_start σ path filepath content input f ic)
    by (done || by apply isReadable_tldr).
  rewrite (endsWith_tldr_not_md _ Hext).
  rewrite bind_run, ensureDir_run. unfold afterEnsureDir.
  set (rest := getWrappedContainerForTldraw filepath
               ≫= λ existingWrappedContainer,
                    writeFile filepath
                      (JSON_stringify
                         (outputContent existingWrappedContainer ic f))
                    ≫= λ _ : (), mret ("Successfully wrote: " +:+ path)).
  assert (∀ τ, τ !! filepath = σ !! filepath →
            rest τ = (τ, Err IOError)
            ∨ rest τ
              = (<[filepath :=
                     File (JSON_stringify
                             (outputContent (containerOnDisk σ filepath)
                                ic f))]> τ,
                 Ok ("Successfully wrote: " +:+ path))) as Hrest.
  { intros τ Hsame. remember (rest τ) as r eqn:Hr. unfold rest in Hr.
    rewrite bind_run, getWrappedContainerForTldraw_run in Hr.
    unfold containerOnDisk at 1 in Hr. rewrite Hsame in Hr.
    fold (containerOnDisk σ filepath) in Hr.
    rewrite bind_run in Hr. unfold writeFile in Hr.
    destruct (τ !! filepath) as [[c| |before after]|];
      [by right | by left | by right |].
    destruct (String.eqb filepath ""); [by left |].
    destruct (parentOf filepath) as [d|]; [| by right].
    destruct (τ !! d) as [[c| |before after]|]; (by left) || by right. }
  destruct (bool_decide (is_Some (σ !! dirOf filepath))).
  - destruct (Hrest σ eq_refl) as [-> | ->]; [by left | by right; right].
  - destruct (mkdirOk σ (dirOf filepath)); [| by left].
    destruct (Hrest (makeDirs (pathChain (dirOf filepath)) σ)) as [-> | ->];
      [| by right; left | by right; right].
    apply makeDirs_notin. intros Hin%pathChain_length.
    pose proof (dirOf_length filepath (endsWith_tldr_nonempty _ Hext)). lia.
Qed.

(** What [tldrawWrite] does on an [.md] path. *)
Lemma tldrawWrite_md_input σ path filepath content input f ic :
  securePath path = Ok filepath →
  Str.endsWith filepath ".md" = true →
  parsedInputOf content = Ok input →
  normalizeTldrawPayload input = Ok (f, ic) →
  tldrawWrite path content σ
  = match σ !! filepath with
    | None => (σ, Err NotFound)
    | Some Dir => (σ, Err IOError)
    | Some (File markdownContent) =>
        match existingBlock markdownContent with
        | Err e => (σ, Err e)
        | Ok (block, ec) =>
            (<[filepath :=
                 File (Str.slice markdownContent 0 (jsonStart block) +:+ nl
                       +:+ JSON_stringify (outputContent ec ic f) +:+ nl
                       +:+ Str.slice_from markdownContent (jsonEnd block))]> σ,
             Ok ("Successfully wrote: " +:+ path))
        end
    | Some (Garbled before after) =>
        let markdownContent := before +:+ Utf8.replacement +:+ after in
        match existingBlock markdownContent with
        | Err e => (σ, Err e)
        | Ok (block, ec) =>
            (<[filepath :=
                 File (Str.slice markdownContent 0 (jsonStart block) +:+ nl
                       +:+ JSON_stringify (outputContent ec ic f) +:+ nl
                       +:+ Str.slice_from markdownContent (jsonEnd block))]> σ,
             Ok ("Successfully wrote: " +:+ path))
        end
    end.
Proof.
  intros Hpath Hext Hinput Hnorm.
  rewrite (tldrawWrite_start σ path filepath content input f ic)
    by (done || by apply isReadable_md).
  rewrite Hext, bind_run. unfold existsSync.
  destruct (σ !! filepath) as [[markdownContent| |before after]|] eqn:E.
  - rewrite bool_decide_true by (by eexists). cbn [negb].
    rewrite bind_run. unfold readFile at 1. rewrite E.
    unfold existingBlock.
    destruct (locateMarkdownTldrawBlock markdownContent) as [block|e];
      [| done].
    rewrite bind_liftR_Ok. cbn [mbind result_bind].
    destruct (parseJsonContent (jsonText block)) as [existingData|e];
      [| done].
    rewrite bind_liftR_Ok. cbn [mbind result_bind].
    destruct (normalizeTldrawPayload existingData) as [[f' ec]|e]; [| done].
    rewrite bind_liftR_Ok. cbn [snd].
    rewrite bind_run. unfold writeFile. by rewrite E.
  - rewrite bool_decide_true by (by eexists). cbn [negb].
    rewrite bind_run. unfold readFile at 1. by rewrite E.
  - rewrite bool_decide_true by (by eexists). cbn [negb].
    rewrite bind_run. unfold readFile at 1. rewrite E.
    cbv zeta. unfold existingBlock.
    destruct (locateMarkdownTldrawBlock _) as [block|e]; [| done].
    rewrite bind_liftR_Ok. cbn [mbind result_bind].
    destruct (parseJsonContent (jsonText block)) as [existingData|e];
      [| done].
    rewrite bind_liftR_Ok. cbn [mbind result_bind].
    destruct (normalizeTldrawPayload existingData) as [[f' ec]|e]; [| done].
    rewrite bind_liftR_Ok. cbn [snd].
    rewrite bind_run. unfold writeFile. by rewrite E.
  - rewrite bool_decide_false by (by intros [? ?]). done.
Qed.

Lemma tldrawWrite_md σ path filepath content f ic :
  securePath path = Ok filepath →
  Str.endsWith filepath ".md" = true →
  normalizeTldrawPayload content = Ok (f, ic) →
  tldrawWrite path content σ
  = match σ !! filepath with
    | None => (σ, Err NotFound)
    | Some Dir => (σ, Err IOError)
    | Some (File markdownContent) =>
        match existingBlock markdownContent with
        | Err e => (σ, Err e)
        | Ok (block, ec) =>
            (<[filepath :=
                 File (Str.slice markdownContent 0 (jsonStart block) +:+ nl
                       +:+ JSON_stringify (outputContent ec ic f) +:+ nl
                       +:+ Str.slice_from markdownContent (jsonEnd block))]> σ,
             Ok ("Successfully wrote: " +:+ path))
        end
    | Some (Garbled before after) =>
        let markdownContent := before +:+ Utf8.replacement +:+ after in
        match existingBlock markdownContent with
        | Err e => (σ, Err e)
        | Ok (block, ec) =>
            (<[filepath :=
                 File (Str.slice markdownContent 0 (jsonStart block) +:+ nl
                       +:+ JSON_stringify (outputContent ec ic f) +:+ nl
                       +:+ Str.slice_from markdownContent (jsonEnd block))]> σ,
             Ok ("Successfully wrote: " +:+ path))
        end
    end.
Proof.
  intros Hpath Hext Hnorm.
  apply (tldrawWrite_md_input σ path filepath content content); try done.
  by eapply normalizeTldrawPayload_not_string.
Qed.

End StoreFacts.

Section Codec.
Context `{NodeRuntime}.
Implicit Types (σ : gmap string node) (path filepath : string).

(** Decoding a [.tldr] file whose content parses and normalises. *)
Lemma parseTldrawContent_tldr σ path filepath c v f w :
  securePath path = Ok filepath →
  Str.endsWith filepath ".tldr" = true →
  σ !! filepath = Some (File c) →
  JSON_parse c = Some v →
  normalizeTldrawPayload v = Ok (f, w) →
  parseTldrawContent path σ
  = (σ, Ok {| file := f;
              storageFormat := match w with
                               | Some _ => WrappedJson
                               | None => PlainJson
                               end;
              wrappedContainer := w |}).
Proof.
  intros Hpath Hext Hfile Hparse Hnorm. unfold parseTldrawContent.
  rewrite Hpath, bind_liftR_Ok, (isReadable_tldr _ Hext). cbn [negb].
  rewrite bind_run. unfold existsSync.
  rewrite bool_decide_true by (by eexists). cbn [negb].
  rewrite bind_run. unfold readFile at 1. rewrite Hfile.
  rewrite (endsWith_tldr_not_md _ Hext).
  unfold parseJsonContent. rewrite Hparse, bind_liftR_Ok.
  by rewrite Hnorm, bind_liftR_Ok.
Qed.

(** A valid document without a [raw] field is its own payload. *)
Lemma normalizeTldrawPayload_bare d :
  documentOk d = true → Js.has d "raw" = false →
  normalizeTldrawPayload d = Ok (d, None).
Proof.
  intros Hok Hraw. unfold normalizeTldrawPayload. rewrite Hraw.
  assert (validateTldrawFile d = Ok d) as -> by (by apply validateTldrawFile_ok).
  unfold documentOk in Hok.
  repeat (apply andb_prop in Hok as [Hok ?]).
  by rewrite Hok, H4.
Qed.

(** C1 (as amended): on a runtime whose [JSON.parse] reads back what
    [JSON.stringify] prints, a valid document that has no [raw] field of
    its own, written to a [.tldr] path that holds no wrapped file, is
    what reading the path returns afterwards, in the plain layout.  The
    write succeeds when the target is not a directory and its directory
    is there or can be made; whenever it succeeds, the file holds the
    serialised document and the read returns the document.  A document
    with a [raw] field is taken for a wrapped payload by [tldrawWrite]. *)
Theorem tldrawWrite_tldrawRead_plain σ path filepath (d : json) :
  jsonFaithful →
  securePath path = Ok filepath →
  Str.endsWith filepath ".tldr" = true →
  documentOk d = true →
  Js.wf_json d = true →
  Js.has d "raw" = false →
  containerOnDisk σ filepath = None →
  (dirReady σ (dirOf filepath) = true → σ !! filepath ≠ Some Dir →
   ∃ σ', tldrawWrite path d σ = (σ', Ok ("Successfully wrote: " +:+ path)))
  ∧ ∀ σ' msg,
      tldrawWrite path d σ = (σ', Ok msg) →
      σ' !! filepath = Some (File (JSON_stringify d))
      ∧ parseTldrawContent path σ'
        = (σ', Ok {| file := d;
                     storageFormat := PlainJson;
                     wrappedContainer := None |})
      ∧ tldrawRead path σ' = (σ', Ok d).
Proof.
  intros Hjson Hpath Hext Hok Hwf Hraw Hnone.
  pose proof (normalizeTldrawPayload_bare d Hok Hraw) as Hnorm.
  pose proof (normalizeTldrawPayload_not_string d _ Hnorm) as Hinput.
  split.
  - intros Hready Hdir. eexists.
    by rewrite (tldrawWrite_tldr σ path filepath d d d None).
  - intros σ' msg Hwrite.
    destruct (tldrawWrite_tldr_cases σ path filepath d d d None
                Hpath Hext Hinput Hnorm) as [Hw | [Hw | Hw]];
      rewrite Hw in Hwrite; try discriminate.
    injection Hwrite as <- _. rewrite Hnone. cbn [outputContent].
    set (σ' := <[filepath := File (JSON_stringify d)]> _).
    assert (σ' !! filepath = Some (File (JSON_stringify d))) as Hlook
      by apply lookup_insert_eq.
    pose proof (parseTldrawContent_tldr σ' path filepath _ d d None
                  Hpath Hext Hlook (Hjson d Hwf) Hnorm) as Hread.
    split_and!; try done.
    unfold tldrawRead. by rewrite bind_run, Hread.
Qed.

End Codec.

(** ** Writing into a text file *)

Section Embedded.
Context `{NodeRuntime}.
Implicit Types (σ : gmap string node) (path filepath : string).
Local Abbreviation START := MARKDOWN_TLDRAW_START_MARKER.
Local Abbreviation END_ := MARKDOWN_TLDRAW_END_MARKER.

(** A text with one start delimiter and, after it, one end delimiter:
    the block is what lies between the two. *)
Lemma locateMarkdownTldrawBlock_unique prefix mid suffix :
  let markdown := prefix +:+ START +:+ mid +:+ END_ +:+ suffix in
  let a := String.length prefix + String.length START in
  Str.occurrences START markdown = [String.length prefix] →
  Str.occurrences END_ markdown = [a + String.length mid] →
  locateMarkdownTldrawBlock markdown
  = if String.eqb (Str.trim mid) "" then Err EmptyBlock
    else Ok {| jsonStart := a;
               jsonEnd := a + String.length mid;
               jsonText := Str.trim mid |}.
Proof.
  intros markdown a HS HE.
  assert (∀ i, Str.occurs START markdown i ↔ i = String.length prefix) as HoS.
  { intros i. rewrite <- occurrences_spec, HS by apply START_nonempty.
    apply list_elem_of_singleton. }
  assert (∀ i, Str.occurs END_ markdown i ↔ i = a + String.length mid) as HoE.
  { intros i. rewrite <- occurrences_spec, HE by apply END_nonempty.
    apply list_elem_of_singleton. }
  unfold locateMarkdownTldrawBlock, Str.indexOf.
  rewrite (index_first 0 START markdown (String.length prefix));
    [| apply START_nonempty | lia | by apply HoS
     | intros p _ Hlt Ho; apply HoS in Ho; lia].
  fold a.
  rewrite (index_absent a START);
    [| apply START_nonempty
     | intros p Hp Ho; apply HoS in Ho; unfold a in Hp; simpl in Hp; lia].
  rewrite (index_first a END_ markdown (a + String.length mid));
    [| apply END_nonempty | lia | by apply HoE
     | intros p _ Hlt Ho; apply HoE in Ho; lia].
  rewrite (index_absent _ END_);
    [| apply END_nonempty
     | intros p Hp Ho; apply HoE in Ho; simpl in Hp; lia].
  assert (Str.slice markdown a (a + String.length mid) = mid) as ->.
  { unfold Str.slice, markdown, a.
    replace (String.length prefix + String.length START + String.length mid
             - (String.length prefix + String.length START))
      with (String.length mid) by lia.
    rewrite <- (append_assoc prefix START), <- length_append.
    apply substring_app_mid. }
  done.
Qed.

Lemma slice_before_block prefix rest :
  Str.slice (prefix +:+ START +:+ rest) 0
    (String.length prefix + String.length START)
  = prefix +:+ START.
Proof.
  unfold Str.slice. rewrite Nat.sub_0_r.
  rewrite <- (append_assoc prefix START), <- length_append.
  apply substring_app_l.
Qed.

Lemma slice_from_end prefix mid rest :
  Str.slice_from (prefix +:+ START +:+ mid +:+ rest)
    (String.length prefix + String.length START + String.length mid)
  = rest.
Proof.
  unfold Str.slice_from.
  assert (prefix +:+ START +:+ mid +:+ rest
          = (prefix +:+ START +:+ mid) +:+ rest) as ->
    by (by rewrite !append_assoc).
  assert (String.length prefix + String.length START + String.length mid
          = String.length (prefix +:+ START +:+ mid)) as ->
    by (rewrite !length_append; lia).
  generalize (prefix +:+ START +:+ mid). intros a.
  rewrite length_append.
  replace (String.length a + String.length rest - String.length a)
    with (String.length rest) by lia.
  pose proof (substring_app_r a rest 0 (String.length rest)) as Hsub.
  rewrite Nat.add_0_r in Hsub. rewrite Hsub. apply substring_all.
Qed.

(** C3 (as amended): writing to an [.md] file that is UTF-8 text and
    holds one start delimiter and after it one end delimiter leaves the
    text, and with it the bytes, before the start delimiter and after
    the end delimiter as they were, whether the write succeeds or fails;
    only what lies between the delimiters changes.  The write succeeds
    when the block already there decodes, and then puts the serialized
    payload between two line feeds.  A byte that is not UTF-8 is not
    written back as it was read. *)
Theorem tldrawWrite_embedded_preserves σ path filepath
    (content d : json) (ic : option json) (prefix mid suffix : string) :
  let markdown := prefix +:+ START +:+ mid +:+ END_ +:+ suffix in
  securePath path = Ok filepath →
  Str.endsWith filepath ".md" = true →
  normalizeTldrawPayload content = Ok (d, ic) →
  σ !! filepath = Some (File markdown) →
  Str.occurrences START markdown = [String.length prefix] →
  Str.occurrences END_ markdown
    = [String.length prefix + String.length START + String.length mid] →
  ∃ σ' res mid',
    tldrawWrite path content σ = (σ', res)
    ∧ σ' !! filepath
      = Some (File (prefix +:+ START +:+ mid' +:+ END_ +:+ suffix))
    ∧ σ !! filepath ≫= bytesOf
      = Some (Utf8.encode prefix ++ Utf8.encode START ++ Utf8.encode mid
              ++ Utf8.encode END_ ++ Utf8.encode suffix)
    ∧ σ' !! filepath ≫= bytesOf
      = Some (Utf8.encode prefix ++ Utf8.encode START ++ Utf8.encode mid'
              ++ Utf8.encode END_ ++ Utf8.encode suffix)
    ∧ (∀ p, p ≠ filepath → σ' !! p = σ !! p)
    ∧ (∀ existingData fw,
         Str.trim mid ≠ "" →
         JSON_parse (Str.trim mid) = Some existingData →
         normalizeTldrawPayload existingData = Ok fw →
         res = Ok ("Successfully wrote: " +:+ path)
         ∧ mid' = nl +:+ JSON_stringify (outputContent fw.2 ic d) +:+ nl).
Proof.
  intros markdown Hpath Hext Hnorm Hfile HS HE. subst markdown.
  assert (∀ m, bytesOf (File (prefix +:+ START +:+ m +:+ END_ +:+ suffix))
               = Some (Utf8.encode prefix ++ Utf8.encode START
                       ++ Utf8.encode m ++ Utf8.encode END_
                       ++ Utf8.encode suffix)) as Hbytes.
  { intros m. cbn [bytesOf]. by rewrite !encode_app. }
  assert (σ !! filepath ≫= bytesOf
          = Some (Utf8.encode prefix ++ Utf8.encode START ++ Utf8.encode mid
                  ++ Utf8.encode END_ ++ Utf8.encode suffix)) as Hbefore.
  { rewrite Hfile. apply Hbytes. }
  rewrite (tldrawWrite_md σ path filepath content d ic) by done.
  rewrite Hfile. unfold existingBlock.
  rewrite (locateMarkdownTldrawBlock_unique prefix mid suffix HS HE).
  destruct (String.eqb_spec (Str.trim mid) "") as [Hempty | Hne].
  { exists σ, (Err EmptyBlock), mid. 
    split_and!; [done | done | apply Hbytes | done | done | by intros]. }
  cbn [mbind result_bind jsonText]. unfold parseJsonContent.
  destruct (JSON_parse (Str.trim mid)) as [existingData|] eqn:Hparse.
  2: { exists σ, (Err MalformedContent), mid. 
       split_and!; [done | done | apply Hbytes | done | done | by intros]. }
  cbn [mbind result_bind].
  destruct (normalizeTldrawPayload existingData) as [fw|e] eqn:Hex.
  2: { exists σ, (Err e), mid. 
       split_and!; [done | done | apply Hbytes | done | done |].
       intros existingData' fw' _ [= <-] Hex'. congruence. }
  cbn [mbind result_bind jsonStart jsonEnd].
  eexists _, _, (nl +:+ JSON_stringify (outputContent fw.2 ic d) +:+ nl).
  split; [reflexivity |].
  assert (∀ τ : gmap string node,
            <[filepath :=
                File (Str.slice (prefix +:+ START +:+ mid +:+ END_ +:+ suffix)
                        0 (String.length prefix + String.length START)
                      +:+ nl +:+ JSON_stringify (outputContent fw.2 ic d)
                      +:+ nl
                      +:+ Str.slice_from
                            (prefix +:+ START +:+ mid +:+ END_ +:+ suffix)
                            (String.length prefix + String.length START
                             + String.length mid))]> τ !! filepath
            = Some (File (prefix +:+ START
                          +:+ (nl +:+ JSON_stringify (outputContent fw.2 ic d)
                               +:+ nl)
                          +:+ END_ +:+ suffix))) as Hafter.
  { intros τ. rewrite lookup_insert_eq. do 2 f_equal.
    rewrite slice_before_block, slice_from_end.
    by rewrite !append_assoc. }
  split_and!.
  - apply Hafter.
  - apply Hbytes.
  - rewrite Hafter. apply Hbytes.
  - intros p Hp. by rewrite lookup_insert_ne.
  - intros existingData' fw' _ [= <-] Hex'. split; [done |]. congruence.
Qed.

End Embedded.

(** ** The container on disk *)

Section Container.
Context `{NodeRuntime}.
Implicit Types (σ : gmap string node) (path filepath : string).

Lemma containerOnDisk_wrapped σ filepath c cf r :
  σ !! filepath = Some (File c) →
  JSON_parse c = Some (JObj cf) →
  Js.assoc "raw" cf = Some r → Js.typeof_object (Some r) = true →
  containerOnDisk σ filepath = Some (JObj cf).
Proof.
  intros Hfile Hparse Hraw Hobj. unfold containerOnDisk.
  rewrite Hfile. cbn [mbind option_bind textOf].
  rewrite Hparse. unfold isWrappedContainer, Js.has. simpl.
  rewrite Hraw, Hobj. by rewrite bool_decide_true by (by eexists).
Qed.

Lemma normalizeTldrawPayload_no_raw content d ic :
  normalizeTldrawPayload content = Ok (d, ic) →
  Js.has content "raw" = false → d = content ∧ ic = None.
Proof.
  unfold normalizeTldrawPayload. intros Hnorm Hraw. rewrite Hraw in Hnorm.
  destruct (negb _ || negb _); [done |].
  destruct (validateTldrawFile content) as [f|] eqn:Hv; [| done].
  apply validateTldrawFile_ok in Hv as [_ ->].
  by injection Hnorm as <- <-.
Qed.

Lemma normalizeTldrawPayload_raw content d ic :
  normalizeTldrawPayload content = Ok (d, ic) →
  Js.has content "raw" = true → Js.get content "raw" = Some d.
Proof.
  unfold normalizeTldrawPayload. intros Hnorm Hhas. rewrite Hhas in Hnorm.
  destruct (negb _ || negb _); [done |].
  destruct (negb _ || negb _); [done |].
  destruct (Js.get content "raw") as [raw|]; [| done].
  destruct (validateTldrawFile raw) as [f|] eqn:Hv; [| done].
  apply validateTldrawFile_ok in Hv as [_ ->].
  by injection Hnorm as <- _.
Qed.

(** C2 (as amended): when the [.tldr] file at the path holds a wrapped
    document and lies in a directory that is there, the payload written
    keeps every field of that container other than [raw] and puts the
    caller's document under [raw], whether or not the caller sent a
    container of its own.  The caller's document is taken from the
    content, parsed first when it is a string: the content itself when
    it has no [raw] field, its [raw] field otherwise. *)
Theorem tldrawWrite_keeps_container σ path filepath
    (content input d : json) (ic : option json)
    (c : string) (cf : list (string * json)) (r : json) :
  securePath path = Ok filepath →
  Str.endsWith filepath ".tldr" = true →
  σ !! filepath = Some (File c) →
  dirReady σ (dirOf filepath) = true →
  JSON_parse c = Some (JObj cf) →
  Js.wf_fields cf →
  Js.assoc "raw" cf = Some r →
  Js.typeof_object (Some r) = true →
  parsedInputOf content = Ok input →
  normalizeTldrawPayload input = Ok (d, ic) →
  ∃ σ' out,
    tldrawWrite path content σ = (σ', Ok ("Successfully wrote: " +:+ path))
    ∧ σ' !! filepath = Some (File (JSON_stringify (JObj out)))
    ∧ (∀ k, k ≠ "raw" → Js.assoc k out = Js.assoc k cf)
    ∧ Js.assoc "raw" out = Some d
    ∧ (Js.has input "raw" = false → d = input)
    ∧ (Js.has input "raw" = true → Js.get input "raw" = Some d).
Proof.
  intros Hpath Hext Hfile Hready Hparse Hwf Hraw Hobj Hinput Hnorm.
  eexists _, _. split.
  { rewrite (tldrawWrite_tldr σ path filepath content input d ic)
      by (done || by rewrite Hfile).
    rewrite (containerOnDisk_wrapped σ filepath c cf r) by done.
    reflexivity. }
  split; [apply lookup_insert_eq |]. split; [| split; [| split]].
  - intros k Hk. rewrite assoc_set_ne by done.
    rewrite assoc_spread by done. simpl.
    by destruct (Js.assoc k cf).
  - apply assoc_set_eq.
  - intros Hno. by apply (normalizeTldrawPayload_no_raw input d ic).
  - by apply (normalizeTldrawPayload_raw input d ic).
Qed.

(** C4 (as amended): on a [.tldr] path the look at the file already
    there never throws: a file that is missing, is a directory, does
    not parse or is not a wrapped document counts as no container, and
    for every content that normalises, given as a value or as a string,
    the write succeeds when the target is not a directory and its
    directory is there or can be made.  Over a directory the write
    fails, in [writeFile].  On an [.md] path the file has to
    be there and its block has to be found: the write fails with
    [NotFound], or with the failure of the search for the block. *)
Theorem tldrawWrite_existing_best_effort σ path filepath
    (content input f : json) (ic : option json) :
  securePath path = Ok filepath →
  parsedInputOf content = Ok input →
  normalizeTldrawPayload input = Ok (f, ic) →
  (Str.endsWith filepath ".tldr" = true →
     getWrappedContainerForTldraw filepath σ
     = (σ, Ok (containerOnDisk σ filepath))
     ∧ (σ !! filepath = None
        ∨ σ !! filepath = Some Dir
        ∨ (∃ n c, σ !! filepath = Some n ∧ textOf n = Some c
                  ∧ (JSON_parse c = None
                     ∨ ∃ v, JSON_parse c = Some v
                            ∧ isWrappedContainer v = false)) →
        containerOnDisk σ filepath = None)
     ∧ (dirReady σ (dirOf filepath) = true →
        σ !! filepath ≠ Some Dir →
        ∃ σ',
          tldrawWrite path content σ
          = (σ', Ok ("Successfully wrote: " +:+ path))
          ∧ σ' !! filepath
            = Some (File (JSON_stringify
                            (outputContent (containerOnDisk σ filepath)
                               ic f))))
     ∧ (σ !! filepath = Some Dir →
        (tldrawWrite path content σ).2 = Err IOError))
  ∧ (Str.endsWith filepath ".md" = true →
     (σ !! filepath = None →
      tldrawWrite path content σ = (σ, Err NotFound))
     ∧ (∀ markdown e,
          σ !! filepath = Some (File markdown) →
          locateMarkdownTldrawBlock markdown = Err e →
          tldrawWrite path content σ = (σ, Err e))).
Proof.
  intros Hpath Hinput Hnorm. split.
  - intros Hext. split; [apply getWrappedContainerForTldraw_run |]. split.
    + unfold containerOnDisk.
      intros [-> | [-> | (n & c & -> & Htext & Hc)]]; try done.
      cbn [mbind option_bind]. rewrite Htext.
      by destruct Hc as [-> | (v & -> & ->)].
    + split.
      * intros Hready Hdir. eexists. split.
        -- by apply (tldrawWrite_tldr σ path filepath content input f ic).
        -- apply lookup_insert_eq.
      * by apply (tldrawWrite_tldr_on_dir σ path filepath content input f ic).
  - intros Hext. split.
    + intros Hnone.
      rewrite (tldrawWrite_md_input σ path filepath content input f ic)
        by done.
      by rewrite Hnone.
    + intros markdown e Hfile Hloc.
      rewrite (tldrawWrite_md_input σ path filepath content input f ic)
        by done.
      rewrite Hfile. unfold existingBlock. by rewrite Hloc.
Qed.

End Container.

(** ** The tools around the in-memory steps *)

Section ToolFacts.
Context `{NodeRuntime}.
Implicit Types (σ : gmap string node) (path : string).

(** Reading leaves the file system as it is. *)
Lemma parseTldrawContent_reads path σ : (parseTldrawContent path σ).1 = σ.
Proof.
  unfold parseTldrawContent. rewrite bind_run. unfold liftR at 1.
  destruct (securePath path) as [filepath|e]; [| done].
  destruct (negb (isReadableTldrawPath filepath)); [done |].
  rewrite bind_run. unfold existsSync.
  destruct (negb (bool_decide (is_Some (σ !! filepath)))); [done |].
  rewrite bind_run. unfold readFile.
  destruct (σ !! filepath) as [[content| |before after]|]; [| done | | done].
  2: generalize (before +:+ Utf8.replacement +:+ after); intros content.
  all: destruct (Str.endsWith filepath ".md");
    [ rewrite bind_run; unfold liftR at 1;
      destruct (locateMarkdownTldrawBlock content) as [block|e]; [| done];
      rewrite bind_run; unfold liftR at 1;
      destruct (parseJsonContent (jsonText block)) as [data|e]; [| done];
      rewrite bind_run; unfold liftR at 1;
      by destruct (normalizeTldrawPayload data) as [[f w]|e]
    | rewrite bind_run; unfold liftR at 1;
      destruct (parseJsonContent content) as [data|e]; [| done];
      rewrite bind_run; unfold liftR at 1;
      by destruct (normalizeTldrawPayload data) as [[f w]|e] ].
Qed.

Lemma tldrawRead_reads path σ : (tldrawRead path σ).1 = σ.
Proof.
  unfold tldrawRead. rewrite bind_run.
  pose proof (parseTldrawContent_reads path σ) as Hread.
  by destruct (parseTldrawContent path σ) as [σ' [parsed|e]].
Qed.

(** A tool whose in-memory step fails writes nothing and fails the same
    way. *)
Lemma tldrawUpdateShape_fails path shapeId updates σ f e :
  tldrawRead path σ = (σ, Ok f) →
  updateShape f shapeId updates = Err e →
  tldrawUpdateShape path shapeId updates σ = (σ, Err e).
Proof.
  intros Hread Hstep. unfold tldrawUpdateShape.
  by rewrite bind_run, Hread, Hstep.
Qed.

Lemma tldrawDeleteShape_fails path shapeId σ f e :
  tldrawRead path σ = (σ, Ok f) →
  deleteShape f shapeId = Err e →
  tldrawDeleteShape path shapeId σ = (σ, Err e).
Proof.
  intros Hread Hstep. unfold tldrawDeleteShape.
  by rewrite bind_run, Hread, Hstep.
Qed.

Lemma tldrawAddShape_fails uuid path shape pageId σ f e :
  tldrawRead path σ = (σ, Ok f) →
  addShape uuid f shape pageId = Err e →
  tldrawAddShape uuid path shape pageId σ = (σ, Err e).
Proof.
  intros Hread Hstep. unfold tldrawAddShape.
  by rewrite bind_run, Hread, Hstep.
Qed.

(** A tool whose in-memory step succeeds hands its document to
    [tldrawWrite]. *)
Lemma tldrawUpdateShape_writes path shapeId updates σ f f' :
  tldrawRead path σ = (σ, Ok f) →
  updateShape f shapeId updates = Ok f' →
  tldrawUpdateShape path shapeId updates σ
  = match tldrawWrite path f' σ with
    | (σ', Ok _) => (σ', Ok ("Updated shape: " +:+ shapeId))
    | (σ', Err e) => (σ', Err e)
    end.
Proof.
  intros Hread Hstep. unfold tldrawUpdateShape.
  rewrite bind_run, Hread, Hstep, bind_liftR_Ok, bind_run.
  by destruct (tldrawWrite path f' σ) as [σ' [msg|e]].
Qed.

Lemma tldrawDeleteShape_writes path shapeId σ f f' :
  tldrawRead path σ = (σ, Ok f) →
  deleteShape f shapeId = Ok f' →
  tldrawDeleteShape path shapeId σ
  = match tldrawWrite path f' σ with
    | (σ', Ok _) => (σ', Ok ("Deleted shape: " +:+ shapeId))
    | (σ', Err e) => (σ', Err e)
    end.
Proof.
  intros Hread Hstep. unfold tldrawDeleteShape.
  rewrite bind_run, Hread, Hstep, bind_liftR_Ok, bind_run.
  by destruct (tldrawWrite path f' σ) as [σ' [msg|e]].
Qed.

Lemma tldrawAddShape_writes uuid path shape pageId σ f f' shapeId :
  tldrawRead path σ = (σ, Ok f) →
  addShape uuid f shape pageId = Ok (f', shapeId) →
  tldrawAddShape uuid path shape pageId σ
  = match tldrawWrite path f' σ with
    | (σ', Ok _) => (σ', Ok shapeId)
    | (σ', Err e) => (σ', Err e)
    end.
Proof.
  intros Hread Hstep. unfold tldrawAddShape.
  rewrite bind_run, Hread, Hstep, bind_liftR_Ok, bind_run.
  by destruct (tldrawWrite path f' σ) as [σ' [msg|e]].
Qed.

End ToolFacts.

(** * The program on sample inputs *)

Lemma securePath_sandbox_witness :
  @securePath rt0 "../../etc/passwd" = Err PathTraversal
  ∧ @securePath rt0 "/etc/x.tldr" = Ok "/etc/x.tldr".
Proof.
  destruct (@securePath_sandbox rt0 "../../etc/passwd") as [Hrel _].
  destruct (@securePath_sandbox rt0 "/etc/x.tldr") as [_ Habs].
  split.
  - apply Hrel; [reflexivity |]. left. right. reflexivity.
  - apply Habs. reflexivity.
Defined.

Lemma locateMarkdownTldrawBlock_cases_witness :
  locateMarkdownTldrawBlock (note_text " {} ")
  = Ok {| jsonStart := 58; jsonEnd := 62; jsonText := "{}" |}.
Proof.
  pose proof START_nonempty as HS. pose proof END_nonempty as HE.
  assert (Str.occurrences MARKDOWN_TLDRAW_START_MARKER (note_text " {} ") = [3])
    as HoS by (vm_compute; reflexivity).
  assert (Str.occurrences MARKDOWN_TLDRAW_END_MARKER (note_text " {} ") = [62])
    as HoE by (vm_compute; reflexivity).
  destruct (locateMarkdownTldrawBlock_cases (note_text " {} ")) as [_ Hfound].
  destruct (Hfound 3) as [_ Hnodup].
  { apply occurrences_spec; [done |]. rewrite HoS. by left. }
  { intros p Hp Ho. apply occurrences_spec in Ho; [| done].
    rewrite HoS in Ho. apply list_elem_of_singleton in Ho. lia. }
  destruct Hnodup as [_ Hend].
  { intros j Hj Ho. apply occurrences_spec in Ho; [| done].
    rewrite HoS in Ho. apply list_elem_of_singleton in Ho. simpl in Hj. lia. }
  destruct (Hend 62) as [_ Hblock].
  { simpl. lia. }
  { apply occurrences_spec; [done |]. rewrite HoE. by left. }
  { intros p _ Hp Ho. apply occurrences_spec in Ho; [| done].
    rewrite HoE in Ho. apply list_elem_of_singleton in Ho. lia. }
  destruct Hblock as [_ Hok].
  { intros j Hj Ho. apply occurrences_spec in Ho; [| done].
    rewrite HoE in Ho. apply list_elem_of_singleton in Ho. simpl in Hj. lia. }
  apply Hok. vm_compute. discriminate.
Defined.



(** The update of the specification's example, evaluated. *)
Example updateShape_color_red :
  updateShape doc1 "shape:s1" color_red = Ok (document_of [page1; shape1_red]).
Proof. reflexivity. Qed.

Lemma addShape_defaults_witness :
  (∃ record shapeId,
     addShape "0123456789abcdef" doc1 (JObj [("type", JStr "text")])
       (Some "page:p2")
       = Ok (Js.set doc1 "records" (JArr ([page1; shape1] ++ [record])),
             shapeId)
     ∧ Js.get record "parentId" = Some (JStr "page:p2"))
  ∧ ∃ record shapeId,
      addShape "0123456789abcdef" doc1 (JObj [("type", JStr "text")]) None
        = Ok (Js.set doc1 "records" (JArr ([page1; shape1] ++ [record])),
              shapeId)
      ∧ shapeId = JStr "shape:01234567"
      ∧ Js.get record "parentId" = Some (JStr "page:p1")
      ∧ Js.get record "x" = Some (JNum 0)
      ∧ Js.get record "isLocked" = Some (JBool false)
      ∧ Js.get record "opacity" = Some (JNum 1)
      ∧ Js.get record "index" = Some (JStr "a2").
Proof.
  destruct (addShape_defaults "0123456789abcdef" doc1 [page1; shape1]
              (JObj [("type", JStr "text")]) (Some "page:p2")
              eq_refl eq_refl)
    as [_ Hnamed].
  destruct (addShape_defaults "0123456789abcdef" doc1 [page1; shape1]
              (JObj [("type", JStr "text")]) None eq_refl eq_refl)
    as [_ Hadd].
  split.
  - destruct (Hnamed "page:p2")
      as (record & shapeId & Hrun & _ & _ & _ & _ & _ & Hparent & _).
    { left. split; [reflexivity | discriminate]. }
    exists record, shapeId. split; [exact Hrun | exact Hparent].
  - destruct (Hadd "page:p1")
      as (record & shapeId & Hrun & _ & _ & Hid & _ & _ & Hparent & Hx & _
          & _ & Hlock & Hopacity & Hindex).
    { right. split; [by left |]. exists 0, page1.
      split; [reflexivity |]. split; [reflexivity |].
      split; [intros j r Hj; lia | reflexivity]. }
    exists record, shapeId. split; [exact Hrun |].
    split; [exact (Hid eq_refl) |]. split; [exact Hparent |].
    split; [exact (Hx eq_refl) |]. split; [exact Hlock |].
    split; [exact Hopacity | exact Hindex].
Defined.

Lemma shape_operations_by_identity_witness :
  (∃ records',
     deleteShape doc1 "page:p1" = Ok (Js.set doc1 "records" (JArr records'))
     ∧ page1 ∉ records')
  ∧ (∃ target',
       updateShape doc1 "page:p1" (JObj rename_fields)
       = Ok (Js.set doc1 "records" (JArr [target'; shape1]))
       ∧ Js.get target' "name" = Some (JStr "Renamed")
       ∧ Js.get target' "props" = Some (JObj [("color", JStr "red")])
       ∧ Js.get target' "typeName" = Some (JStr "page")).
Proof.
  assert (Js.wf_fields rename_fields) as Hwf.
  { unfold Js.wf_fields. simpl. apply NoDup_cons. split.
    - intros Hin. apply list_elem_of_singleton in Hin. discriminate.
    - apply NoDup_singleton. }
  destruct (shape_operations_by_identity doc1 [page1; shape1] "page:p1"
              rename_fields page1 eq_refl eq_refl Hwf)
    as [(records' & Hdel & _ & Hgone & _)
        [(i & target & target' & Hi & Hid & Hfirst & _ & Hupd & Hkeys & Hkept
          & Hprops) _]];
    [by left | reflexivity | reflexivity |].
  assert (i = 0) as ->.
  { destruct i as [|j]; [done |].
    by specialize (Hfirst 0 page1 ltac:(lia) eq_refl). }
  injection Hi as <-.
  split; [exists records'; by split |].
  exists target'. split_and!.
  - exact Hupd.
  - by apply Hkeys.
  - by apply Hprops.
  - by rewrite Hkept.
Defined.

Lemma tldrawWrite_tldrawRead_plain_witness :
  ∃ σ',
    @tldrawWrite rt0 "a.tldr" doc1 ∅ = (σ', Ok "Successfully wrote: a.tldr")
    ∧ σ' !! "/home/u/.tldraw/a.tldr" = Some (File (Json.stringify doc1))
    ∧ @tldrawRead rt0 "a.tldr" σ' = (σ', Ok doc1).
Proof.
  destruct (@tldrawWrite_tldrawRead_plain rt0 ∅ "a.tldr"
              "/home/u/.tldraw/a.tldr" doc1
              (posix_jsonFaithful "/" "/home/u/.tldraw"))
    as [Hsucc Hread];
    [reflexivity | reflexivity | reflexivity | vm_compute; reflexivity
     | reflexivity | vm_compute; reflexivity |].
  destruct Hsucc as [σ' Hwrite];
    [vm_compute; reflexivity | by rewrite lookup_empty |].
  destruct (Hread σ' _ Hwrite) as (Hfile & _ & Hback).
  exists σ'. split; [exact Hwrite |]. split; [exact Hfile | exact Hback].
Defined.

(** Written to an empty store and read back, a valid document with a
    [raw] field of its own comes back as that field. *)
Lemma tldrawWrite_tldrawRead_raw_field :
  validateTldrawFile doc_with_raw = Ok doc_with_raw
  ∧ (@tldrawWrite rt0 "a.tldr" doc_with_raw ∅).2
    = Ok "Successfully wrote: a.tldr"
  ∧ (@tldrawRead rt0 "a.tldr" (@tldrawWrite rt0 "a.tldr" doc_with_raw ∅).1).2
    = Ok empty_v2
  ∧ empty_v2 ≠ doc_with_raw.
Proof. vm_compute. repeat split; discriminate. Qed.

Lemma tldrawWrite_keeps_container_witness :
  ∃ σ' out,
    @tldrawWrite rt0 "a.tldr" (JStr (Json.stringify doc1)) wrapped_store
      = (σ', Ok "Successfully wrote: a.tldr")
    ∧ σ' !! "/home/u/.tldraw/a.tldr" = Some (File (Json.stringify (JObj out)))
    ∧ Js.assoc "meta" out = Some (JStr "keep")
    ∧ Js.assoc "raw" out = Some doc1.
Proof.
  destruct (@tldrawWrite_keeps_container rt0 wrapped_store "a.tldr"
              "/home/u/.tldraw/a.tldr" (JStr (Json.stringify doc1))
              doc1 doc1 None
              (Json.stringify (JObj wrapped_fields)) wrapped_fields empty_v2)
    as (σ' & out & Hwrite & Hfile & Hkeep & Hraw & _);
    [reflexivity | reflexivity | reflexivity | vm_compute; reflexivity
     | vm_compute; reflexivity | | reflexivity | reflexivity
     | vm_compute; reflexivity | reflexivity |].
  { unfold Js.wf_fields. simpl. apply NoDup_cons. split.
    - intros Hin. apply list_elem_of_singleton in Hin. discriminate.
    - apply NoDup_singleton. }
  exists σ', out. split; [exact Hwrite |]. split; [exact Hfile |].
  split; [| exact Hraw]. rewrite Hkeep; [reflexivity | discriminate].
Defined.

(** Written over a wrapped file, a valid document with a [raw] field of
    its own leaves that field, not itself, under [raw].  Over a wrapped
    file directly under the root of the file system the write fails, in
    [ensureDir], and produces nothing. *)
Lemma tldrawWrite_keeps_container_raw_field :
  validateTldrawFile doc_with_raw = Ok doc_with_raw
  ∧ (@tldrawWrite rt0 "a.tldr" doc_with_raw wrapped_store).1
      !! "/home/u/.tldraw/a.tldr"
    = Some (File (Json.stringify
                    (JObj [("raw", empty_v2); ("meta", JStr "keep")])))
  ∧ empty_v2 ≠ doc_with_raw
  ∧ @securePath rt0 "/a.tldr" = Ok "/a.tldr"
  ∧ @containerOnDisk rt0 root_wrapped_store "/a.tldr"
    = Some (JObj wrapped_fields)
  ∧ (@tldrawWrite rt0 "/a.tldr" doc1 root_wrapped_store).2 = Err IOError.
Proof. vm_compute. repeat split; discriminate. Qed.

Lemma tldrawWrite_embedded_preserves_witness :
  ∃ σ',
    @tldrawWrite rt0 "n.md" doc1 (note_store (note_text (Json.stringify empty_v2)))
      = (σ', Ok "Successfully wrote: n.md")
    ∧ σ' !! "/home/u/.tldraw/n.md"
      = Some (File ("# t" +:+ MARKDOWN_TLDRAW_START_MARKER
                    +:+ (nl +:+ Json.stringify doc1 +:+ nl)
                    +:+ MARKDOWN_TLDRAW_END_MARKER +:+ "tail")).
Proof.
  destruct (@tldrawWrite_embedded_preserves rt0
              (note_store (note_text (Json.stringify empty_v2)))
              "n.md" "/home/u/.tldraw/n.md"
              doc1 doc1 None "# t" (Json.stringify empty_v2) "tail")
    as (σ' & res & mid' & Hwrite & Hfile & _ & _ & _ & Hdecodes);
    [reflexivity | reflexivity | reflexivity | reflexivity
     | vm_compute; reflexivity | vm_compute; reflexivity |].
  destruct (Hdecodes empty_v2 (empty_v2, None)) as [Hres Hmid];
    [vm_compute; discriminate | vm_compute; reflexivity | reflexivity |].
  exists σ'. split.
  - by rewrite Hwrite, Hres.
  - by rewrite Hfile, Hmid.
Defined.

(** A text file with the byte FF before its one block: the write
    succeeds, and the file has the three bytes EF BF BD in the place of
    that byte afterwards. *)
Lemma tldrawWrite_embedded_garbled :
  let σ' := (@tldrawWrite rt0 "n.md" doc1 garbled_store).1 in
  let before := Utf8.encode "# t" in
  let START := Utf8.encode MARKDOWN_TLDRAW_START_MARKER in
  let END_ := Utf8.encode MARKDOWN_TLDRAW_END_MARKER in
  (@tldrawWrite rt0 "n.md" doc1 garbled_store).2
    = Ok "Successfully wrote: n.md"
  ∧ garbled_store !! "/home/u/.tldraw/n.md" ≫= bytesOf
    = Some (before ++ [Utf8.byte_of_nat 255] ++ START
            ++ Utf8.encode (Json.stringify empty_v2) ++ END_
            ++ Utf8.encode "tail")
  ∧ σ' !! "/home/u/.tldraw/n.md" ≫= bytesOf
    = Some (before
            ++ [Utf8.byte_of_nat 239; Utf8.byte_of_nat 191;
                Utf8.byte_of_nat 189] ++ START
            ++ Utf8.encode (nl +:+ Json.stringify doc1 +:+ nl) ++ END_
            ++ Utf8.encode "tail").
Proof. vm_compute. repeat split; reflexivity. Qed.

(** A write into a text file whose block decodes. *)
Example tldrawWrite_embedded_success :
  let text := note_text (Json.stringify empty_v2) in
  (@tldrawWrite rt0 "n.md" doc1 (note_store text)).2
    = Ok "Successfully wrote: n.md"
  ∧ (@tldrawWrite rt0 "n.md" doc1 (note_store text)).1 !! "/home/u/.tldraw/n.md"
    = Some (File (note_text (nl +:+ Json.stringify doc1 +:+ nl))).
Proof. vm_compute. split; reflexivity. Qed.

Lemma tldrawWrite_existing_best_effort_witness :
  (∃ σ',
     @tldrawWrite rt0 "a.tldr" (JStr (Json.stringify doc1)) unreadable_store
     = (σ', Ok "Successfully wrote: a.tldr")
     ∧ σ' !! "/home/u/.tldraw/a.tldr" = Some (File (Json.stringify doc1)))
  ∧ @tldrawWrite rt0 "n.md" doc1 ∅ = (∅, Err NotFound).
Proof.
  destruct (@tldrawWrite_existing_best_effort rt0 unreadable_store
              "a.tldr" "/home/u/.tldraw/a.tldr"
              (JStr (Json.stringify doc1)) doc1 doc1 None
              eq_refl) as [Htldr _];
    [vm_compute; reflexivity | reflexivity |].
  destruct (@tldrawWrite_existing_best_effort rt0 ∅
              "n.md" "/home/u/.tldraw/n.md" doc1 doc1 doc1 None
              eq_refl eq_refl eq_refl) as [_ Hmd].
  split.
  - destruct (Htldr eq_refl) as (_ & Hnone & Hwrite & _).
    destruct Hwrite as (σ' & Hrun & Hfile);
      [vm_compute; reflexivity | by vm_compute |].
    exists σ'. split; [exact Hrun |]. rewrite Hfile, Hnone; [reflexivity |].
    right; right. exists (Garbled "{" "}"), ("{" +:+ Utf8.replacement +:+ "}").
    split; [reflexivity |]. split; [reflexivity |]. left.
    vm_compute. reflexivity.
  - destruct (Hmd eq_refl) as [Hnone _]. apply Hnone. reflexivity.
Defined.

(** On an [.md] path the file already there is not looked at on a
    best-effort basis: a text without a block, and a block that is not
    JSON, both make the write fail.  On a [.tldr] path a directory at
    the target is passed over by the look and then makes the write
    fail, and so does a target directly under the root of the file
    system. *)
Lemma tldrawWrite_existing_fails :
  (@tldrawWrite rt0 "n.md" doc1 (note_store "# nothing here")).2
    = Err (MissingBlock StartMarker)
  ∧ (@tldrawWrite rt0 "n.md" doc1 (note_store (note_text " not json "))).2
    = Err MalformedContent
  ∧ (@getWrappedContainerForTldraw rt0 "/home/u/.tldraw/a.tldr" dir_store).2
    = Ok None
  ∧ (@tldrawWrite rt0 "a.tldr" doc1 dir_store).2 = Err IOError
  ∧ (@tldrawWrite rt0 "/a.tldr" doc1 ∅).2 = Err IOError.
Proof. vm_compute. repeat split; reflexivity. Qed.

(** Deleting the page record of a stored document through the tool, then
    reading the file back. *)
Example tldrawDeleteShape_page :
  let store := (@tldrawWrite rt0 "a.tldr" doc1 ∅).1 in
  (@tldrawDeleteShape rt0 "a.tldr" "page:p1" store).2
    = Ok "Deleted shape: page:p1"
  ∧ (@tldrawRead rt0 "a.tldr"
       (@tldrawDeleteShape rt0 "a.tldr" "page:p1" store).1).2
    = Ok (document_of [shape1])
  ∧ (@tldrawDeleteShape rt0 "a.tldr" "shape:none" store).2
    = Err ShapeNotFound.
Proof. vm_compute. repeat split; reflexivity. Qed.

(** * More of the program *)

(** ** Documents under the shape operations *)

Section RepositoryFacts.
Implicit Types (f shape : json) (records : list json).

Lemma assoc_set_same k v fs : Js.assoc k fs = Some v → Js.assoc_set k v fs = fs.
Proof.
  induction fs as [|[k' v'] fs IH]; simpl; [done |].
  destruct (String.eqb_spec k k') as [->|Hne].
  - by intros [= ->].
  - intros Hk. by rewrite IH.
Qed.

Lemma documentOk_set_records fs records' :
  documentOk (JObj fs) = true →
  forallb recordOk records' = true →
  documentOk (Js.set (JObj fs) "records" (JArr records')) = true.
Proof.
  unfold documentOk. intros Hok Hall.
  destruct (Js.get (JObj fs) "records") as [[]|] eqn:Hrec;
    try (by rewrite !andb_false_r in Hok).
  repeat (apply andb_prop in Hok as [Hok ?]).
  rewrite get_set_eq, Hall, !get_set_ne by done.
  simpl in *. by rewrite H0, H1, H2.
Qed.

Lemma documentOk_forallb f records :
  documentOk f = true → Js.get f "records" = Some (JArr records) →
  forallb recordOk records = true.
Proof.
  unfold documentOk. intros Hok Hrec. rewrite Hrec in Hok.
  by apply andb_prop in Hok as [_ ?].
Qed.

Lemma orDefault_truthy o d : Js.truthy d = true → Js.truthy (orDefault o d) = true.
Proof.
  intros Hd. unfold orDefault. destruct o as [v|]; [| done].
  by destruct (Js.truthy v) eqn:Hv.
Qed.

Lemma newShape_recordOk shape shapeId target n :
  Js.truthy shapeId = true → recordOk (newShape shape shapeId target n) = true.
Proof. intros Hid. unfold recordOk, newShape. simpl. by rewrite Hid. Qed.

Lemma newShape_isShape shape shapeId target n :
  isShape (newShape shape shapeId target n) = true.
Proof. reflexivity. Qed.

Lemma getShapes_records f records pageId :
  Js.get f "records" = Some (JArr records) →
  getShapes f pageId =
    Ok (match pageGiven pageId with
        | Some p => filter (fun r => Js.is_str (Js.get r "parentId") p)
                      (filter (fun r => isShape r) records)
        | None => filter (fun r => isShape r) records
        end).
Proof.
  intros Hrec. unfold getShapes, withRecords. rewrite Hrec.
  by destruct (pageGiven pageId).
Qed.

(** What [addShape] returns on a decoded document. *)
Lemma addShape_run uuid f records shape pageId f' shapeId :
  documentOk f = true →
  Js.get f "records" = Some (JArr records) →
  addShape uuid f shape pageId = Ok (f', shapeId) →
  ∃ target record,
    targetPage records pageId = Ok target
    ∧ record = newShape shape shapeId target
                 (length (filter (fun r => isShape r) records))
    ∧ Js.truthy shapeId = true
    ∧ f' = Js.set f "records" (JArr (records ++ [record]))
    ∧ Js.get f' "records" = Some (JArr (records ++ [record])).
Proof.
  intros Hok Hrec. unfold addShape, withRecords. rewrite Hrec.
  destruct (targetPage records pageId) as [target|e]; [| done].
  cbn [mbind result_bind]. intros [= <- <-].
  destruct (documentOk_records f records Hok Hrec) as [[fs ->] _].
  eexists _, _. split; [done |]. split; [done |].
  split; [by apply orDefault_truthy |]. split; [done |]. apply get_set_eq.
Qed.

End RepositoryFacts.

Lemma documentOk_get_records f :
  documentOk f = true → ∃ records, Js.get f "records" = Some (JArr records).
Proof.
  unfold documentOk. intros Hok. apply andb_prop in Hok as [_ Hrec].
  destruct (Js.get f "records") as [[]|]; try done. by eexists.
Qed.

(** X1: after [addShape] the document still passes the validator, and
    [getShapes] without a page filter returns the shapes it returned
    before followed by the new record, whose identity is the one
    [addShape] returned; with the target page as filter the new record
    is returned too. *)
Theorem addShape_then_getShapes (uuid : string) (f : json)
    (fields : list (string * json)) (pageId : option string)
    (f' shapeId : json) :
  documentOk f = true →
  addShape uuid f (JObj fields) pageId = Ok (f', shapeId) →
  documentOk f' = true
  ∧ ∃ record,
      Js.get record "id" = Some shapeId
      ∧ isShape record = true
      ∧ (∀ shapes, getShapes f None = Ok shapes →
           getShapes f' None = Ok (shapes ++ [record]))
      ∧ (∀ p shapes, Js.get record "parentId" = Some (JStr p) → p ≠ "" →
           getShapes f (Some p) = Ok shapes →
           getShapes f' (Some p) = Ok (shapes ++ [record])).
Proof.
  intros Hok Hadd.
  destruct (documentOk_get_records f Hok) as [records Hrec].
  destruct (addShape_run uuid f records (JObj fields) pageId f' shapeId Hok Hrec Hadd)
    as (target & record & _ & -> & Hid & -> & Hrec').
  destruct (documentOk_records f records Hok Hrec) as [[fs ->] _].
  split.
  - apply documentOk_set_records; [done |].
    rewrite forallb_app, (documentOk_forallb _ _ Hok Hrec). simpl.
    by rewrite newShape_recordOk.
  - exists (newShape (JObj fields) shapeId target
              (length (filter (fun r => isShape r) records))).
    split; [reflexivity |]. split; [reflexivity |]. split.
    + intros shapes. rewrite (getShapes_records _ _ None Hrec).
      rewrite (getShapes_records _ _ None Hrec'). simpl.
      intros [= <-]. by rewrite filter_app.
    + intros p shapes Hparent Hp.
      rewrite (getShapes_records _ _ (Some p) Hrec).
      rewrite (getShapes_records _ _ (Some p) Hrec'). simpl.
      apply String.eqb_neq in Hp as ->. intros [= <-].
      rewrite !filter_app. do 2 f_equal.
      rewrite filter_cons_True by done.
      rewrite filter_cons_True; [done |].
      rewrite Hparent. simpl. by rewrite String.eqb_refl.
Qed.

Lemma addShape_then_getShapes_witness :
  ∃ f' shapeId record,
    addShape "0123456789abcdef" doc1 (JObj [("type", JStr "text")]) None
      = Ok (f', shapeId)
    ∧ documentOk f' = true
    ∧ getShapes f' None = Ok ([shape1] ++ [record])
    ∧ Js.get record "id" = Some shapeId.
Proof.
  destruct (addShape "0123456789abcdef" doc1 (JObj [("type", JStr "text")]) None)
    as [[f' shapeId]|e] eqn:Hadd; [| by vm_compute in Hadd].
  destruct (addShape_then_getShapes "0123456789abcdef" doc1
              [("type", JStr "text")] None f' shapeId eq_refl Hadd)
    as (Hok & record & Hid & _ & Hall & _).
  exists f', shapeId, record. split; [done |]. split; [done |].
  split; [by apply Hall | done].
Defined.

Lemma filter_bool_cons (p : json → bool) (r : json) (l : list json) :
  filter (fun x => p x) (r :: l)
  = if p r then r :: filter (fun x => p x) l else filter (fun x => p x) l.
Proof.
  rewrite filter_cons. destruct (p r) eqn:Hp.
  - by rewrite decide_True by done.
  - by rewrite decide_False by (by intros []).
Qed.

Lemma filter_bool_comm (p q : json → bool) (l : list json) :
  filter (fun x => p x) (filter (fun x => q x) l)
  = filter (fun x => q x) (filter (fun x => p x) l).
Proof.
  induction l as [|r l IH]; [done |].
  rewrite !filter_bool_cons.
  destruct (p r) eqn:Hp, (q r) eqn:Hq; rewrite ?filter_bool_cons, ?Hp, ?Hq;
    by rewrite IH.
Qed.

Lemma forallb_filter_bool (p q : json → bool) (l : list json) :
  forallb p l = true → forallb p (filter (fun x => q x) l) = true.
Proof.
  induction l as [|r l IH]; [done |]. simpl.
  intros [Hr Hl]%andb_prop. rewrite filter_bool_cons.
  destruct (q r); simpl; [rewrite Hr |]; by apply IH.
Qed.

Lemma deleteShape_run f records shapeId f' :
  Js.get f "records" = Some (JArr records) →
  deleteShape f shapeId = Ok f' →
  f' = Js.set f "records"
         (JArr (filter (fun r => negb (hasId shapeId r)) records)).
Proof.
  intros Hrec. unfold deleteShape, withRecords. rewrite Hrec.
  destruct (Nat.eqb _ _); [done |]. by intros [= <-].
Qed.

(** X2: after [deleteShape] the document still passes the validator,
    [getShapes] returns what it returned before without the records of
    the deleted identity, in the same order, and a second [deleteShape]
    of that identity fails with [ShapeNotFound]. *)
Theorem deleteShape_then_getShapes (f : json) (shapeId : string) (f' : json)
    (pageId : option string) :
  documentOk f = true →
  deleteShape f shapeId = Ok f' →
  documentOk f' = true
  ∧ (∀ shapes, getShapes f pageId = Ok shapes →
       getShapes f' pageId
       = Ok (filter (fun r => negb (hasId shapeId r)) shapes))
  ∧ deleteShape f' shapeId = Err ShapeNotFound.
Proof.
  intros Hok Hdel.
  destruct (documentOk_get_records f Hok) as [records Hrec].
  rewrite (deleteShape_run f records shapeId f' Hrec Hdel).
  destruct (documentOk_records f records Hok Hrec) as [[fs ->] _].
  set (records' := filter (fun r => negb (hasId shapeId r)) records).
  assert (Js.get (Js.set (JObj fs) "records" (JArr records')) "records"
          = Some (JArr records')) as Hrec' by apply get_set_eq.
  split; [| split].
  - apply documentOk_set_records; [done |].
    apply forallb_filter_bool. by eapply documentOk_forallb.
  - intros shapes.
    rewrite (getShapes_records _ _ pageId Hrec).
    rewrite (getShapes_records _ _ pageId Hrec'). unfold records'.
    intros [= <-]. f_equal. destruct (pageGiven pageId) as [p|].
    + rewrite (filter_bool_comm isShape).
      by rewrite (filter_bool_comm (fun r => Js.is_str (Js.get r "parentId") p)).
    + apply (filter_bool_comm isShape).
  - apply (deleteShape_absent _ records'); [done |].
    intros r [Hr _]%list_elem_of_filter.
    by destruct (hasId shapeId r).
Qed.

Lemma deleteShape_then_getShapes_witness :
  ∃ f',
    deleteShape doc1 "shape:s1" = Ok f'
    ∧ documentOk f' = true
    ∧ getShapes f' None = Ok []
    ∧ deleteShape f' "shape:s1" = Err ShapeNotFound.
Proof.
  destruct (deleteShape doc1 "shape:s1") as [f'|e] eqn:Hdel;
    [| by vm_compute in Hdel].
  destruct (deleteShape_then_getShapes doc1 "shape:s1" f' None eq_refl Hdel)
    as (Hok & Hget & Hagain).
  exists f'. split; [done |]. split; [done |]. split; [| done].
  by rewrite (Hget [shape1] eq_refl).
Defined.

Lemma forallb_insert_bool (p : json → bool) (l : list json) i x :
  forallb p l = true → p x = true → forallb p (<[i := x]> l) = true.
Proof.
  revert i. induction l as [|r l IH]; intros i; [done |]. simpl.
  intros [Hr Hl]%andb_prop Hx. destruct i as [|i]; simpl.
  - by rewrite Hx.
  - rewrite Hr. by apply IH.
Qed.

Lemma updateShape_run f records shapeId updates f' :
  Js.get f "records" = Some (JArr records) →
  updateShape f shapeId updates = Ok f' →
  ∃ i shape,
    records !! i = Some shape ∧ hasId shapeId shape = true
    ∧ f' = Js.set f "records"
             (JArr (<[i := updateLoop updates shape]> records)).
Proof.
  intros Hrec. unfold updateShape, withRecords. rewrite Hrec.
  destruct (findIndex (hasId shapeId) records) as [i|] eqn:E; [| done].
  destruct (findIndex_Some _ _ _ E) as (shape & Hi & Hid & _).
  rewrite Hi. intros Hupd. exists i, shape. split_and!; try done.
  destruct updates; (discriminate || by injection Hupd as <-).
Qed.

(** X3: [updateShape] rewrites one record and nothing else: the record
    sequence keeps its length and every other record, and the other
    fields of the document stay.  With no key in [updates] the document
    is unchanged, and unless [updates] assigns [id] or [typeName] the
    document still passes the validator. *)
Theorem updateShape_frame (f : json) (shapeId : string)
    (fields : list (string * json)) (f' : json) :
  documentOk f = true →
  updateShape f shapeId (JObj fields) = Ok f' →
  ∃ records records' i,
    Js.get f "records" = Some (JArr records)
    ∧ Js.get f' "records" = Some (JArr records')
    ∧ length records' = length records
    ∧ (∀ j, j ≠ i → records' !! j = records !! j)
    ∧ (∀ k, k ≠ "records" → Js.get f' k = Js.get f k)
    ∧ (fields = [] → f' = f)
    ∧ (Js.assoc "id" fields = None →
       Js.assoc "typeName" fields = None →
       documentOk f' = true).
Proof.
  intros Hok Hupd.
  destruct (documentOk_get_records f Hok) as [records Hrec].
  destruct (updateShape_run f records shapeId (JObj fields) f' Hrec Hupd)
    as (i & shape & Hi & Hid & ->).
  destruct (documentOk_records f records Hok Hrec) as [[fs ->] Hall].
  eexists records, _, i. split; [done |]. split; [apply get_set_eq |].
  split; [apply length_insert |]. split; [| split; [| split]].
  - intros j Hj. by apply list_lookup_insert_ne.
  - intros k Hk. by apply get_set_ne.
  - intros ->. simpl. rewrite list_insert_id by done.
    simpl. f_equal. by apply assoc_set_same.
  - intros Hnoid Hnotype. apply documentOk_set_records; [done |].
    apply forallb_insert_bool; [by eapply documentOk_forallb |].
    unfold recordOk, updateLoop.
    rewrite !fold_updateStep_other by (by apply assoc_None_notin).
    apply (Hall shape). by eapply list_elem_of_lookup_2.
Qed.

Lemma updateShape_frame_witness :
  ∃ f' records',
    updateShape doc1 "shape:s1" color_red = Ok f'
    ∧ Js.get f' "records" = Some (JArr records')
    ∧ length records' = 2
    ∧ documentOk f' = true.
Proof.
  destruct (updateShape doc1 "shape:s1" color_red) as [f'|e] eqn:Hupd;
    [| by vm_compute in Hupd].
  destruct (updateShape_frame doc1 "shape:s1"
              [("props", JObj [("color", JStr "red")])] f' eq_refl Hupd)
    as (records & records' & i & Hrec & Hrec' & Hlen & _ & _ & _ & Hvalid).
  injection Hrec as <-.
  exists f', records'. split; [done |]. split; [done |].
  split; [done | by apply Hvalid].
Defined.

(** ** What a decoded document is *)

Section DecodeFacts.
Context `{NodeRuntime}.
Implicit Types (σ : gmap string node) (path filepath : string).

(** What [normalizeTldrawPayload] returns: a document that passes the
    validator, alone when the payload has no [raw] field, else with the
    payload as its container. *)
Lemma normalizeTldrawPayload_inv data d w :
  normalizeTldrawPayload data = Ok (d, w) →
  documentOk d = true
  ∧ (Js.has data "raw" = false ∧ w = None ∧ d = data
     ∨ Js.has data "raw" = true ∧ w = Some data
       ∧ Js.get data "raw" = Some d).
Proof.
  unfold normalizeTldrawPayload.
  destruct (negb _ || negb _); [done |].
  destruct (Js.has data "raw") eqn:Hraw.
  - destruct (negb _ || negb _); [done |].
    destruct (Js.get data "raw") as [raw|]; [| done].
    destruct (validateTldrawFile raw) as [f|] eqn:Hv; [| done].
    apply validateTldrawFile_ok in Hv as [Hok ->].
    intros [= <- <-]. split; [done |]. right. done.
  - destruct (validateTldrawFile data) as [f|] eqn:Hv; [| done].
    apply validateTldrawFile_ok in Hv as [Hok ->].
    intros [= <- <-]. split; [done |]. left. done.
Qed.

(** What a successful decode has gone through. *)
Lemma parseTldrawContent_inv path σ σ' parsed :
  parseTldrawContent path σ = (σ', Ok parsed) →
  σ' = σ
  ∧ ∃ filepath content data,
      securePath path = Ok filepath
      ∧ isReadableTldrawPath filepath = true
      ∧ σ !! filepath ≫= textOf = Some content
      ∧ normalizeTldrawPayload data
        = Ok (file parsed, wrappedContainer parsed)
      ∧ (if Str.endsWith filepath ".md"
         then storageFormat parsed = EmbeddedMarkdown
              ∧ ∃ block, locateMarkdownTldrawBlock content = Ok block
                         ∧ JSON_parse (jsonText block) = Some data
         else storageFormat parsed
              = match wrappedContainer parsed with
                | Some _ => WrappedJson
                | None => PlainJson
                end
              ∧ JSON_parse content = Some data).
Proof.
  unfold parseTldrawContent. rewrite bind_run. unfold liftR at 1.
  destruct (securePath path) as [filepath|e]; [| done].
  destruct (isReadableTldrawPath filepath) eqn:Hread; [| done]. cbn [negb].
  rewrite bind_run. unfold existsSync.
  destruct (bool_decide (is_Some (σ !! filepath))); [| done]. cbn [negb].
  rewrite bind_run. unfold readFile.
  destruct (σ !! filepath ≫= textOf) as [content|] eqn:Hfile.
  2: { by destruct (σ !! filepath) as [[c| |before after]|]. }
  assert (match σ !! filepath with
          | Some (File c) => (σ, Ok c)
          | Some (Garbled before after) =>
              (σ, Ok (before +:+ Utf8.replacement +:+ after))
          | _ => (σ, Err IOError)
          end = (σ, Ok content)) as ->.
  { destruct (σ !! filepath) as [[c| |before after]|]; try done;
      by injection Hfile as <-. }
  destruct (Str.endsWith filepath ".md") eqn:Hmd.
  - rewrite bind_run. unfold liftR at 1.
    destruct (locateMarkdownTldrawBlock content) as [block|e] eqn:Hloc;
      [| done].
    rewrite bind_run. unfold liftR at 1, parseJsonContent.
    destruct (JSON_parse (jsonText block)) as [data|] eqn:Hparse; [| done].
    rewrite bind_run. unfold liftR at 1.
    destruct (normalizeTldrawPayload data) as [[f w]|e] eqn:Hnorm; [| done].
    intros [= <- <-]. split; [done |].
    exists filepath, content, data. rewrite Hmd. simpl.
    split_and!; try done. by exists block.
  - rewrite bind_run. unfold liftR at 1, parseJsonContent.
    destruct (JSON_parse content) as [data|] eqn:Hparse; [| done].
    rewrite bind_run. unfold liftR at 1.
    destruct (normalizeTldrawPayload data) as [[f w]|e] eqn:Hnorm; [| done].
    intros [= <- <-]. split; [done |].
    exists filepath, content, data. rewrite Hmd. simpl.
    by split_and!.
Qed.

Lemma tldrawRead_inv path σ σ' f :
  tldrawRead path σ = (σ', Ok f) →
  ∃ parsed, parseTldrawContent path σ = (σ', Ok parsed) ∧ file parsed = f.
Proof.
  unfold tldrawRead. rewrite bind_run.
  destruct (parseTldrawContent path σ) as [σ0 [parsed|e]]; [| done].
  intros [= <- <-]. by exists parsed.
Qed.

(** A content that does not normalise is refused before the disk is
    looked at. *)
Lemma tldrawWrite_refuses path filepath content e σ :
  securePath path = Ok filepath →
  isReadableTldrawPath filepath = true →
  match content with JStr _ => False | _ => True end →
  normalizeTldrawPayload content = Err e →
  tldrawWrite path content σ = (σ, Err e).
Proof.
  intros Hpath Hread Hstr Hnorm. unfold tldrawWrite.
  rewrite Hpath, bind_liftR_Ok, Hread. cbn [negb].
  destruct content; try done; by rewrite bind_liftR_Ok, Hnorm.
Qed.

End DecodeFacts.

(** X4: whatever [parseTldrawContent] returns has passed the validator,
    a container it returns holds the document under [raw], the format
    is [plain-json] only without a container, and the file system is
    left as it was, whether the decode succeeds or fails. *)
Theorem parseTldrawContent_validated `{NodeRuntime}
    (path : string) (σ : gmap string node) :
  (parseTldrawContent path σ).1 = σ
  ∧ ∀ parsed,
      (parseTldrawContent path σ).2 = Ok parsed →
      documentOk (file parsed) = true
      ∧ (∀ c, wrappedContainer parsed = Some c →
              Js.get c "raw" = Some (file parsed))
      ∧ (storageFormat parsed = PlainJson → wrappedContainer parsed = None)
      ∧ (storageFormat parsed = WrappedJson →
         is_Some (wrappedContainer parsed)).
Proof.
  split; [apply parseTldrawContent_reads |].
  intros parsed Hres.
  destruct (parseTldrawContent path σ) as [σ' res] eqn:Hrun.
  simpl in Hres. subst res.
  destruct (parseTldrawContent_inv path σ σ' parsed Hrun)
    as (_ & filepath & content & data & _ & _ & _ & Hnorm & Hfmt).
  destruct (normalizeTldrawPayload_inv _ _ _ Hnorm)
    as (Hok & [(_ & Hw & _) | (_ & Hw & Hraw)]).
  - split; [done |]. rewrite Hw. split; [done |]. split; [done |].
    destruct (Str.endsWith filepath ".md"); destruct Hfmt as [Hf _];
      rewrite Hf, ?Hw; done.
  - split; [done |]. rewrite Hw. split; [by intros c [= <-] |].
    split; [| by eexists].
    destruct (Str.endsWith filepath ".md"); destruct Hfmt as [Hf _];
      rewrite Hf, ?Hw; done.
Qed.

(** ** An update the validator refuses *)

Lemma validateRecords_bad l1 x l2 :
  forallb recordOk l1 = true → x ≠ JNull → recordOk x = false →
  validateRecords (l1 ++ x :: l2)
  = Err (InvalidDocument RecordMissingIdOrTypeName).
Proof.
  intros Hl1 Hx Hbad. induction l1 as [|r l1 IH]; simpl.
  - unfold recordOk in Hbad. destruct x; try done;
      by rewrite <- negb_andb, Hbad.
  - simpl in Hl1. apply andb_prop in Hl1 as [Hr Hl1].
    pose proof Hr as Hr'. unfold recordOk in Hr'.
    destruct r; try done; by rewrite <- negb_andb, Hr', IH.
Qed.

Lemma validateTldrawFile_set_records fs rs :
  documentOk (JObj fs) = true →
  validateTldrawFile (Js.set (JObj fs) "records" (JArr rs))
  = (_ ← validateRecords rs; Ok (Js.set (JObj fs) "records" (JArr rs))).
Proof.
  unfold documentOk. intros Hok.
  destruct (Js.get (JObj fs) "records") as [[]|] eqn:Hrec;
    try (by rewrite !andb_false_r in Hok).
  repeat (apply andb_prop in Hok as [Hok ?]).
  unfold validateTldrawFile.
  rewrite get_set_eq, !get_set_ne by done. simpl in *.
  by rewrite H0, H1, H2.
Qed.

(** X5: an update that gives the record a falsy [id] finds the record
    and is then refused by the validator when the tool writes: the tool
    fails with [InvalidDocument] and the file system is left as it
    was. *)
Theorem tldrawUpdateShape_blank_id `{NodeRuntime}
    (σ : gmap string node) (path shapeId : string) (f updates v : json)
    (records : list json) (r : json) :
  tldrawRead path σ = (σ, Ok f) →
  Js.has f "raw" = false →
  Js.get f "records" = Some (JArr records) →
  r ∈ records → hasId shapeId r = true →
  Js.wf_fields (Js.entries updates) →
  Js.assoc "id" (Js.entries updates) = Some v →
  Js.truthy v = false →
  tldrawUpdateShape path shapeId updates σ
  = (σ, Err (InvalidDocument RecordMissingIdOrTypeName)).
Proof.
  intros Hread Hraw Hrec Hin Hid Hwf Hv Hfalsy.
  destruct (tldrawRead_inv path σ σ f Hread) as (parsed & Hparse & <-).
  destruct (parseTldrawContent_inv path σ σ parsed Hparse)
    as (_ & filepath & content & data & Hpath & Hreadable & _ & Hnorm & _).
  destruct (normalizeTldrawPayload_inv _ _ _ Hnorm) as [Hok _].
  assert (updates ≠ JNull) as Hnull by (by intros ->).
  destruct (updateShape_found (file parsed) records shapeId updates r
              Hrec Hnull Hin Hid) as (i & shape & Hi & _ & _ & Hupd).
  destruct (documentOk_records _ records Hok Hrec) as [[fs Hfs] Hall].
  rewrite Hfs in *.
  destruct (recordOk_obj shape) as [sfs ->];
    [by eapply Hall, list_elem_of_lookup_2 |].
  rewrite (tldrawUpdateShape_writes path shapeId updates σ _ _ Hread Hupd).
  set (shape' := updateLoop updates (JObj sfs)) in *.
  rewrite (tldrawWrite_refuses path filepath _
             (InvalidDocument RecordMissingIdOrTypeName)); try done.
  unfold normalizeTldrawPayload. simpl Js.truthy. simpl Js.typeof_object.
  cbn [negb orb].
  assert (Js.has (Js.set (JObj fs) "records" (JArr (<[i:=shape']> records)))
            "raw" = false) as ->.
  { unfold Js.has in *. by rewrite get_set_ne. }
  rewrite validateTldrawFile_set_records by done.
  rewrite insert_take_drop by (by eapply lookup_lt_Some).
  rewrite validateRecords_bad; [done | | |].
  - apply forallb_forall. intros x Hx%list_elem_of_In.
    apply Hall. rewrite <- (take_drop i records). apply elem_of_app. by left.
  - destruct (updateLoop_spec sfs updates Hwf) as ([sfs' Hs'] & _).
    unfold shape'. by rewrite Hs'.
  - unfold recordOk.
    destruct (updateLoop_spec sfs updates Hwf) as (_ & Hkeys & _).
    unfold shape'. rewrite (Hkeys "id" v) by done.
    simpl. by rewrite Hfalsy.
Qed.

Lemma tldrawUpdateShape_blank_id_witness :
  @tldrawUpdateShape rt0 "a.tldr" "shape:s1" (JObj [("id", JStr "")])
    plain_store
  = (plain_store, Err (InvalidDocument RecordMissingIdOrTypeName)).
Proof.
  apply (@tldrawUpdateShape_blank_id rt0 plain_store "a.tldr" "shape:s1"
           doc1 (JObj [("id", JStr "")]) (JStr "") [page1; shape1] shape1);
    [vm_compute; reflexivity | reflexivity | reflexivity | by right; left
     | reflexivity | apply NoDup_singleton | reflexivity | reflexivity].
Defined.

(** ** The document factory *)

Lemma createEmptyTldrawFile_records name uuid :
  ∃ document page state camera,
    Js.get (createEmptyTldrawFile name uuid) "records"
      = Some (JArr [document; page; state; camera])
    ∧ isPage document = false ∧ isPage page = true
    ∧ isShape document = false ∧ isShape page = false
    ∧ isShape state = false ∧ isShape camera = false
    ∧ Js.get page "id" = Some (JStr ("page:" +:+ Str.slice uuid 0 8))
    ∧ Js.get document "name" = Some (JStr name).
Proof. unfold createEmptyTldrawFile. do 4 eexists. by split_and!. Qed.

(** X6: for every name and random identifier the fresh document passes
    the validator and is taken as a bare document by the payload
    normaliser; it has no shapes, and its one page is the first page
    record, with the identity [page:] followed by the first eight
    characters of the identifier. *)
Theorem createEmptyTldrawFile_valid (name uuid : string) :
  let f := createEmptyTldrawFile name uuid in
  validateTldrawFile f = Ok f
  ∧ normalizeTldrawPayload f = Ok (f, None)
  ∧ getShapes f None = Ok []
  ∧ ∃ records page,
      Js.get f "records" = Some (JArr records)
      ∧ filter (fun r => isPage r) records = [page]
      ∧ Js.get page "id" = Some (JStr ("page:" +:+ Str.slice uuid 0 8)).
Proof.
  intros f. assert (documentOk f = true) as Hok by reflexivity.
  split; [by apply validateTldrawFile_ok |].
  split.
  { unfold normalizeTldrawPayload.
    assert (validateTldrawFile f = Ok f) as -> by (by apply validateTldrawFile_ok).
    reflexivity. }
  split; [reflexivity |].
  eexists _, _. split; [reflexivity |]. split; reflexivity.
Qed.

(** X7: a shape added to a fresh document without naming a page never
    fails with [NoPages]: it lands on the page of the document, with the
    ordering key [a1], and is the only shape afterwards. *)
Theorem addShape_on_created (name uuid uuid' : string)
    (fields : list (string * json)) :
  ∃ f' shapeId record,
    addShape uuid' (createEmptyTldrawFile name uuid) (JObj fields) None
      = Ok (f', shapeId)
    ∧ getShapes f' None = Ok [record]
    ∧ Js.get record "id" = Some shapeId
    ∧ Js.get record "parentId"
      = Some (JStr ("page:" +:+ Str.slice uuid 0 8))
    ∧ Js.get record "index" = Some (JStr "a1")
    ∧ documentOk f' = true.
Proof.
  eexists _, _, _. split; [reflexivity |].
  split; [reflexivity |]. split; [reflexivity |].
  split; [reflexivity |]. split; [reflexivity |].
  unfold createEmptyTldrawFile.
  apply documentOk_set_records; [reflexivity |].
  rewrite forallb_app. apply andb_true_intro. split; [reflexivity |].
  cbn [forallb]. rewrite newShape_recordOk; [done |].
  by apply orDefault_truthy.
Qed.

(** ** The text extractor *)

Section TextFacts.
Implicit Types (s a b m : string).

Lemma toLowerCase_app a b :
  Text.toLowerCase (a +:+ b) = Text.toLowerCase a +:+ Text.toLowerCase b.
Proof.
  induction a as [|c a IH]; [done |].
  rewrite append_cons. simpl. by rewrite IH.
Qed.

Lemma index_0_empty s : String.index 0 "" s = Some 0.
Proof. by destruct s. Qed.

Lemma substring_app_keep s b i n :
  i + n ≤ String.length s →
  String.substring i n (s +:+ b) = String.substring i n s.
Proof.
  revert i n. induction s as [|c s IH]; intros i n Hlen.
  - simpl in Hlen. assert (i = 0) as -> by lia. assert (n = 0) as -> by lia.
    rewrite append_nil_l. by destruct b.
  - rewrite append_cons. destruct i as [|i], n as [|n]; simpl in *; try done.
    + f_equal. apply (IH 0 n). lia.
    + apply (IH i 0). lia.
    + apply (IH i (S n)). lia.
Qed.

Lemma occurs_length m s i :
  m ≠ "" → Str.occurs m s i → i + String.length m ≤ String.length s.
Proof.
  intros Hm Ho. unfold Str.occurs in Ho.
  pose proof (length_substring s i (String.length m)) as Hlen.
  rewrite Ho in Hlen. symmetry in Hlen. apply Nat.min_l_iff in Hlen.
  destruct m; [done |]. simpl in Hlen |- *. lia.
Qed.

Lemma occurs_inside a m s b i :
  m ≠ "" → Str.occurs m s i →
  Str.occurs m (a +:+ s +:+ b) (String.length a + i).
Proof.
  intros Hm Ho. unfold Str.occurs. rewrite substring_app_r.
  rewrite substring_app_keep; [done |]. by apply occurs_length.
Qed.

Lemma includes_app a m b : Text.includes (a +:+ m +:+ b) m = true.
Proof.
  unfold Text.includes, Str.indexOf. destruct m as [|c m].
  - by rewrite index_0_empty.
  - destruct (index_finds 0 (String c m) (a +:+ String c m +:+ b)
                (String.length a)) as (j & -> & _); [done | lia | | done].
    apply substring_app_mid.
Qed.

End TextFacts.

Lemma inlineTexts_textNode t : inlineTexts (textNode t) = [t].
Proof. reflexivity. Qed.

Lemma blockTexts_paragraph texts : blockTexts (paragraph texts) = texts.
Proof.
  unfold blockTexts, paragraph. simpl.
  induction texts as [|t texts IH]; [done |]. simpl. by rewrite IH.
Qed.

(** X8: the text of a rich text made of paragraphs of text nodes is the
    texts of all its nodes, in order, joined by single spaces; nodes
    below the second level contribute nothing. *)
Theorem extractText_richTextOf (blocks : list (list string)) :
  extractText (richTextOf blocks) = Text.join " " (concat blocks)
  ∧ extractText
      (JObj [("content",
              JArr [JObj [("content", JArr (map paragraph blocks))]])])
    = "".
Proof.
  split.
  - unfold extractText, richTextOf. simpl. f_equal.
    induction blocks as [|texts blocks IH]; [done |]. simpl.
    by rewrite blockTexts_paragraph, IH.
  - assert (blockTexts (JObj [("content", JArr (map paragraph blocks))]) = [])
      as Hblock.
    { unfold blockTexts.
      change (Js.get (JObj [("content", JArr (map paragraph blocks))]) "content")
        with (Some (JArr (map paragraph blocks))).
      cbn [Js.truthy Js.typeof_object andb].
      induction blocks as [|texts blocks IH]; [done |]. exact IH. }
    unfold extractText.
    change (Js.get (JObj [("content",
                           JArr [JObj [("content", JArr (map paragraph blocks))]])])
              "content")
      with (Some (JArr [JObj [("content", JArr (map paragraph blocks))]])).
    cbn [Js.truthy Js.typeof_object negb orb flat_map].
    by rewrite Hblock.
Qed.

(** ** The search of one file *)

Section SearchFacts.
Import Search.
Implicit Types (record r : json) (records : list json) (path : string)
  (names : list (json * json)).

(** The match by text alone, the first test of [matchText]. *)
Lemma matchText_TextOnly record searchLower t :
  matchText record searchLower TextOnly = Ok t →
  matchText record searchLower All
  = if String.eqb t "" then matchText record searchLower All else Ok t.
Proof.
  unfold matchText.
  destruct (String.eqb _ "") eqn:E.
  - intros [= <-]. by rewrite E.
  - intros [= <-]. by rewrite E.
Qed.

Lemma matchText_All_searchable record searchLower :
  searchable record = true → ∃ t, matchText record searchLower All = Ok t.
Proof.
  unfold searchable, matchText. intros [[Htype Hid]%andb_prop _]%andb_prop.
  destruct (String.eqb _ ""); [| by eexists].
  destruct (Js.get record "type") as [[]|]; try done;
    cbn [mbind result_bind];
    destruct (Js.get record "id") as [[]|]; try done;
    destruct (String.eqb _ ""); by eexists.
Qed.

Lemma makeMatch_searchable path names record t :
  searchable record = true → ∃ m, makeMatch path names record t = Ok m.
Proof.
  unfold searchable, makeMatch. intros [_ Hparent]%andb_prop.
  destruct (Js.get record "parentId") as [[]|]; try done; by eexists.
Qed.

End SearchFacts.

Lemma matchText_any_case (record props rt : json) (a m b query : string)
    (searchIn : Search.scope) :
  Js.get record "props" = Some props →
  Js.get props "richText" = Some rt →
  Js.truthy rt = true →
  extractText rt = a +:+ m +:+ b →
  Text.toLowerCase m = Text.toLowerCase query →
  extractText rt ≠ "" →
  Search.matchText record (Text.toLowerCase query) searchIn
  = Ok (extractText rt).
Proof.
  intros Hprops Hrt Htruthy Htext Hcase Hne. unfold Search.matchText.
  rewrite Hprops, Hrt, Htruthy.
  assert (Text.includes (Text.toLowerCase (extractText rt))
            (Text.toLowerCase query) = true) as ->.
  { rewrite Htext, !toLowerCase_app, Hcase. apply includes_app. }
  by apply String.eqb_neq in Hne as ->.
Qed.

(** A record that is not null and whose fields the search can read
    hides no match of the records after it. *)
Lemma searchRecords_passes path names q s x rest found :
  Search.isNull x = false →
  (isShape x = true → searchable x = true) →
  found ∈ Search.searchRecords path names q s rest →
  found ∈ Search.searchRecords path names q s (x :: rest).
Proof.
  intros Hnull Hs Hin. cbn [Search.searchRecords]. rewrite Hnull.
  destruct (isShape x) eqn:Hshape; [| done].
  specialize (Hs eq_refl).
  assert (∃ t, Search.matchText x q s = Ok t) as [t ->].
  { destruct s; [| by apply matchText_All_searchable].
    unfold Search.matchText. destruct (String.eqb _ ""); by eexists. }
  destruct (String.eqb t ""); [done |].
  destruct (makeMatch_searchable path names x t Hs) as [m' ->]. by right.
Qed.

(** X9: a shape whose text contains the query in any letter case is
    among the matches of the search of its file, in both scopes, with
    its whole text as the matched text, when its [parentId] is a string,
    null or missing and the records before it are not null and have
    fields the search can read.  When its [parentId] is of another type
    the search ends at the shape with the matches found before it. *)
Theorem searchRecords_any_case (path : string) (names : list (json * json))
    (l1 l2 : list json) (record props rt : json) (a m b query : string)
    (searchIn : Search.scope) :
  isShape record = true →
  Js.get record "props" = Some props →
  Js.get props "richText" = Some rt →
  Js.truthy rt = true →
  extractText rt = a +:+ m +:+ b →
  Text.toLowerCase m = Text.toLowerCase query →
  extractText rt ≠ "" →
  let results :=
    Search.searchRecords path names (Text.toLowerCase query) searchIn
      (l1 ++ record :: l2) in
  ((∀ x, x ∈ l1 → Search.isNull x = false
                  ∧ (isShape x = true → searchable x = true)) →
   match Js.get record "parentId" with
   | None | Some JNull | Some (JStr _) => True
   | Some _ => False
   end →
   ∃ found, found ∈ results
     ∧ Search.file found = path
     ∧ Search.matchedText found = extractText rt
     ∧ Search.shapeId found = Js.get record "id"
     ∧ Search.shapeType found = Js.get record "type")
  ∧ (match Js.get record "parentId" with
     | None | Some JNull | Some (JStr _) => False
     | Some _ => True
     end →
     results
     = Search.searchRecords path names (Text.toLowerCase query) searchIn l1).
Proof.
  intros Hshape Hprops Hrt Htruthy Htext Hcase Hne results.
  pose proof (matchText_any_case record props rt a m b query searchIn
                Hprops Hrt Htruthy Htext Hcase Hne) as Hmatch.
  assert (Search.isNull record = false) as Hnull by (by destruct record).
  apply String.eqb_neq in Hne.
  split.
  - intros Hbefore Hparent.
    assert (∃ found,
              Search.makeMatch path names record (extractText rt) = Ok found
              ∧ Search.file found = path
              ∧ Search.matchedText found = extractText rt
              ∧ Search.shapeId found = Js.get record "id"
              ∧ Search.shapeType found = Js.get record "type")
      as (found & Hmake & Hfound).
    { unfold Search.makeMatch.
      destruct (Js.get record "parentId") as [[]|]; try done; by eexists. }
    exists found. split; [| done]. subst results.
    induction l1 as [|x l1 IH].
    + cbn [app Search.searchRecords].
      rewrite Hnull, Hshape, Hmatch, Hne, Hmake. by left.
    + destruct (Hbefore x ltac:(by left)) as [Hx Hsx].
      apply searchRecords_passes; [done | done |].
      apply IH. intros y Hy. apply Hbefore. by right.
  - intros Hparent. subst results.
    assert (∃ e, Search.makeMatch path names record (extractText rt) = Err e)
      as [e Hmake].
    { unfold Search.makeMatch.
      destruct (Js.get record "parentId") as [[]|]; try done; by eexists. }
    induction l1 as [|x l1 IH].
    + cbn [app Search.searchRecords].
      by rewrite Hnull, Hshape, Hmatch, Hne, Hmake.
    + cbn [app Search.searchRecords]. by rewrite IH.
Qed.

Lemma searchRecords_any_case_witness :
  ∃ found,
    found ∈ Search.searchRecords "a.tldr" [] (Text.toLowerCase "hello")
              Search.All [page1; hello_shape]
    ∧ Search.matchedText found = "Hello World"
    ∧ Search.shapeId found = Some (JStr "shape:h1").
Proof.
  destruct (searchRecords_any_case "a.tldr" [] [page1] [] hello_shape
              (JObj [("richText", richTextOf [["Hello"; "World"]])])
              (richTextOf [["Hello"; "World"]]) "" "Hello" " World" "hello"
              Search.All eq_refl eq_refl eq_refl eq_refl eq_refl eq_refl)
    as [Hfound _]; [discriminate |].
  destruct Hfound as (found & Hin & _ & Htext & Hid & _).
  - intros x Hx. apply list_elem_of_singleton in Hx as ->.
    split; [reflexivity | discriminate].
  - exact I.
  - exists found. split; [exact Hin |]. split; [exact Htext | exact Hid].
Defined.

(** X10: when the [type], [id] and [parentId] of every shape are strings
    or missing, the matches of the text scope are among the matches of
    the broader scope, in the same order. *)
Theorem searchRecords_scope (path : string) (names : list (json * json))
    (searchLower : string) (records : list json) :
  (∀ r, r ∈ records → isShape r = true → searchable r = true) →
  Search.searchRecords path names searchLower Search.TextOnly records
  `sublist_of`
  Search.searchRecords path names searchLower Search.All records.
Proof.
  induction records as [|r rest IH]; intros Hall; [constructor |].
  assert (Search.searchRecords path names searchLower Search.TextOnly rest
          `sublist_of`
          Search.searchRecords path names searchLower Search.All rest) as IH'.
  { apply IH. intros r' Hin. apply Hall. by right. }
  simpl. destruct (Search.isNull r); [constructor |].
  destruct (isShape r) eqn:Hshape; [| done].
  assert (searchable r = true) as Hs by (apply Hall; [by left | done]).
  destruct (Search.matchText r searchLower Search.TextOnly) as [t|e] eqn:Ht;
    [| apply sublist_nil_l].
  rewrite (matchText_TextOnly _ _ _ Ht).
  destruct (String.eqb t "") eqn:Hempty.
  - destruct (matchText_All_searchable r searchLower Hs) as [t' ->].
    destruct (String.eqb t' ""); [done |].
    destruct (makeMatch_searchable path names r t' Hs) as [m' ->].
    by constructor.
  - rewrite Hempty.
    destruct (Search.makeMatch path names r t) as [m0|e]; [| constructor].
    by constructor.
Qed.

Lemma searchRecords_scope_witness :
  Search.searchRecords "a.tldr" [] "text" Search.TextOnly [hello_shape]
  `sublist_of`
  Search.searchRecords "a.tldr" [] "text" Search.All [hello_shape].
Proof.
  apply searchRecords_scope. intros r Hin _.
  apply list_elem_of_singleton in Hin as ->. reflexivity.
Defined.

Lemma searchRecords_app_abort path names q s l1 r l2 :
  isShape r = true →
  (∃ e, Search.matchText r q s = Err e) →
  Search.searchRecords path names q s (l1 ++ r :: l2)
  = Search.searchRecords path names q s l1.
Proof.
  intros Hshape [e He]. induction l1 as [|x l1 IH]; simpl.
  - rewrite Hshape, He. by destruct r.
  - by rewrite IH.
Qed.

Lemma searchRecords_app_skip path names q s l1 r l2 :
  isShape r = true →
  Search.matchText r q s = Ok "" →
  Search.searchRecords path names q s (l1 ++ r :: l2)
  = Search.searchRecords path names q s (l1 ++ l2).
Proof.
  intros Hshape Hr. induction l1 as [|x l1 IH]; simpl.
  - rewrite Hshape, Hr. by destruct r.
  - by rewrite IH.
Qed.

(** X11: a shape without text whose [type] is neither a string nor null
    ends the search of its file in the broader scope: the shapes after it
    are not looked at.  In the text scope the same shape is passed
    over. *)
Theorem searchRecords_untyped_shape (path : string)
    (names : list (json * json)) (q : string) (l1 l2 : list json)
    (r v : json) :
  isShape r = true →
  Js.get r "props" = None →
  Js.get r "type" = Some v →
  match v with JNull | JStr _ => False | _ => True end →
  Search.searchRecords path names q Search.All (l1 ++ r :: l2)
  = Search.searchRecords path names q Search.All l1
  ∧ Search.searchRecords path names q Search.TextOnly (l1 ++ r :: l2)
    = Search.searchRecords path names q Search.TextOnly (l1 ++ l2).
Proof.
  intros Hshape Hprops Htype Hv. split.
  - apply searchRecords_app_abort; [done |]. exists TypeError.
    unfold Search.matchText. rewrite Hprops, Htype. by destruct v.
  - apply searchRecords_app_skip; [done |].
    unfold Search.matchText. by rewrite Hprops.
Qed.

Lemma searchRecords_untyped_shape_witness :
  Search.searchRecords "a.tldr" [] "hello" Search.All
    ([hello_shape]
     ++ JObj [("id", JStr "shape:n"); ("typeName", JStr "shape");
              ("type", JNum 3)] :: [hello_shape])
  = Search.searchRecords "a.tldr" [] "hello" Search.All [hello_shape]
  ∧ Search.searchRecords "a.tldr" [] "hello" Search.TextOnly
      ([hello_shape]
       ++ JObj [("id", JStr "shape:n"); ("typeName", JStr "shape");
                ("type", JNum 3)] :: [hello_shape])
    = Search.searchRecords "a.tldr" [] "hello" Search.TextOnly
        ([hello_shape] ++ [hello_shape]).
Proof.
  apply (searchRecords_untyped_shape "a.tldr" [] "hello" [hello_shape]
           [hello_shape] _ (JNum 3)); (reflexivity || exact I).
Defined.

Lemma matchText_Ok_inv record q s t :
  Search.matchText record q s = Ok t → t ≠ "" →
  (∃ props rt, Js.get record "props" = Some props
     ∧ Js.get props "richText" = Some rt
     ∧ t = extractText rt
     ∧ Text.includes (Text.toLowerCase t) q = true)
  ∨ s = Search.All
    ∧ ((∃ ty, Js.get record "type" = Some (JStr ty)
          ∧ t = "Shape type: " +:+ ty
          ∧ Text.includes (Text.toLowerCase ty) q = true)
       ∨ (∃ i, Js.get record "id" = Some (JStr i)
            ∧ t = "Shape ID: " +:+ i
            ∧ Text.includes (Text.toLowerCase i) q = true)).
Proof.
  unfold Search.matchText. intros Hm Hne.
  destruct (String.eqb _ "") eqn:Hby.
  - right. destruct s; [injection Hm as <-; by apply String.eqb_eq in Hby |].
    split; [done |].
    destruct (Js.get record "type") as [[| | |ty| |]|] eqn:Htype;
      try done; cbn [mbind result_bind] in Hm.
    2: destruct (Text.includes (Text.toLowerCase ty) q) eqn:Hin.
    2: { left. exists ty. injection Hm as <-. by split_and!. }
    all: cbn [String.eqb] in Hm;
      destruct (Js.get record "id") as [[| | |i| |]|]; try done;
      destruct (Text.includes (Text.toLowerCase i) q) eqn:Hi;
      injection Hm as <-; try done;
      right; exists i; by split_and!.
  - left. injection Hm as <-.
    destruct (Js.get record "props") as [props|] eqn:Hprops; [| done].
    destruct (Js.get props "richText") as [rt|] eqn:Hrt; [| done].
    destruct (Js.truthy rt); [| done].
    destruct (Text.includes _ q) eqn:Hin; [| done].
    exists props, rt. by split_and!.
Qed.

(** X12: every match of the search of a file names the file, carries a
    text that is not empty with its first 100 characters as context, and
    belongs to a shape of the file in which the query occurs: in its
    text, or, in the broader scope, in its type or its id.  The page of
    the match, when given, is the parent of the shape and starts with
    [page:]. *)
Theorem searchRecords_sound (path : string) (names : list (json * json))
    (q : string) (s : Search.scope) (records : list json)
    (m : Search.SearchMatch) :
  m ∈ Search.searchRecords path names q s records →
  Search.file m = path
  ∧ Search.matchedText m ≠ ""
  ∧ Search.context m = String.substring 0 100 (Search.matchedText m)
  ∧ String.length (Search.context m) ≤ 100
  ∧ ∃ r, r ∈ records ∧ isShape r = true
      ∧ Search.shapeId m = Js.get r "id"
      ∧ Search.shapeType m = Js.get r "type"
      ∧ (Search.pageId m = None
         ∨ Search.pageId m = Js.get r "parentId"
           ∧ ∃ p, Search.pageId m = Some (JStr p)
                  ∧ Str.startsWith p "page:" = true)
      ∧ ((∃ props rt, Js.get r "props" = Some props
            ∧ Js.get props "richText" = Some rt
            ∧ Search.matchedText m = extractText rt
            ∧ Text.includes (Text.toLowerCase (extractText rt)) q = true)
         ∨ s = Search.All
           ∧ ((∃ ty, Js.get r "type" = Some (JStr ty)
                 ∧ Search.matchedText m = "Shape type: " +:+ ty
                 ∧ Text.includes (Text.toLowerCase ty) q = true)
              ∨ (∃ i, Js.get r "id" = Some (JStr i)
                   ∧ Search.matchedText m = "Shape ID: " +:+ i
                   ∧ Text.includes (Text.toLowerCase i) q = true))).
Proof.
  induction records as [|r rest IH]; simpl; [by intros ?%elem_of_nil |].
  assert (m ∈ Search.searchRecords path names q s rest →
          Search.file m = path
          ∧ Search.matchedText m ≠ ""
          ∧ Search.context m = String.substring 0 100 (Search.matchedText m)
          ∧ String.length (Search.context m) ≤ 100
          ∧ ∃ r0, r0 ∈ r :: rest ∧ isShape r0 = true
              ∧ Search.shapeId m = Js.get r0 "id"
              ∧ Search.shapeType m = Js.get r0 "type"
              ∧ (Search.pageId m = None
                 ∨ Search.pageId m = Js.get r0 "parentId"
                   ∧ ∃ p, Search.pageId m = Some (JStr p)
                          ∧ Str.startsWith p "page:" = true)
              ∧ ((∃ props rt, Js.get r0 "props" = Some props
                    ∧ Js.get props "richText" = Some rt
                    ∧ Search.matchedText m = extractText rt
                    ∧ Text.includes (Text.toLowerCase (extractText rt)) q
                      = true)
                 ∨ s = Search.All
                   ∧ ((∃ ty, Js.get r0 "type" = Some (JStr ty)
                         ∧ Search.matchedText m = "Shape type: " +:+ ty
                         ∧ Text.includes (Text.toLowerCase ty) q = true)
                      ∨ (∃ i, Js.get r0 "id" = Some (JStr i)
                           ∧ Search.matchedText m = "Shape ID: " +:+ i
                           ∧ Text.includes (Text.toLowerCase i) q = true))))
    as Hrest.
  { intros Hin. destruct (IH Hin) as (? & ? & ? & ? & r0 & Hr0 & Hmore).
    split_and!; try done. exists r0. split; [by right | done]. }
  destruct (Search.isNull r); [by intros ?%elem_of_nil |].
  destruct (isShape r) eqn:Hshape; [| done].
  destruct (Search.matchText r q s) as [t|e] eqn:Ht;
    [| by intros ?%elem_of_nil].
  destruct (String.eqb t "") eqn:Hempty; [done |].
  apply String.eqb_neq in Hempty.
  destruct (Search.makeMatch path names r t) as [m0|e] eqn:Hm0;
    [| by intros ?%elem_of_nil].
  intros [-> | Hin]%elem_of_cons; [| by apply Hrest].
  clear Hrest IH. unfold Search.makeMatch in Hm0.
  assert (∃ page, m0 = {| Search.file := path; Search.pageId := page;
              Search.pageName :=
                match Js.get r "parentId" with
                | Some p => if Js.truthy p then Search.lookupPage names p
                            else None
                | None => None
                end;
              Search.shapeId := Js.get r "id";
              Search.shapeType := Js.get r "type";
              Search.matchedText := t;
              Search.context := String.substring 0 100 t |}
            ∧ (page = None
               ∨ page = Js.get r "parentId"
                 ∧ ∃ p, page = Some (JStr p)
                        ∧ Str.startsWith p "page:" = true))
    as (page & -> & Hpage).
  { destruct (Js.get r "parentId") as [[| | |p| |]|]; try done;
      cbn [mbind result_bind] in Hm0; injection Hm0 as <-.
    - eexists. split; [done |]. by left.
    - destruct (Str.startsWith p "page:") eqn:Hp.
      + eexists. split; [done |]. right. split; [done |]. by exists p.
      + eexists. split; [done |]. by left.
    - eexists. split; [done |]. by left. }
  cbn [Search.file Search.matchedText Search.context Search.shapeId
       Search.shapeType Search.pageId].
  split_and!; try done; [apply substring_length_le |].
  exists r. split_and!; try done; [by left |].
  destruct (matchText_Ok_inv r q s t Ht Hempty)
    as [(props & rt & ? & ? & -> & ?) | [-> Hall]].
  - left. by exists props, rt.
  - by right.
Qed.

Lemma searchRecords_sound_witness :
  Search.file
    {| Search.file := "a.tldr"; Search.pageId := Some (JStr "page:p1");
       Search.pageName := None;
       Search.shapeId := Some (JStr "shape:h1");
       Search.shapeType := Some (JStr "text");
       Search.matchedText := "Hello World";
       Search.context := "Hello World" |} = "a.tldr".
Proof.
  refine (proj1 (searchRecords_sound "a.tldr" [] "hello" Search.TextOnly
                   [hello_shape] _ _)).
  vm_compute. left.
Defined.

Section SearchTool.
Context `{NodeRuntime}.

(** X13: the search of one file never fails and changes no file.  A file
    that cannot be read gives no match; a file that can be read gives the
    matches of its records. *)
Theorem searchFile_total (path query : string) (s : Search.scope)
    (σ : gmap string node) :
  ∃ ms, searchFile path query s σ = (σ, Ok ms)
    ∧ match (tldrawRead path σ).2 with
      | Ok f =>
          ∃ records, Js.get f "records" = Some (JArr records)
            ∧ ms = Search.searchRecords path (Search.pageNames records)
                     (Text.toLowerCase query) s records
      | Err _ => ms = []
      end.
Proof.
  unfold searchFile, try_catch. rewrite bind_run.
  pose proof (tldrawRead_reads path σ) as Hσ.
  destruct (tldrawRead path σ) as [σ' [f|e]] eqn:Hread; simpl in Hσ;
    subst σ'; cbn [snd].
  - destruct (tldrawRead_inv _ _ _ _ Hread) as (parsed & Hparse & <-).
    destruct (parseTldrawContent_inv _ _ _ _ Hparse)
      as (_ & filepath & content & data & _ & _ & _ & Hnorm & _).
    destruct (normalizeTldrawPayload_inv _ _ _ Hnorm) as [Hok _].
    destruct (documentOk_get_records _ Hok) as [records Hrecords].
    unfold withRecords. rewrite Hrecords.
    eexists. split; [reflexivity |]. by exists records.
  - by exists [].
Qed.

End SearchTool.

(** ** Writing, once more *)

Section WriteFacts.
Context `{NodeRuntime}.
Implicit Types (σ : gmap string node) (path filepath : string).

(** Every way [tldrawWrite] can end. *)
Lemma tldrawWrite_cases path content σ :
  (∃ e, tldrawWrite path content σ = (σ, Err e))
  ∨ ∃ filepath,
      securePath path = Ok filepath
      ∧ (Str.endsWith filepath ".md" = true
         ∧ (∃ c,
              isFile (σ !! filepath) = true
              ∧ tldrawWrite path content σ
                = (<[filepath := File c]> σ,
                   Ok ("Successfully wrote: " +:+ path)))
         ∨ Str.endsWith filepath ".tldr" = true
           ∧ (tldrawWrite path content σ
              = (afterEnsureDir (dirOf filepath) σ, Err IOError)
              ∨ σ !! filepath ≠ Some Dir
                ∧ ∃ c,
                    tldrawWrite path content σ
                    = (<[filepath := File c]>
                         (afterEnsureDir (dirOf filepath) σ),
                       Ok ("Successfully wrote: " +:+ path)))).
Proof.
  destruct (securePath path) as [filepath|e] eqn:Hpath.
  2: { left. exists e. unfold tldrawWrite. by rewrite Hpath. }
  destruct (isReadableTldrawPath filepath) eqn:Hread.
  2: { left. eexists. unfold tldrawWrite.
       by rewrite Hpath, bind_liftR_Ok, Hread. }
  destruct (parsedInputOf content) as [input|e] eqn:Hinput.
  2: { left. exists e. unfold tldrawWrite.
       rewrite Hpath, bind_liftR_Ok, Hread. cbn [negb].
       fold (parsedInputOf content). by rewrite Hinput. }
  destruct (normalizeTldrawPayload input) as [[f ic]|e] eqn:Hnorm.
  2: { left. exists e. unfold tldrawWrite.
       rewrite Hpath, bind_liftR_Ok, Hread. cbn [negb].
       fold (parsedInputOf content). rewrite Hinput, bind_liftR_Ok.
       by rewrite Hnorm. }
  destruct (Str.endsWith filepath ".md") eqn:Hmd.
  - rewrite (tldrawWrite_md_input σ path filepath content input f ic)
      by done.
    destruct (σ !! filepath) as [[m| |before after]|] eqn:E;
      [| left; by eexists | | left; by eexists].
    + destruct (existingBlock m) as [[block ec]|e]; [| left; by exists e].
      right. exists filepath. split; [done |]. left. split; [done |].
      eexists. split; [by rewrite E | reflexivity].
    + cbv zeta.
      destruct (existingBlock _) as [[block ec]|e]; [| left; by exists e].
      right. exists filepath. split; [done |]. left. split; [done |].
      eexists. split; [by rewrite E | reflexivity].
  - assert (Str.endsWith filepath ".tldr" = true) as Hext.
    { unfold isReadableTldrawPath in Hread. rewrite Hmd in Hread.
      by rewrite orb_false_r in Hread. }
    destruct (tldrawWrite_tldr_cases σ path filepath content input f ic
                Hpath Hext Hinput Hnorm) as [Hw | [Hw | Hw]].
    + left. by exists IOError.
    + right. exists filepath. split; [done |]. right. split; [done |].
      by left.
    + right. exists filepath. split; [done |]. right. split; [done |].
      right. split; [| by eexists].
      intros Hdir.
      pose proof (tldrawWrite_tldr_on_dir σ path filepath content input f ic
                    Hpath Hext Hinput Hnorm Hdir) as Hfails.
      by rewrite Hw in Hfails.
Qed.

(** The payload written around a container normalises to the document
    put under [raw]. *)
Lemma normalizeTldrawPayload_output f c :
  documentOk f = true →
  let out := JObj (Js.assoc_set "raw" f (Js.spread_into [] c)) in
  normalizeTldrawPayload out = Ok (f, Some out)
  ∧ isWrappedContainer out = true.
Proof.
  intros Hok out.
  destruct (documentOk_get_records f Hok) as [records Hrecords].
  destruct (documentOk_records f records Hok Hrecords) as [[fs ->] _].
  assert (Js.get out "raw" = Some (JObj fs)) as Hraw
    by apply assoc_set_eq.
  assert (Js.has out "raw" = true) as Hhas.
  { unfold Js.has. rewrite Hraw. by rewrite bool_decide_true by (by eexists). }
  split.
  - unfold normalizeTldrawPayload. rewrite Hhas, Hraw.
    change (negb (Js.truthy out) || negb (Js.typeof_object (Some out)))
      with false.
    change (negb (Js.truthy_opt (Some (JObj fs)))
            || negb (Js.typeof_object (Some (JObj fs)))) with false.
    cbn match.
    by rewrite (proj2 (validateTldrawFile_ok (JObj fs) (JObj fs)) (conj Hok eq_refl)).
  - unfold isWrappedContainer. by rewrite Hhas, Hraw.
Qed.

(** X14: a [.tldr] file that carries a container, or is written with
    one, in a directory that is there or can be made, reads back as the
    document just written, in the wrapped format, and carries a
    container from then on. *)
Theorem tldrawWrite_tldrawRead_wrapped σ path filepath
    (content f : json) (ic : option json) :
  securePath path = Ok filepath →
  Str.endsWith filepath ".tldr" = true →
  normalizeTldrawPayload content = Ok (f, ic) →
  dirReady σ (dirOf filepath) = true →
  σ !! filepath ≠ Some Dir →
  is_Some (containerOnDisk σ filepath) ∨ is_Some ic →
  JSON_parse
    (JSON_stringify (outputContent (containerOnDisk σ filepath) ic f))
  = Some (outputContent (containerOnDisk σ filepath) ic f) →
  ∃ σ',
    tldrawWrite path content σ = (σ', Ok ("Successfully wrote: " +:+ path))
    ∧ parseTldrawContent path σ'
      = (σ', Ok {| file := f;
                   storageFormat := WrappedJson;
                   wrappedContainer :=
                     Some (outputContent (containerOnDisk σ filepath) ic f) |})
    ∧ tldrawRead path σ' = (σ', Ok f)
    ∧ containerOnDisk σ' filepath
      = Some (outputContent (containerOnDisk σ filepath) ic f)
    ∧ Js.get (outputContent (containerOnDisk σ filepath) ic f) "raw"
      = Some f.
Proof.
  intros Hpath Hext Hnorm Hready Hdir Hc Hjson.
  destruct (normalizeTldrawPayload_inv _ _ _ Hnorm) as [Hok _].
  pose proof (normalizeTldrawPayload_not_string content _ Hnorm) as Hinput.
  rewrite (tldrawWrite_tldr σ path filepath content content f ic) by done.
  set (out := outputContent (containerOnDisk σ filepath) ic f) in *.
  assert (∃ c, out = JObj (Js.assoc_set "raw" f (Js.spread_into [] c)))
    as [c Hout].
  { unfold out, outputContent.
    destruct (containerOnDisk σ filepath) as [c|]; [by exists c |].
    destruct Hc as [[? [=]] | [c ->]]. by exists c. }
  destruct (normalizeTldrawPayload_output f c Hok) as [Hn Hw].
  rewrite <- Hout in Hn, Hw.
  set (σ' := <[filepath := File (JSON_stringify out)]> _).
  assert (σ' !! filepath = Some (File (JSON_stringify out))) as Hfile
    by apply lookup_insert_eq.
  assert (parseTldrawContent path σ'
          = (σ', Ok {| file := f; storageFormat := WrappedJson;
                       wrappedContainer := Some out |})) as Hparse
    by apply (parseTldrawContent_tldr σ' path filepath
                (JSON_stringify out) out f (Some out) Hpath Hext Hfile
                Hjson Hn).
  exists σ'. split_and!; try done.
  - unfold tldrawRead. by rewrite bind_run, Hparse.
  - unfold containerOnDisk at 1. rewrite Hfile.
    cbn [mbind option_bind textOf]. by rewrite Hjson, Hw.
  - rewrite Hout. apply assoc_set_eq.
Qed.

(** X15: [tldrawWrite] removes no path and changes no path but its
    target: a path that appears is the target or, for a [.tldr] target,
    its directory or a directory above it; a write that fails leaves
    every file as it was. *)
Theorem tldrawWrite_frame path (content : json) σ :
  let σ' := (tldrawWrite path content σ).1 in
  (∀ p n, σ !! p = Some n → securePath path ≠ Ok p → σ' !! p = Some n)
  ∧ (∀ p e n, (tldrawWrite path content σ).2 = Err e →
       σ !! p = Some n → σ' !! p = Some n)
  ∧ (∀ p, σ !! p = None → is_Some (σ' !! p) →
       ∃ filepath, securePath path = Ok filepath
         ∧ (p = filepath
            ∨ Str.endsWith filepath ".tldr" = true
              ∧ p ∈ pathChain (dirOf filepath) ∧ σ' !! p = Some Dir)).
Proof.
  destruct (tldrawWrite_cases path content σ)
    as [[e ->] | (filepath & Hpath & [(Hmd & c & Hold & ->)
          | (Hext & [-> | (Hdir & c & ->)])])]; cbn [fst snd].
  - split_and!; try done. intros p Hp [? ?]. congruence.
  - split_and!; try done.
    + intros p n Hp Hne. rewrite lookup_insert_ne; [done |]. congruence.
    + intros p Hp [x Hx]. exists filepath. split; [done |]. left.
      destruct (decide (p = filepath)) as [-> | Hne]; [done |].
      rewrite lookup_insert_ne in Hx by done. congruence.
  - split_and!.
    + intros p n Hp _. by apply afterEnsureDir_keeps.
    + intros p e n _ Hp. by apply afterEnsureDir_keeps.
    + intros p Hp Hsome. exists filepath. split; [done |]. right.
      destruct (afterEnsureDir_new _ _ _ Hp Hsome) as [? ?]. by split_and!.
  - split_and!; try done.
    + intros p n Hp Hne. rewrite lookup_insert_ne by congruence.
      by apply afterEnsureDir_keeps.
    + intros p Hp Hsome. exists filepath. split; [done |].
      destruct (decide (p = filepath)) as [-> | Hne]; [by left | right].
      rewrite lookup_insert_ne in Hsome |- * by done.
      destruct (afterEnsureDir_new _ _ _ Hp Hsome) as [? ?]. by split_and!.
Qed.

End WriteFacts.

Lemma tldrawWrite_tldrawRead_wrapped_witness :
  ∃ σ',
    @tldrawWrite rt0 "a.tldr" doc1 wrapped_store
    = (σ', Ok "Successfully wrote: a.tldr")
    ∧ @tldrawRead rt0 "a.tldr" σ' = (σ', Ok doc1).
Proof.
  destruct (@tldrawWrite_tldrawRead_wrapped rt0 wrapped_store "a.tldr"
              "/home/u/.tldraw/a.tldr" doc1 doc1 None)
    as (σ' & Hw & _ & Hr & _);
    [reflexivity | reflexivity | reflexivity | vm_compute; reflexivity
    | vm_compute; discriminate
    | left; vm_compute; by eexists | vm_compute; reflexivity |].
  exists σ'. by split.
Defined.

(** ** The embedded block, once more *)

Section EmbeddedFacts.
Context `{NodeRuntime}.
Implicit Types (σ : gmap string node) (path filepath : string).
Local Abbreviation START := MARKDOWN_TLDRAW_START_MARKER.
Local Abbreviation END_ := MARKDOWN_TLDRAW_END_MARKER.

(** Decoding an [.md] file whose text holds one block. *)
Lemma parseTldrawContent_md σ path filepath markdown block data f w :
  securePath path = Ok filepath →
  Str.endsWith filepath ".md" = true →
  σ !! filepath = Some (File markdown) →
  locateMarkdownTldrawBlock markdown = Ok block →
  JSON_parse (jsonText block) = Some data →
  normalizeTldrawPayload data = Ok (f, w) →
  parseTldrawContent path σ
  = (σ, Ok {| file := f; storageFormat := EmbeddedMarkdown;
              wrappedContainer := w |}).
Proof.
  intros Hpath Hext Hfile Hblock Hparse Hnorm. unfold parseTldrawContent.
  rewrite Hpath, bind_liftR_Ok, (isReadable_md _ Hext). cbn [negb].
  rewrite bind_run. unfold existsSync.
  rewrite bool_decide_true by (by eexists). cbn [negb].
  rewrite bind_run. unfold readFile at 1. rewrite Hfile, Hext.
  rewrite Hblock, bind_liftR_Ok. unfold parseJsonContent.
  rewrite Hparse, bind_liftR_Ok. by rewrite Hnorm, bind_liftR_Ok.
Qed.

(** A text whose block cannot be located cannot be decoded. *)
Lemma parseTldrawContent_md_fails σ path filepath markdown e :
  securePath path = Ok filepath →
  Str.endsWith filepath ".md" = true →
  σ !! filepath = Some (File markdown) →
  locateMarkdownTldrawBlock markdown = Err e →
  parseTldrawContent path σ = (σ, Err e).
Proof.
  intros Hpath Hext Hfile Hblock. unfold parseTldrawContent.
  rewrite Hpath, bind_liftR_Ok, (isReadable_md _ Hext). cbn [negb].
  rewrite bind_run. unfold existsSync.
  rewrite bool_decide_true by (by eexists). cbn [negb].
  rewrite bind_run. unfold readFile at 1. rewrite Hfile, Hext.
  by rewrite Hblock, bind_liftR_Err.
Qed.

(** What a successful write makes of a text with one block. *)
Lemma tldrawWrite_md_block σ path filepath content d ic
    prefix mid suffix existingData fw :
  let markdown := prefix +:+ START +:+ mid +:+ END_ +:+ suffix in
  securePath path = Ok filepath →
  Str.endsWith filepath ".md" = true →
  normalizeTldrawPayload content = Ok (d, ic) →
  σ !! filepath = Some (File markdown) →
  Str.occurrences START markdown = [String.length prefix] →
  Str.occurrences END_ markdown
    = [String.length prefix + String.length START + String.length mid] →
  Str.trim mid ≠ "" →
  JSON_parse (Str.trim mid) = Some existingData →
  normalizeTldrawPayload existingData = Ok fw →
  tldrawWrite path content σ
  = (<[filepath :=
         File (prefix +:+ START +:+ nl
               +:+ JSON_stringify (outputContent fw.2 ic d) +:+ nl
               +:+ END_ +:+ suffix)]> σ,
     Ok ("Successfully wrote: " +:+ path)).
Proof.
  intros markdown Hpath Hext Hnorm Hfile HS HE Hne Hparse Hex.
  subst markdown.
  rewrite (tldrawWrite_md σ path filepath content d ic) by done.
  rewrite Hfile. unfold existingBlock.
  rewrite (locateMarkdownTldrawBlock_unique prefix mid suffix HS HE).
  apply String.eqb_neq in Hne as ->.
  cbn [mbind result_bind jsonText]. unfold parseJsonContent.
  rewrite Hparse. cbn [mbind result_bind]. rewrite Hex.
  cbn [mbind result_bind jsonStart jsonEnd].
  do 3 f_equal. rewrite slice_before_block, slice_from_end.
  by rewrite !append_assoc.
Qed.

End EmbeddedFacts.

Section EmbeddedRoundTrip.
Context `{NodeRuntime}.
Implicit Types (σ : gmap string node) (path filepath : string).
Local Abbreviation START := MARKDOWN_TLDRAW_START_MARKER.
Local Abbreviation END_ := MARKDOWN_TLDRAW_END_MARKER.

Lemma occurs_at a m b : m ≠ "" → Str.occurs m (a +:+ m +:+ b) (String.length a).
Proof.
  intros Hm. rewrite <- (Nat.add_0_r (String.length a)).
  apply occurs_inside; [done |]. apply substring_all.
Qed.

(** A text with a second end delimiter after the first holds no block
    that can be located. *)
Lemma locateMarkdownTldrawBlock_second_end prefix a b suffix :
  let markdown :=
    prefix +:+ START +:+ a +:+ END_ +:+ b +:+ END_ +:+ suffix in
  ∃ m, locateMarkdownTldrawBlock markdown = Err (DuplicateBlock m).
Proof.
  intros markdown.
  assert (Str.occurs START markdown (String.length prefix)) as HS
    by (apply occurs_at, START_nonempty).
  assert (Str.occurs END_ markdown
            (String.length prefix + String.length START + String.length a))
    as HE1.
  { rewrite <- !length_append.
    replace markdown
      with (((prefix +:+ START) +:+ a) +:+ END_ +:+ b +:+ END_ +:+ suffix)
      by (unfold markdown; by rewrite !append_assoc).
    apply occurs_at, END_nonempty. }
  assert (Str.occurs END_ markdown
            (String.length prefix + String.length START + String.length a
             + String.length END_ + String.length b)) as HE2.
  { rewrite <- !length_append.
    replace markdown
      with (((((prefix +:+ START) +:+ a) +:+ END_) +:+ b)
            +:+ END_ +:+ suffix)
      by (unfold markdown; by rewrite !append_assoc).
    apply occurs_at, END_nonempty. }
  unfold locateMarkdownTldrawBlock, Str.indexOf.
  destruct (index_finds 0 START markdown _ START_nonempty
              (Nat.le_0_l _) HS) as (i & -> & _ & Hi).
  destruct (String.index (i + String.length START) START markdown);
    [by eexists |].
  destruct (index_finds (i + String.length START) END_ markdown
              (String.length prefix + String.length START + String.length a)
              END_nonempty) as (j & -> & _ & Hj); [lia | done |].
  destruct (index_present (j + String.length END_) END_ markdown
              (String.length prefix + String.length START + String.length a
               + String.length END_ + String.length b)
              END_nonempty) as [k ->]; [lia | done |].
  by eexists.
Qed.

(** X16: on an [.md] file with one block, a write whose new text again
    holds one start and one end delimiter, around a payload the parser
    reads back, is followed by a read that returns the written document;
    the text before and after the block is kept. *)
Theorem tldrawWrite_tldrawRead_embedded σ path filepath
    (content d : json) (ic : option json) (prefix mid suffix : string)
    (existingData : json) (fw : json * option json) :
  let markdown := prefix +:+ START +:+ mid +:+ END_ +:+ suffix in
  let out := outputContent fw.2 ic d in
  let mid' := nl +:+ JSON_stringify out +:+ nl in
  let markdown' := prefix +:+ START +:+ mid' +:+ END_ +:+ suffix in
  securePath path = Ok filepath →
  Str.endsWith filepath ".md" = true →
  normalizeTldrawPayload content = Ok (d, ic) →
  σ !! filepath = Some (File markdown) →
  Str.occurrences START markdown = [String.length prefix] →
  Str.occurrences END_ markdown
    = [String.length prefix + String.length START + String.length mid] →
  Str.trim mid ≠ "" →
  JSON_parse (Str.trim mid) = Some existingData →
  normalizeTldrawPayload existingData = Ok fw →
  Str.occurrences START markdown' = [String.length prefix] →
  Str.occurrences END_ markdown'
    = [String.length prefix + String.length START + String.length mid'] →
  Str.trim mid' ≠ "" →
  JSON_parse (Str.trim mid') = Some out →
  Js.has d "raw" = false ∨ is_Some fw.2 ∨ is_Some ic →
  ∃ σ' w,
    tldrawWrite path content σ = (σ', Ok ("Successfully wrote: " +:+ path))
    ∧ σ' !! filepath = Some (File markdown')
    ∧ parseTldrawContent path σ'
      = (σ', Ok {| file := d; storageFormat := EmbeddedMarkdown;
                   wrappedContainer := w |})
    ∧ tldrawRead path σ' = (σ', Ok d).
Proof.
  intros markdown out mid' markdown' Hpath Hext Hnorm Hfile HS HE Hne
    Hparse Hex HS' HE' Hne' Hparse' Hbare.
  destruct (normalizeTldrawPayload_inv _ _ _ Hnorm) as [Hok Hin].
  assert (∃ w, normalizeTldrawPayload out = Ok (d, w)) as [w Hn].
  { unfold out, outputContent.
    destruct fw.2 as [c|] eqn:Hc.
    { eexists. apply (normalizeTldrawPayload_output d c Hok). }
    destruct ic as [c|].
    { eexists. apply (normalizeTldrawPayload_output d c Hok). }
    exists None. apply normalizeTldrawPayload_bare; [done |].
    destruct Hbare as [? | [[? [=]] | [? [=]]]]. done. }
  rewrite (tldrawWrite_md_block σ path filepath content d ic prefix mid
             suffix existingData fw) by done.
  fold out. fold mid'.
  set (σ' := <[filepath := File _]> σ).
  assert (σ' !! filepath = Some (File markdown')) as Hfile'.
  { unfold σ'. rewrite lookup_insert_eq. do 2 f_equal.
    unfold markdown', mid'. by rewrite !append_assoc. }
  pose proof (locateMarkdownTldrawBlock_unique prefix mid' suffix HS' HE')
    as Hblock.
  apply String.eqb_neq in Hne'. rewrite Hne' in Hblock.
  assert (parseTldrawContent path σ'
          = (σ', Ok {| file := d; storageFormat := EmbeddedMarkdown;
                       wrappedContainer := w |})) as Hdecode
    by apply (parseTldrawContent_md σ' path filepath markdown' _ out d w
                Hpath Hext Hfile' Hblock Hparse' Hn).
  exists σ', w. split_and!; try done.
  unfold tldrawRead. by rewrite bind_run, Hdecode.
Qed.

(** X17: a document whose serialisation contains the end delimiter can
    be written into the block of an [.md] file, and the file then holds
    a delimiter twice: it cannot be read any more, and no later write
    through [tldrawWrite] succeeds on it. *)
Theorem tldrawWrite_embedded_end_marker σ path filepath
    (content d : json) (ic : option json) (prefix mid suffix : string)
    (existingData : json) (fw : json * option json) (a b : string) :
  let markdown := prefix +:+ START +:+ mid +:+ END_ +:+ suffix in
  securePath path = Ok filepath →
  Str.endsWith filepath ".md" = true →
  normalizeTldrawPayload content = Ok (d, ic) →
  σ !! filepath = Some (File markdown) →
  Str.occurrences START markdown = [String.length prefix] →
  Str.occurrences END_ markdown
    = [String.length prefix + String.length START + String.length mid] →
  Str.trim mid ≠ "" →
  JSON_parse (Str.trim mid) = Some existingData →
  normalizeTldrawPayload existingData = Ok fw →
  JSON_stringify (outputContent fw.2 ic d) = a +:+ END_ +:+ b →
  ∃ σ' m,
    tldrawWrite path content σ = (σ', Ok ("Successfully wrote: " +:+ path))
    ∧ tldrawRead path σ' = (σ', Err (DuplicateBlock m))
    ∧ ∀ content2 d2 ic2,
        normalizeTldrawPayload content2 = Ok (d2, ic2) →
        tldrawWrite path content2 σ' = (σ', Err (DuplicateBlock m)).
Proof.
  intros markdown Hpath Hext Hnorm Hfile HS HE Hne Hparse Hex Hquote.
  rewrite (tldrawWrite_md_block σ path filepath content d ic prefix mid
             suffix existingData fw) by done.
  rewrite Hquote.
  set (markdown' := prefix +:+ START +:+ nl +:+ (a +:+ END_ +:+ b) +:+ nl
                    +:+ END_ +:+ suffix).
  set (σ' := <[filepath := File markdown']> σ).
  assert (σ' !! filepath = Some (File markdown')) as Hfile'
    by apply lookup_insert_eq.
  destruct (locateMarkdownTldrawBlock_second_end prefix (nl +:+ a)
              (b +:+ nl) suffix) as [m Hblock].
  cbv zeta in Hblock. rewrite !append_assoc in Hblock.
  replace (prefix +:+ START +:+ nl +:+ a +:+ END_ +:+ b +:+ nl +:+ END_
           +:+ suffix) with markdown' in Hblock
    by (unfold markdown'; by rewrite !append_assoc).
  exists σ', m. split_and!; [done | |].
  - unfold tldrawRead.
    by rewrite bind_run,
      (parseTldrawContent_md_fails σ' path filepath markdown' _
         Hpath Hext Hfile' Hblock).
  - intros content2 d2 ic2 Hnorm2.
    rewrite (tldrawWrite_md σ' path filepath content2 d2 ic2) by done.
    rewrite Hfile'. unfold existingBlock. by rewrite Hblock.
Qed.

End EmbeddedRoundTrip.

Lemma tldrawWrite_tldrawRead_embedded_witness :
  ∃ σ',
    @tldrawWrite rt0 "n.md" doc1
      (note_store (note_text (Json.stringify empty_v2)))
    = (σ', Ok "Successfully wrote: n.md")
    ∧ @tldrawRead rt0 "n.md" σ' = (σ', Ok doc1).
Proof.
  destruct (@tldrawWrite_tldrawRead_embedded rt0
              (note_store (note_text (Json.stringify empty_v2)))
              "n.md" "/home/u/.tldraw/n.md"
              doc1 doc1 None "# t" (Json.stringify empty_v2) "tail"
              empty_v2 (empty_v2, None))
    as (σ' & w & Hwrite & _ & _ & Hread);
    [reflexivity | reflexivity | reflexivity | reflexivity
    | vm_compute; reflexivity | vm_compute; reflexivity
    | vm_compute; discriminate | vm_compute; reflexivity | reflexivity
    | vm_compute; reflexivity | vm_compute; reflexivity
    | vm_compute; discriminate | vm_compute; reflexivity
    | left; reflexivity |].
  exists σ'. by split.
Defined.

Lemma tldrawWrite_embedded_end_marker_witness :
  ∃ σ' m,
    @tldrawWrite rt0 "n.md" quoting_doc
      (note_store (note_text (Json.stringify empty_v2)))
    = (σ', Ok "Successfully wrote: n.md")
    ∧ @tldrawRead rt0 "n.md" σ' = (σ', Err (DuplicateBlock m)).
Proof.
  destruct (@tldrawWrite_embedded_end_marker rt0
              (note_store (note_text (Json.stringify empty_v2)))
              "n.md" "/home/u/.tldraw/n.md"
              quoting_doc quoting_doc None "# t" (Json.stringify empty_v2)
              "tail" empty_v2 (empty_v2, None)
              quoting_before quoting_after)
    as (σ' & m & Hwrite & Hread & _);
    [reflexivity | reflexivity | reflexivity | reflexivity
    | vm_compute; reflexivity | vm_compute; reflexivity
    | vm_compute; discriminate | vm_compute; reflexivity | reflexivity
    | vm_compute; reflexivity |].
  exists σ', m. by split.
Defined.

(** ** The tools, end to end *)

Lemma has_set_records fs records' k :
  k ≠ "records" →
  Js.has (Js.set (JObj fs) "records" (JArr records')) k = Js.has (JObj fs) k.
Proof. intros Hk. unfold Js.has. by rewrite get_set_ne. Qed.

(** What [addShape] makes of a document that passed the validator. *)
Lemma addShape_spec uuid f shape pageId f' shapeId :
  documentOk f = true →
  addShape uuid f shape pageId = Ok (f', shapeId) →
  documentOk f' = true
  ∧ Js.has f' "raw" = Js.has f "raw"
  ∧ ∃ record,
      Js.get record "id" = Some shapeId
      ∧ ∀ shapes, getShapes f None = Ok shapes →
          getShapes f' None = Ok (shapes ++ [record]).
Proof.
  intros Hok Hadd.
  destruct (documentOk_get_records f Hok) as [records Hrec].
  destruct (addShape_run uuid f records shape pageId f' shapeId Hok Hrec Hadd)
    as (target & record & _ & -> & Hid & -> & Hrec').
  destruct (documentOk_records f records Hok Hrec) as [[fs ->] _].
  split_and!.
  - apply documentOk_set_records; [done |].
    rewrite forallb_app, (documentOk_forallb _ _ Hok Hrec). simpl.
    by rewrite newShape_recordOk.
  - by apply has_set_records.
  - exists (newShape shape shapeId target
              (length (filter (fun r => isShape r) records))).
    split; [reflexivity |].
    intros shapes. rewrite (getShapes_records _ _ None Hrec).
    rewrite (getShapes_records _ _ None Hrec'). simpl.
    intros [= <-]. by rewrite filter_app.
Qed.

(** What [deleteShape] makes of a document that passed the validator. *)
Lemma deleteShape_spec f shapeId f' :
  documentOk f = true →
  deleteShape f shapeId = Ok f' →
  documentOk f' = true
  ∧ Js.has f' "raw" = Js.has f "raw"
  ∧ deleteShape f' shapeId = Err ShapeNotFound
  ∧ ∀ pageId shapes, getShapes f pageId = Ok shapes →
      getShapes f' pageId
      = Ok (filter (fun r => negb (hasId shapeId r)) shapes).
Proof.
  intros Hok Hdel.
  destruct (documentOk_get_records f Hok) as [records Hrec].
  rewrite (deleteShape_run f records shapeId f' Hrec Hdel).
  destruct (documentOk_records f records Hok Hrec) as [[fs ->] _].
  set (records' := filter (fun r => negb (hasId shapeId r)) records).
  assert (Js.get (Js.set (JObj fs) "records" (JArr records')) "records"
          = Some (JArr records')) as Hrec' by apply get_set_eq.
  split_and!.
  - apply documentOk_set_records; [done |].
    apply forallb_filter_bool. by eapply documentOk_forallb.
  - by apply has_set_records.
  - apply (deleteShape_absent _ records'); [done |].
    intros r [Hr _]%list_elem_of_filter.
    by destruct (hasId shapeId r).
  - intros pageId shapes.
    rewrite (getShapes_records _ _ pageId Hrec).
    rewrite (getShapes_records _ _ pageId Hrec'). unfold records'.
    intros [= <-]. f_equal. destruct (pageGiven pageId) as [p|].
    + rewrite (filter_bool_comm isShape).
      by rewrite (filter_bool_comm (fun r => Js.is_str (Js.get r "parentId") p)).
    + apply (filter_bool_comm isShape).
Qed.

Section EndToEnd.
Context `{NodeRuntime}.
Implicit Types (σ : gmap string node) (path filepath : string).

(** A document without a [raw] field of its own, written to a [.tldr]
    path, is the document read next. *)
Lemma tldrawWrite_reads_back σ path filepath f :
  securePath path = Ok filepath →
  Str.endsWith filepath ".tldr" = true →
  documentOk f = true →
  Js.has f "raw" = false →
  dirReady σ (dirOf filepath) = true →
  σ !! filepath ≠ Some Dir →
  JSON_parse
    (JSON_stringify (outputContent (containerOnDisk σ filepath) None f))
  = Some (outputContent (containerOnDisk σ filepath) None f) →
  ∃ σ',
    tldrawWrite path f σ = (σ', Ok ("Successfully wrote: " +:+ path))
    ∧ σ' !! filepath
      = Some (File (JSON_stringify
                      (outputContent (containerOnDisk σ filepath) None f)))
    ∧ tldrawRead path σ' = (σ', Ok f).
Proof.
  intros Hpath Hext Hok Hraw Hready Hdir Hjson.
  pose proof (normalizeTldrawPayload_bare f Hok Hraw) as Hnorm.
  pose proof (normalizeTldrawPayload_not_string f _ Hnorm) as Hinput.
  rewrite (tldrawWrite_tldr σ path filepath f f f None) by done.
  set (out := outputContent (containerOnDisk σ filepath) None f) in *.
  assert (∃ w, normalizeTldrawPayload out = Ok (f, w)) as [w Hn].
  { unfold out, outputContent.
    destruct (containerOnDisk σ filepath) as [c|]; [| by exists None].
    eexists. apply (normalizeTldrawPayload_output f c Hok). }
  set (σ' := <[filepath := File (JSON_stringify out)]> _).
  assert (σ' !! filepath = Some (File (JSON_stringify out))) as Hfile
    by apply lookup_insert_eq.
  exists σ'. split_and!; try done.
  unfold tldrawRead.
  by rewrite bind_run,
    (parseTldrawContent_tldr σ' path filepath (JSON_stringify out) out f w
       Hpath Hext Hfile Hjson Hn).
Qed.

(** What a successful read of a [.tldr] path tells. *)
Lemma tldrawRead_tldr σ path filepath f :
  securePath path = Ok filepath →
  tldrawRead path σ = (σ, Ok f) →
  documentOk f = true ∧ σ !! filepath ≠ Some Dir.
Proof.
  intros Hpath Hread.
  destruct (tldrawRead_inv _ _ _ _ Hread) as (parsed & Hparse & <-).
  destruct (parseTldrawContent_inv _ _ _ _ Hparse)
    as (_ & filepath' & content & data & Hpath' & _ & Hfile & Hnorm & _).
  destruct (normalizeTldrawPayload_inv _ _ _ Hnorm) as [Hok _].
  split; [done |]. intros Hdir.
  assert (filepath' = filepath) as -> by congruence.
  by rewrite Hdir in Hfile.
Qed.

Lemma tldrawGetShapes_run σ path f pageId :
  tldrawRead path σ = (σ, Ok f) →
  tldrawGetShapes path pageId σ = (σ, getShapes f pageId).
Proof. intros Hread. unfold tldrawGetShapes. by rewrite bind_run, Hread. Qed.

(** X18: on a [.tldr] file in a directory that is there, whose document
    has no [raw] field of its own and whose new content the parser
    reads back, [tldrawAddShape] succeeds when a page is named or the
    document has a page record: it returns the identity of the new
    shape, and [tldrawGetShapes] then returns the shapes it returned
    before followed by one record with that identity.  With no page
    named and no page record it fails with [NoPages] and writes
    nothing. *)
Theorem tldrawAddShape_then_tldrawGetShapes σ (uuid path filepath : string)
    (fields : list (string * json)) (pageId : option string) (f : json) :
  securePath path = Ok filepath →
  Str.endsWith filepath ".tldr" = true →
  tldrawRead path σ = (σ, Ok f) →
  Js.has f "raw" = false →
  dirReady σ (dirOf filepath) = true →
  (∀ f' shapeId,
     addShape uuid f (JObj fields) pageId = Ok (f', shapeId) →
     JSON_parse
       (JSON_stringify (outputContent (containerOnDisk σ filepath) None f'))
     = Some (outputContent (containerOnDisk σ filepath) None f')) →
  ∃ records shapes,
    Js.get f "records" = Some (JArr records)
    ∧ tldrawGetShapes path None σ = (σ, Ok shapes)
    ∧ ((∃ p, pageId = Some p ∧ p ≠ "")
       ∨ (∃ r, r ∈ records ∧ isPage r = true) →
       ∃ σ' shapeId record,
         tldrawAddShape uuid path (JObj fields) pageId σ = (σ', Ok shapeId)
         ∧ tldrawGetShapes path None σ' = (σ', Ok (shapes ++ [record]))
         ∧ Js.get record "id" = Some shapeId)
    ∧ (pageId = None ∨ pageId = Some "" →
       (∀ r, r ∈ records → isPage r = false) →
       tldrawAddShape uuid path (JObj fields) pageId σ = (σ, Err NoPages)).
Proof.
  intros Hpath Hext Hread Hraw Hready Hjson.
  destruct (tldrawRead_tldr σ path filepath f Hpath Hread) as [Hok Hdir].
  destruct (documentOk_get_records f Hok) as [records Hrec].
  pose proof (getShapes_records f records None Hrec) as Hget.
  exists records, (filter (fun r => isShape r) records). split_and!.
  - done.
  - by rewrite (tldrawGetShapes_run σ path f None Hread), Hget.
  - intros Hpage.
    destruct (addShape_succeeds uuid f records (JObj fields) pageId Hrec
                Hpage) as (f' & shapeId & Hadd).
    destruct (addShape_spec uuid f (JObj fields) pageId f' shapeId Hok Hadd)
      as (Hok' & Hraw' & record & Hid & Hshapes).
    rewrite Hraw in Hraw'.
    destruct (tldrawWrite_reads_back σ path filepath f' Hpath Hext Hok'
                Hraw' Hready Hdir (Hjson f' shapeId Hadd))
      as (σ' & Hwrite & _ & Hread').
    exists σ', shapeId, record. split_and!.
    + by rewrite (tldrawAddShape_writes uuid path (JObj fields) pageId σ f f'
                    shapeId Hread Hadd), Hwrite.
    + rewrite (tldrawGetShapes_run σ' path f' None Hread').
      f_equal. by apply Hshapes.
    + done.
  - intros Hgiven Hnone.
    apply (tldrawAddShape_fails uuid path (JObj fields) pageId σ f); [done |].
    by apply (addShape_no_pages uuid f records).
Qed.

(** X19: on a [.tldr] file in a directory that is there, whose document
    has no [raw] field of its own and whose new content the parser
    reads back, [tldrawDeleteShape] of an identity some record carries
    succeeds, [tldrawGetShapes] then returns the former shapes without
    those of that identity, and a second [tldrawDeleteShape] of the same
    identity fails with [ShapeNotFound] and writes nothing. *)
Theorem tldrawDeleteShape_twice σ (path filepath shapeId : string)
    (pageId : option string) (f f' : json) :
  securePath path = Ok filepath →
  Str.endsWith filepath ".tldr" = true →
  tldrawRead path σ = (σ, Ok f) →
  Js.has f "raw" = false →
  dirReady σ (dirOf filepath) = true →
  deleteShape f shapeId = Ok f' →
  JSON_parse
    (JSON_stringify (outputContent (containerOnDisk σ filepath) None f'))
  = Some (outputContent (containerOnDisk σ filepath) None f') →
  ∃ σ' shapes,
    tldrawGetShapes path pageId σ = (σ, Ok shapes)
    ∧ tldrawDeleteShape path shapeId σ
      = (σ', Ok ("Deleted shape: " +:+ shapeId))
    ∧ tldrawGetShapes path pageId σ'
      = (σ', Ok (filter (fun r => negb (hasId shapeId r)) shapes))
    ∧ tldrawDeleteShape path shapeId σ' = (σ', Err ShapeNotFound).
Proof.
  intros Hpath Hext Hread Hraw Hready Hdel Hjson.
  destruct (tldrawRead_tldr σ path filepath f Hpath Hread) as [Hok Hdir].
  destruct (deleteShape_spec f shapeId f' Hok Hdel)
    as (Hok' & Hraw' & Hagain & Hshapes).
  rewrite Hraw in Hraw'.
  destruct (tldrawWrite_reads_back σ path filepath f' Hpath Hext Hok' Hraw'
              Hready Hdir Hjson) as (σ' & Hwrite & _ & Hread').
  destruct (documentOk_get_records f Hok) as [records Hrec].
  pose proof (getShapes_records f records pageId Hrec) as Hget.
  eexists σ', _. split_and!.
  - by rewrite (tldrawGetShapes_run σ path f pageId Hread), Hget.
  - by rewrite (tldrawDeleteShape_writes path shapeId σ f f' Hread Hdel),
      Hwrite.
  - rewrite (tldrawGetShapes_run σ' path f' pageId Hread').
    f_equal. by apply Hshapes.
  - by apply (tldrawDeleteShape_fails path shapeId σ' f').
Qed.

(** ** Creating a file *)

Lemma createEmptyTldrawFile_bare name uuid :
  documentOk (createEmptyTldrawFile name uuid) = true
  ∧ Js.has (createEmptyTldrawFile name uuid) "raw" = false.
Proof. by split. Qed.

(** X20: [tldrawCreateFile] refuses a path that exists and leaves it as
    it is; on a free [.md] path it fails with [NotFound], so it creates
    no [.md] file; on a free [.tldr] path in a directory that is there
    or can be made it writes the fresh document, which the next read
    returns, and a second call is refused; where the directory is
    missing and cannot be made, or a file is in its place, it fails and
    writes nothing. *)
Theorem tldrawCreateFile_cases σ (uuid path filepath : string)
    (name : option string) :
  securePath path = Ok filepath →
  let f :=
    createEmptyTldrawFile
      match pageGiven name with
      | Some n => n
      | None => Text.replaceFirst path ".tldr" ""
      end uuid in
  (is_Some (σ !! filepath) →
   tldrawCreateFile uuid path name σ = (σ, Err AlreadyExists))
  ∧ (σ !! filepath = None → Str.endsWith filepath ".md" = true →
     tldrawCreateFile uuid path name σ = (σ, Err NotFound))
  ∧ (σ !! filepath = None → isReadableTldrawPath filepath = false →
     tldrawCreateFile uuid path name σ = (σ, Err UnsupportedExtension))
  ∧ (σ !! filepath = None → Str.endsWith filepath ".tldr" = true →
     dirReady σ (dirOf filepath) = true →
     ∃ σ',
       tldrawCreateFile uuid path name σ
       = (σ', Ok ("Created new tldraw file: " +:+ path))
       ∧ σ' !! filepath = Some (File (JSON_stringify f))
       ∧ (∀ uuid2 name2,
            tldrawCreateFile uuid2 path name2 σ' = (σ', Err AlreadyExists))
       ∧ (JSON_parse (JSON_stringify f) = Some f →
          tldrawRead path σ' = (σ', Ok f)))
  ∧ (σ !! filepath = None → Str.endsWith filepath ".tldr" = true →
     σ !! dirOf filepath = None → mkdirOk σ (dirOf filepath) = false →
     tldrawCreateFile uuid path name σ = (σ, Err IOError))
  ∧ (σ !! filepath = None → Str.endsWith filepath ".tldr" = true →
     isFile (σ !! dirOf filepath) = true → dirOf filepath ≠ "" →
     tldrawCreateFile uuid path name σ = (σ, Err IOError)).
Proof.
  intros Hpath f.
  assert (∀ σ0 u n, is_Some (σ0 !! filepath) →
            tldrawCreateFile u path n σ0 = (σ0, Err AlreadyExists))
    as Hexists.
  { intros σ0 u n Hsome. unfold tldrawCreateFile.
    rewrite Hpath, bind_liftR_Ok, bind_run. unfold existsSync.
    by rewrite bool_decide_true by done. }
  assert (σ !! filepath = None →
          tldrawCreateFile uuid path name σ
          = match tldrawWrite path f σ with
            | (σ', Ok _) => (σ', Ok ("Created new tldraw file: " +:+ path))
            | (σ', Err e) => (σ', Err e)
            end) as Hfree.
  { intros Hnone. unfold tldrawCreateFile.
    rewrite Hpath, bind_liftR_Ok, bind_run. unfold existsSync.
    rewrite bool_decide_false by (rewrite Hnone; by intros [? ?]).
    cbn [negb]. rewrite bind_run. fold f.
    by destruct (tldrawWrite path f σ) as [σ' [msg|e]]. }
  destruct (createEmptyTldrawFile_bare
              match pageGiven name with
              | Some n => n
              | None => Text.replaceFirst path ".tldr" ""
              end uuid) as [Hok Hraw].
  fold f in Hok, Hraw.
  pose proof (normalizeTldrawPayload_bare f Hok Hraw) as Hnorm.
  pose proof (normalizeTldrawPayload_not_string f _ Hnorm) as Hinput.
  split_and!.
  - apply Hexists.
  - intros Hnone Hext. rewrite (Hfree Hnone).
    rewrite (tldrawWrite_md σ path filepath f f None) by done.
    by rewrite Hnone.
  - intros Hnone Hext. rewrite (Hfree Hnone). unfold tldrawWrite.
    by rewrite Hpath, bind_liftR_Ok, Hext.
  - intros Hnone Hext Hready. rewrite (Hfree Hnone).
    assert (containerOnDisk σ filepath = None) as Hc
      by (unfold containerOnDisk; by rewrite Hnone).
    rewrite (tldrawWrite_tldr σ path filepath f f f None)
      by (done || by rewrite Hnone).
    rewrite Hc. cbn [outputContent].
    set (σ' := <[filepath := File (JSON_stringify f)]> _).
    assert (σ' !! filepath = Some (File (JSON_stringify f))) as Hfile
      by apply lookup_insert_eq.
    exists σ'. split_and!; try done.
    + intros uuid2 name2. apply Hexists. by rewrite Hfile.
    + intros Hjson. unfold tldrawRead.
      by rewrite bind_run,
        (parseTldrawContent_tldr σ' path filepath (JSON_stringify f) f f
           None Hpath Hext Hfile Hjson Hnorm).
  - intros Hnone Hext Hmissing Hno. rewrite (Hfree Hnone).
    by rewrite (tldrawWrite_tldr_no_dir σ path filepath f f f None).
  - intros Hnone Hext Hblocked Hne. rewrite (Hfree Hnone).
    by rewrite (tldrawWrite_tldr_blocked σ path filepath f f f None).
Qed.

End EndToEnd.

Lemma tldrawAddShape_then_tldrawGetShapes_witness :
  (∃ σ' shapeId record,
     @tldrawAddShape rt0 "0123456789abcdef" "a.tldr"
       (JObj [("type", JStr "text")]) None plain_store
     = (σ', Ok shapeId)
     ∧ @tldrawGetShapes rt0 "a.tldr" None σ'
       = (σ', Ok ([shape1] ++ [record]))
     ∧ Js.get record "id" = Some shapeId)
  ∧ @tldrawAddShape rt0 "0123456789abcdef" "a.tldr"
      (JObj [("type", JStr "text")]) None pageless_store
    = (pageless_store, Err NoPages).
Proof.
  split.
  - destruct (@tldrawAddShape_then_tldrawGetShapes rt0 plain_store
                "0123456789abcdef" "a.tldr" "/home/u/.tldraw/a.tldr"
                [("type", JStr "text")] None doc1)
      as (records & shapes & Hrec & Hbefore & Hadd & _);
      [reflexivity | reflexivity | vm_compute; reflexivity | reflexivity
      | vm_compute; reflexivity | |].
    { intros f' shapeId Hadd. vm_compute in Hadd.
      injection Hadd as <- <-. vm_compute. reflexivity. }
    injection Hrec as <-.
    destruct Hadd as (σ' & shapeId & record & Hrun & Hafter & Hid).
    { right. exists page1. split; [by left | reflexivity]. }
    exists σ', shapeId, record.
    assert (shapes = [shape1]) as <-; [| by split_and!].
    apply (f_equal snd) in Hbefore. vm_compute in Hbefore.
    by injection Hbefore as <-.
  - destruct (@tldrawAddShape_then_tldrawGetShapes rt0 pageless_store
                "0123456789abcdef" "a.tldr" "/home/u/.tldraw/a.tldr"
                [("type", JStr "text")] None empty_v2)
      as (records & shapes & Hrec & _ & _ & Hnone);
      [reflexivity | reflexivity | vm_compute; reflexivity | reflexivity
      | vm_compute; reflexivity | |].
    { intros f' shapeId Hadd. vm_compute in Hadd. discriminate. }
    injection Hrec as <-.
    apply Hnone; [by left |]. by intros r Hin%elem_of_nil.
Defined.

Lemma tldrawDeleteShape_twice_witness :
  ∃ σ',
    @tldrawDeleteShape rt0 "a.tldr" "shape:s1" plain_store
    = (σ', Ok "Deleted shape: shape:s1")
    ∧ @tldrawDeleteShape rt0 "a.tldr" "shape:s1" σ'
      = (σ', Err ShapeNotFound).
Proof.
  destruct (@tldrawDeleteShape_twice rt0 plain_store "a.tldr"
              "/home/u/.tldraw/a.tldr" "shape:s1" None doc1
              (document_of [page1]))
    as (σ' & shapes & _ & Hrun & _ & Hagain);
    [reflexivity | reflexivity | vm_compute; reflexivity | reflexivity
    | vm_compute; reflexivity | reflexivity | vm_compute; reflexivity |].
  exists σ'. by split.
Defined.

Lemma tldrawCreateFile_cases_witness :
  (∃ σ',
     @tldrawCreateFile rt0 "0123456789abcdef" "b.tldr" None ∅
     = (σ', Ok "Created new tldraw file: b.tldr")
     ∧ @tldrawRead rt0 "b.tldr" σ'
       = (σ', Ok (createEmptyTldrawFile "b" "0123456789abcdef")))
  ∧ @tldrawCreateFile rt0 "0123456789abcdef" "n.md" None ∅
    = (∅, Err NotFound)
  ∧ @tldrawCreateFile rt0 "0123456789abcdef" "/b.tldr" None home
    = (home, Err IOError)
  ∧ @tldrawCreateFile rt0 "0123456789abcdef" "sub/b.tldr" None blocked_store
    = (blocked_store, Err IOError).
Proof.
  destruct (@tldrawCreateFile_cases rt0 ∅ "0123456789abcdef" "b.tldr"
              "/home/u/.tldraw/b.tldr" None eq_refl)
    as (_ & _ & _ & Hnew & _).
  destruct (Hnew eq_refl eq_refl) as (σ' & Hrun & _ & _ & Hread);
    [vm_compute; reflexivity |].
  destruct (@tldrawCreateFile_cases rt0 ∅ "0123456789abcdef" "n.md"
              "/home/u/.tldraw/n.md" None eq_refl)
    as (_ & Hmd & _).
  destruct (@tldrawCreateFile_cases rt0 home "0123456789abcdef" "/b.tldr"
              "/b.tldr" None eq_refl)
    as (_ & _ & _ & _ & Hroot & _).
  destruct (@tldrawCreateFile_cases rt0 blocked_store "0123456789abcdef"
              "sub/b.tldr" "/home/u/.tldraw/sub/b.tldr" None eq_refl)
    as (_ & _ & _ & _ & _ & Hblocked).
  split_and!.
  - exists σ'. split; [exact Hrun |]. apply Hread. vm_compute. reflexivity.
  - by apply Hmd.
  - apply Hroot; reflexivity.
  - apply Hblocked; [reflexivity | reflexivity | reflexivity | discriminate].
Defined.
